(** * youtube-to-tweets: a shallow embedding of [app.py]

    The program is one Python module.  Its four helpers
    [extract_video_id], [fetch_transcript_text], [x_intent_url] and
    [generate_3_tweets], and the transcript preview of the page, are
    embedded below as Rocq functions, together with the parts of the
    Python runtime they call: [str.strip], [str.split], the two regular
    expressions, [urllib.parse.urlparse], [parse_qs], [quote], and
    [json.loads].  The runtime functions follow CPython 3.11 / 3.12.

    Conventions.
    - A Python [str] is a list of Unicode code points ([N]); [len] is
      [List.length].  A lone surrogate is a legal element, as in Python.
    - A call that may raise returns a [result]: [Ok v] or [Raise e].
    - The two external services (the transcript provider and the
      completion service) are parameters of the functions that call
      them; so are two checks of [urlsplit] that depend on the
      [ipaddress] and [unicodedata] modules, and the room the
      interpreter's recursion limit leaves to [json.loads].
    - A [float] read by [json.loads] is kept as its text, and the message
      of a [JSONDecodeError] carries no position.

    The definitions come first, then the notions of the specification,
    then the properties, one section for each component. *)

From Stdlib Require Import String Ascii.
From Stdlib Require Import List NArith ZArith Bool Arith Lia.
Import ListNotations.
Local Open Scope N_scope.
Set Warnings "-register-all".


(* ================================================================= *)
(** ** Python values: characters, strings, exceptions *)

Definition char := N.
Definition str := list char.

Definition ch (a : ascii) : char := N_of_ascii a.
Arguments ch a%_char.

Definition str_eqb (a b : str) : bool :=
  if list_eq_dec N.eq_dec a b then true else false.

(** The exception classes the program can meet.  [JSONDecodeError] is a
    subclass of [ValueError]; [ServiceError] stands for what the two
    external services raise; [RecursionError] is what the JSON decoder
    raises on arrays and objects nested deeper than the interpreter
    allows.  Every class here derives from [Exception]. *)
Inductive exn : Type :=
| ValueError (msg : str)
| JSONDecodeError (msg : str)
| TypeError (msg : str)
| AttributeError (msg : str)
| UnicodeEncodeError (position : nat)
| RecursionError
| ServiceError (msg : str).

Inductive result (A : Type) : Type :=
| Ok (v : A)
| Raise (e : exn).
Arguments Ok {A} v.
Arguments Raise {A} e.

Definition bind {A B} (r : result A) (k : A -> result B) : result B :=
  match r with
  | Ok v => k v
  | Raise e => Raise e
  end.

Notation "x <- r ;; k" := (bind r (fun x => k))
  (at level 61, r at next level, right associativity).

(* ================================================================= *)
(** ** UTF-8 *)

Definition REPLACEMENT : char := 0xFFFD.

Definition is_continuation (b : N) : bool := (0x80 <=? b) && (b <=? 0xBF).

(** [bytes.decode('utf-8', 'replace')]: every maximal ill-formed part
    becomes one U+FFFD. *)
Fixpoint utf8_decode_replace (bs : list N) : str :=
  match bs with
  | [] => []
  | b1 :: t1 =>
    if b1 <? 0x80 then b1 :: utf8_decode_replace t1
    else if b1 <? 0xC2 then REPLACEMENT :: utf8_decode_replace t1
    else if b1 <? 0xE0 then
      match t1 with
      | [] => [REPLACEMENT]
      | b2 :: t2 =>
        if is_continuation b2
        then ((b1 - 0xC0) * 64 + (b2 - 0x80)) :: utf8_decode_replace t2
        else REPLACEMENT :: utf8_decode_replace t1
      end
    else if b1 <? 0xF0 then
      match t1 with
      | [] => [REPLACEMENT]
      | b2 :: t2 =>
        if negb (is_continuation b2)
           || (if b2 <? 0xA0 then b1 =? 0xE0 else b1 =? 0xED)
        then REPLACEMENT :: utf8_decode_replace t1
        else
          match t2 with
          | [] => [REPLACEMENT]
          | b3 :: t3 =>
            if is_continuation b3
            then ((b1 - 0xE0) * 4096 + (b2 - 0x80) * 64 + (b3 - 0x80))
                   :: utf8_decode_replace t3
            else REPLACEMENT :: utf8_decode_replace t2
          end
      end
    else if b1 <? 0xF5 then
      match t1 with
      | [] => [REPLACEMENT]
      | b2 :: t2 =>
        if negb (is_continuation b2)
           || (if b2 <? 0x90 then b1 =? 0xF0 else b1 =? 0xF4)
        then REPLACEMENT :: utf8_decode_replace t1
        else
          match t2 with
          | [] => [REPLACEMENT]
          | b3 :: t3 =>
            if negb (is_continuation b3)
            then REPLACEMENT :: utf8_decode_replace t2
            else
              match t3 with
              | [] => [REPLACEMENT]
              | b4 :: t4 =>
                if is_continuation b4
                then ((b1 - 0xF0) * 262144 + (b2 - 0x80) * 4096
                      + (b3 - 0x80) * 64 + (b4 - 0x80))
                       :: utf8_decode_replace t4
                else REPLACEMENT :: utf8_decode_replace t3
              end
          end
      end
    else REPLACEMENT :: utf8_decode_replace t1
  end.

Definition is_surrogate (c : char) : bool := (0xD800 <=? c) && (c <=? 0xDFFF).

(** The UTF-8 bytes of one code point; [None] for a surrogate, which the
    strict encoder refuses (and for a number that is no code point). *)
Definition utf8_encode_char (c : char) : option (list N) :=
  if c <? 0x80 then Some [c]
  else if c <? 0x800 then Some [0xC0 + c / 64; 0x80 + c mod 64]
  else if c <? 0x10000 then
    if is_surrogate c then None
    else Some [0xE0 + c / 4096; 0x80 + (c / 64) mod 64; 0x80 + c mod 64]
  else if c <? 0x110000 then
    Some [0xF0 + c / 262144; 0x80 + (c / 4096) mod 64;
          0x80 + (c / 64) mod 64; 0x80 + c mod 64]
  else None.

(** [str.encode('utf-8', 'strict')]; the error carries the index of the
    first character that cannot be encoded. *)
Fixpoint utf8_encode_from (i : nat) (s : str) : result (list N) :=
  match s with
  | [] => Ok []
  | c :: t =>
    match utf8_encode_char c with
    | None => Raise (UnicodeEncodeError i)
    | Some bs =>
      match utf8_encode_from (S i) t with
      | Ok r => Ok (bs ++ r)
      | Raise e => Raise e
      end
    end
  end.

Definition utf8_encode (s : str) : result (list N) := utf8_encode_from 0 s.

(** String literals of the source: the file is UTF-8, so a literal is the
    decoding of its bytes. *)
Definition lit (s : string) : str :=
  utf8_decode_replace (map N_of_ascii (list_ascii_of_string s)).
Arguments lit s%_string.

(* ================================================================= *)
(** ** [str] methods *)

(** [str.isspace] on one character (the set [str.strip()] removes). *)
Definition isspace (c : char) : bool :=
  ((0x09 <=? c) && (c <=? 0x0D)) || ((0x1C <=? c) && (c <=? 0x20))
  || (c =? 0x85) || (c =? 0xA0) || (c =? 0x1680)
  || ((0x2000 <=? c) && (c <=? 0x200A))
  || (c =? 0x2028) || (c =? 0x2029) || (c =? 0x202F) || (c =? 0x205F)
  || (c =? 0x3000).

Fixpoint lstrip_by (p : char -> bool) (s : str) : str :=
  match s with
  | [] => []
  | c :: t => if p c then lstrip_by p t else s
  end.

Definition rstrip_by (p : char -> bool) (s : str) : str :=
  rev (lstrip_by p (rev s)).

Definition strip_by (p : char -> bool) (s : str) : str :=
  rstrip_by p (lstrip_by p s).

Definition char_in (chars : str) (c : char) : bool :=
  existsb (N.eqb c) chars.

(** [s.strip()] *)
Definition strip (s : str) : str := strip_by isspace s.

(** [s.strip(chars)] *)
Definition strip_chars (chars s : str) : str := strip_by (char_in chars) s.

(** [s.split(sep)] for a one-character separator. *)
Fixpoint split (sep : char) (s : str) : list str :=
  match s with
  | [] => [[]]
  | c :: t =>
    if c =? sep then [] :: split sep t
    else
      match split sep t with
      | [] => [[c]]
      | w :: ws => (c :: w) :: ws
      end
  end.

(** [s.split(sep, 1)]: the text before the first [sep] and, when there is
    one, the text after it. *)
Fixpoint split1 (sep : char) (s : str) : str * option str :=
  match s with
  | [] => ([], None)
  | c :: t =>
    if c =? sep then ([], Some t)
    else let '(a, b) := split1 sep t in (c :: a, b)
  end.

(** [s.replace(old, new)] for one-character [old]. *)
Definition replace (old : char) (new : str) (s : str) : str :=
  flat_map (fun c => if c =? old then new else [c]) s.

(** [sep.join(parts)] *)
Fixpoint join (sep : str) (parts : list str) : str :=
  match parts with
  | [] => []
  | [p] => p
  | p :: rest => p ++ sep ++ join sep rest
  end.

Definition is_upper (c : char) : bool := (ch "A" <=? c) && (c <=? ch "Z").
Definition is_lower (c : char) : bool := (ch "a" <=? c) && (c <=? ch "z").
Definition is_digit (c : char) : bool := (ch "0" <=? c) && (c <=? ch "9").

(** [s.lower()] on ASCII text. *)
Definition lower (s : str) : str :=
  map (fun c => if is_upper c then c + 32 else c) s.

(* ================================================================= *)
(** ** Regular expressions

    The two patterns of the program are sequences of one-character items
    (literals, and a class repeated a fixed number of times), so a pattern
    is the list of its items, each a predicate on one character. *)

Definition pattern := list (char -> bool).

(** Match [p] at the start of [s]: the matched text and what follows. *)
Fixpoint match_at (p : pattern) (s : str) : option (str * str) :=
  match p with
  | [] => Some ([], s)
  | item :: p' =>
    match s with
    | [] => None
    | c :: t =>
      if item c then
        match match_at p' t with
        | Some (m, rest) => Some (c :: m, rest)
        | None => None
        end
      else None
    end
  end.

(** [re.fullmatch(p, s)]: truthy when the whole of [s] matches. *)
Definition fullmatch (p : pattern) (s : str) : bool :=
  match match_at p s with
  | Some (_, []) => true
  | _ => false
  end.

(** [re.search(p, s)]: the text of the leftmost match. *)
Fixpoint search (p : pattern) (s : str) : option str :=
  match match_at p s with
  | Some (m, _) => Some m
  | None =>
    match s with
    | [] => None
    | _ :: t => search p t
    end
  end.

Definition literal (s : str) : pattern := map (fun c x => x =? c) s.

(** The class [[A-Za-z0-9_-]]. *)
Definition id_char (c : char) : bool :=
  is_upper c || is_lower c || is_digit c || (c =? ch "_") || (c =? ch "-").

(** [r"[A-Za-z0-9_-]{11}"] *)
Definition ID_RE : pattern := repeat id_char 11.

(** [r"/shorts/([A-Za-z0-9_-]{11})"]; group 1 starts after the 8
    characters of the literal. *)
Definition SHORTS_RE : pattern := literal (lit "/shorts/") ++ ID_RE.
Definition SHORTS_group1 (m : str) : str := skipn 8 m.

(* ================================================================= *)
(** ** Dictionaries

    A Python [dict] keeps its keys in insertion order, and assigning to a
    key that is present keeps the key's position. *)

Definition dict (V : Type) := list (str * V).

Fixpoint dict_get {V} (d : dict V) (k : str) : option V :=
  match d with
  | [] => None
  | (k', v) :: d' => if str_eqb k' k then Some v else dict_get d' k
  end.

Fixpoint dict_set {V} (d : dict V) (k : str) (v : V) : dict V :=
  match d with
  | [] => [(k, v)]
  | (k', v') :: d' =>
    if str_eqb k' k then (k', v) :: d' else (k', v') :: dict_set d' k v
  end.

Definition dict_keys {V} (d : dict V) : list str := map fst d.

(* ================================================================= *)
(** ** [urllib.parse]: [unquote], [parse_qs] *)

Definition is_ascii (c : char) : bool := c <? 0x80.

Definition is_hexdig (c : char) : bool :=
  is_digit c || ((ch "A" <=? c) && (c <=? ch "F"))
  || ((ch "a" <=? c) && (c <=? ch "f")).

Definition hexval (c : char) : N :=
  if is_digit c then c - ch "0"
  else if c <=? ch "F" then c - ch "A" + 10
  else c - ch "a" + 10.

(** [unquote_to_bytes] on ASCII text: [%XX] with two hexadecimal digits is
    one byte, any other [%] stays. *)
Fixpoint unquote_to_bytes (s : str) : list N :=
  match s with
  | [] => []
  | c :: t =>
    if c =? ch "%" then
      match t with
      | h1 :: h2 :: t' =>
        if is_hexdig h1 && is_hexdig h2
        then (16 * hexval h1 + hexval h2) :: unquote_to_bytes t'
        else c :: unquote_to_bytes t
      | _ => c :: unquote_to_bytes t
      end
    else c :: unquote_to_bytes t
  end.

(** The loop of [unquote]: [run] holds, reversed, the ASCII run read so
    far ([_asciire] splits the text into ASCII runs and the text between
    them); a run is decoded as a whole, the other text is kept. *)
Fixpoint unquote_runs (run : str) (s : str) : str :=
  match s with
  | [] => utf8_decode_replace (unquote_to_bytes (rev run))
  | c :: t =>
    if is_ascii c then unquote_runs (c :: run) t
    else utf8_decode_replace (unquote_to_bytes (rev run))
           ++ c :: unquote_runs [] t
  end.

(** [unquote(string)] with the defaults [encoding='utf-8'],
    [errors='replace']. *)
Definition unquote (s : str) : str :=
  if char_in s (ch "%") then unquote_runs [] s else s.

(** [parse_qsl(qs)] with its defaults: fields are separated by [&]; a field
    without [=] or with an empty value is skipped. *)
Definition parse_qsl (qs : str) : list (str * str) :=
  flat_map
    (fun name_value =>
       match name_value with
       | [] => []
       | _ =>
         match split1 (ch "=") name_value with
         | (_, None) => []
         | (n, Some v) =>
           match v with
           | [] => []
           | _ => [(unquote (replace (ch "+") (lit " ") n),
                    unquote (replace (ch "+") (lit " ") v))]
           end
         end
       end)
    (match qs with [] => [] | _ => split (ch "&") qs end).

(** [parse_qs(qs)]: the values of each name, in order. *)
Definition parse_qs (qs : str) : dict (list str) :=
  fold_left
    (fun parsed_result '(name, value) =>
       match dict_get parsed_result name with
       | Some values => dict_set parsed_result name (values ++ [value])
       | None => dict_set parsed_result name [value]
       end)
    (parse_qsl qs) [].

(* ================================================================= *)
(** ** [urllib.parse]: [urlsplit], [urlparse] *)

Record ParseResult : Type := mkParseResult {
  scheme : str;
  netloc : str;
  path : str;
  params : str;
  query : str;
  fragment : str
}.

Definition scheme_char (c : char) : bool :=
  is_lower c || is_upper c || is_digit c
  || (c =? ch "+") || (c =? ch "-") || (c =? ch ".").

Definition uses_params : list str :=
  [lit ""; lit "ftp"; lit "hdl"; lit "prospero"; lit "http"; lit "imap";
   lit "https"; lit "shttp"; lit "rtsp"; lit "rtspu"; lit "sip"; lit "sips";
   lit "mms"; lit "sftp"; lit "tel"].

(** [s] up to the first character satisfying [p], and the rest. *)
Fixpoint break_at (p : char -> bool) (s : str) : str * str :=
  match s with
  | [] => ([], [])
  | c :: t =>
    if p c then ([], s) else let '(a, b) := break_at p t in (c :: a, b)
  end.

(** [s] cut at its last [sep]: the text before it and the text after it. *)
Fixpoint rsplit1 (sep : char) (s : str) : option (str * str) :=
  match s with
  | [] => None
  | c :: t =>
    match rsplit1 sep t with
    | Some (a, b) => Some (c :: a, b)
    | None => if c =? sep then Some ([], t) else None
    end
  end.

(** [_splitparams(url)], called when [url] contains a [;]. *)
Definition _splitparams (url : str) : str * str :=
  match rsplit1 (ch "/") url with
  | Some (a, b) =>
    match split1 (ch ";") b with
    | (b1, Some p) => (a ++ ch "/" :: b1, p)
    | (_, None) => (url, [])
    end
  | None =>
    match split1 (ch ";") url with
    | (u1, Some p) => (u1, p)
    | (u1, None) => (u1, [])
    end
  end.

Section UrlParse.

(** Two checks of [urlsplit] are left to the runtime.
    [check_bracketed_netloc] stands for [_check_bracketed_netloc], called
    on a network location that holds both brackets (it validates the
    bracketed host with the [ipaddress] module); [nfkc_has_delimiter]
    stands for the test of [_checknetloc] on a location that is not ASCII
    (its NFKC normal form, from [unicodedata], contains one of [/?#@:]).
    Each can only raise [ValueError]. *)
Variable check_bracketed_netloc : str -> option str.
Variable nfkc_has_delimiter : str -> bool.

Definition _checknetloc (netloc : str) : result unit :=
  match netloc with
  | [] => Ok tt
  | _ =>
    if forallb is_ascii netloc then Ok tt
    else if nfkc_has_delimiter netloc then
      Raise (ValueError (lit "netloc '" ++ netloc ++
               lit "' contains invalid characters under NFKC normalization"))
    else Ok tt
  end.

(** The scheme of [url], lowered, and what follows its colon; no scheme
    when the text before the first colon is empty, does not start with an
    ASCII letter or has a character outside [scheme_chars]. *)
Definition split_scheme (url : str) : str * str :=
  match split1 (ch ":") url with
  | (c0 :: before, Some after) =>
    if (is_upper c0 || is_lower c0) && forallb scheme_char (c0 :: before)
    then (lower (c0 :: before), after)
    else ([], url)
  | _ => ([], url)
  end.

(** After [//]: the network location, up to the first of [/?#]
    ([_splitnetloc]), with the checks of its brackets. *)
Definition split_netloc (url : str) : result (str * str) :=
  match url with
  | c1 :: c2 :: url2 =>
    if (c1 =? ch "/") && (c2 =? ch "/") then
      let '(netloc, rest) := break_at (char_in (lit "/?#")) url2 in
      let has_open := char_in netloc (ch "[") in
      let has_close := char_in netloc (ch "]") in
      if (has_open && negb has_close) || (has_close && negb has_open)
      then Raise (ValueError (lit "Invalid IPv6 URL"))
      else if has_open && has_close then
        match check_bracketed_netloc netloc with
        | Some msg => Raise (ValueError msg)
        | None => Ok (netloc, rest)
        end
      else Ok (netloc, rest)
    else Ok ([], url)
  | _ => Ok ([], url)
  end.

(** [url.split(sep, 1)] as a pair, the second part empty without [sep]. *)
Definition split_at (sep : char) (url : str) : str * str :=
  match split1 sep url with
  | (a, Some b) => (a, b)
  | (a, None) => (a, [])
  end.

Definition urlsplit (url : str) : result ParseResult :=
  let url := lstrip_by (fun c => c <=? 0x20) url in
  let url := replace 0x0A [] (replace 0x0D [] (replace 0x09 [] url)) in
  let '(scheme, url) := split_scheme url in
  r <- split_netloc url ;;
  let '(netloc, url) := r in
  let '(url, fragment) := split_at (ch "#") url in
  let '(url, query) := split_at (ch "?") url in
  _ <- _checknetloc netloc ;;
  Ok (mkParseResult scheme netloc url [] query fragment).

Definition urlparse (url : str) : result ParseResult :=
  r <- urlsplit url ;;
  if existsb (str_eqb (scheme r)) uses_params && char_in (path r) (ch ";")
  then
    let '(url, params) := _splitparams (path r) in
    Ok (mkParseResult (scheme r) (netloc r) url params (query r) (fragment r))
  else Ok r.

(* ================================================================= *)
(** ** [extract_video_id] *)

Definition EXTRACT_ERROR : exn :=
  ValueError (lit "Video ID çıkarılamadı. Link formatını kontrol et.").

Definition extract_video_id (url : str) : result str :=
  let url := strip url in
  if fullmatch ID_RE url then Ok url
  else
    u <- urlparse url ;;
    let short_vid := hd [] (split (ch "/") (strip_chars (lit "/") (path u))) in
    if existsb (str_eqb (netloc u)) [lit "youtu.be"; lit "www.youtu.be"]
       && fullmatch ID_RE short_vid
    then Ok short_vid
    else
      let watch_vid :=
        hd [] (match dict_get (parse_qs (query u)) (lit "v") with
               | Some (v :: vs) => v :: vs
               | _ => [[]]
               end) in
      if str_eqb (path u) (lit "/watch") && fullmatch ID_RE watch_vid
      then Ok watch_vid
      else
        match search SHORTS_RE (path u) with
        | Some m => Ok (SHORTS_group1 m)
        | None => Raise EXTRACT_ERROR
        end.

End UrlParse.

(* ================================================================= *)
(** ** [fetch_transcript_text] *)

(** A snippet of the transcript provider.  The program reads only its
    [text]; [start] and [duration] (in milliseconds here) are carried
    along. *)
Record FetchedTranscriptSnippet : Type := mkSnippet {
  text : str;
  start : N;
  duration : N
}.

Definition DEFAULT_LANGUAGES : list str := [lit "tr"; lit "tr-TR"; lit "en"].

(** The expression returned by [fetch_transcript_text], on the snippets
    the provider gave. *)
Definition join_snippets (snippets : list FetchedTranscriptSnippet) : str :=
  strip
    (join (lit " ")
       (map (fun s => strip (text s))
          (filter (fun s => match text s with [] => false | _ => true end)
             snippets))).

Section TranscriptFetcher.

(** [YouTubeTranscriptApi().fetch(video_id, languages=...)], giving
    [fetched.snippets]. *)
Variable ytt_fetch : str -> list str -> result (list FetchedTranscriptSnippet).

Definition fetch_transcript_text_in (video_id : str) (languages : list str)
  : result str :=
  snippets <- ytt_fetch video_id languages ;;
  Ok (join_snippets snippets).

Definition fetch_transcript_text (video_id : str) : result str :=
  fetch_transcript_text_in video_id DEFAULT_LANGUAGES.

End TranscriptFetcher.

(* ================================================================= *)
(** ** [x_intent_url] *)

(** [_ALWAYS_SAFE] together with the default [safe='/'] of [quote]. *)
Definition quote_safe (b : N) : bool :=
  is_upper b || is_lower b || is_digit b
  || char_in (lit "_.-~") b || (b =? ch "/").

Definition hexdigit_upper (n : N) : char :=
  if n <? 10 then ch "0" + n else ch "A" + (n - 10).

(** The string of one byte under the quoter: itself when safe, else
    ['%{:02X}'.format(b)]. *)
Definition quote_byte (b : N) : str :=
  if quote_safe b then [b]
  else [ch "%"; hexdigit_upper (b / 16); hexdigit_upper (b mod 16)].

(** [urllib.parse.quote(string)] with its defaults. *)
Definition quote (s : str) : result str :=
  bs <- utf8_encode s ;;
  Ok (flat_map quote_byte bs).

Definition INTENT_PREFIX : str := lit "https://twitter.com/intent/tweet?text=".

Definition x_intent_url (tweet_text : str) : result str :=
  encoded <- quote tweet_text ;;
  Ok (INTENT_PREFIX ++ encoded).

(* ================================================================= *)
(** ** [json.loads] *)

(** The Python objects [json.loads] builds.  A [float] is kept as the text
    it was read from: the program never computes with one. *)
Inductive value : Type :=
| PyNone
| PyBool (b : bool)
| PyInt (n : Z)
| PyFloat (lexeme : str)
| PyStr (s : str)
| PyList (items : list value)
| PyDict (d : dict value).

Definition DQUOTE : char := 34.
Definition BACKSLASH : char := 92.

Definition json_ws (c : char) : bool :=
  (c =? 0x20) || (c =? 0x09) || (c =? 0x0A) || (c =? 0x0D).

Definition skip_ws (s : str) : str := lstrip_by json_ws s.

Definition hex4 (h1 h2 h3 h4 : char) : option N :=
  if is_hexdig h1 && is_hexdig h2 && is_hexdig h3 && is_hexdig h4
  then Some (((hexval h1 * 16 + hexval h2) * 16 + hexval h3) * 16 + hexval h4)
  else None.

(** The [BACKSLASH] table of the decoder. *)
Definition simple_escape (e : char) : option char :=
  if e =? DQUOTE then Some DQUOTE
  else if e =? BACKSLASH then Some BACKSLASH
  else if e =? ch "/" then Some (ch "/")
  else if e =? ch "b" then Some 0x08
  else if e =? ch "f" then Some 0x0C
  else if e =? ch "n" then Some 0x0A
  else if e =? ch "r" then Some 0x0D
  else if e =? ch "t" then Some 0x09
  else None.

Definition is_high_surrogate (c : char) : bool := (0xD800 <=? c) && (c <=? 0xDBFF).
Definition is_low_surrogate (c : char) : bool := (0xDC00 <=? c) && (c <=? 0xDFFF).

(** After the escape of a high surrogate [uni]: the six characters
    [b u g1 g2 g3 g4] that follow are the escape of a low surrogate, and
    the two are one character. *)
Definition surrogate_pair (uni : N) (b u g1 g2 g3 g4 : char) : option char :=
  if is_high_surrogate uni && (b =? BACKSLASH) && (u =? ch "u") then
    match hex4 g1 g2 g3 g4 with
    | Some uni2 =>
      if is_low_surrogate uni2
      then Some (0x10000 + (uni - 0xD800) * 1024 + (uni2 - 0xDC00))
      else None
    | None => None
    end
  else None.

Definition cons_char (c : char) (r : result (str * str)) : result (str * str) :=
  p <- r ;; Ok (c :: fst p, snd p).

(** [scanstring(s, end)] in strict mode, from the character after the
    opening quote: the decoded string and the text after the closing quote.
    The message and position of a [JSONDecodeError] are not modelled. *)
Fixpoint scanstring (s : str) : result (str * str) :=
  match s with
  | [] => Raise (JSONDecodeError (lit "Unterminated string starting at"))
  | c :: t =>
    if c =? DQUOTE then Ok ([], t)
    else if c =? BACKSLASH then
      match t with
      | [] => Raise (JSONDecodeError (lit "Unterminated string starting at"))
      | e :: t' =>
        if e =? ch "u" then
          match t' with
          | h1 :: h2 :: h3 :: h4 :: t4 =>
            match hex4 h1 h2 h3 h4 with
            | None => Raise (JSONDecodeError (lit "Invalid \uXXXX escape"))
            | Some uni =>
              match t4 with
              | b :: u :: g1 :: g2 :: g3 :: g4 :: t10 =>
                match surrogate_pair uni b u g1 g2 g3 g4 with
                | Some joined => cons_char joined (scanstring t10)
                | None => cons_char uni (scanstring t4)
                end
              | _ => cons_char uni (scanstring t4)
              end
            end
          | _ => Raise (JSONDecodeError (lit "Invalid \uXXXX escape"))
          end
        else
          match simple_escape e with
          | Some c' => cons_char c' (scanstring t')
          | None => Raise (JSONDecodeError (lit "Invalid \escape"))
          end
      end
    else if c <? 0x20 then
      Raise (JSONDecodeError (lit "Invalid control character at"))
    else cons_char c (scanstring t)
  end.

(** The longest prefix of digits, and the rest. *)
Definition digits (s : str) : str * str := break_at (fun c => negb (is_digit c)) s.

Definition int_of_digits (ds : str) : Z :=
  fold_left (fun acc d => (acc * 10 + Z.of_N (d - ch "0"))%Z) ds 0%Z.

(** The default limit of [int] on the digits of a decimal string. *)
Definition INT_MAX_STR_DIGITS : nat := 4300.

(** The parts of a number: an optional minus sign; 0, or a nonzero digit
    and more digits; a point with one digit or more; [e] or [E] with an
    optional sign and one digit or more.  Each gives the part and the rest;
    the fraction and the exponent are empty when they are not there. *)
Definition take_sign (s : str) : str * str :=
  match s with
  | c :: t => if c =? ch "-" then ([c], t) else ([], s)
  | [] => ([], s)
  end.

Definition take_int (s : str) : option (str * str) :=
  match s with
  | d :: t =>
    if is_digit d then
      if d =? ch "0" then Some ([d], t)
      else let '(ds, r) := digits t in Some (d :: ds, r)
    else None
  | [] => None
  end.

Definition take_frac (s : str) : str * str :=
  match s with
  | p :: f :: r =>
    if (p =? ch ".") && is_digit f
    then let '(ds, r') := digits r in (p :: f :: ds, r')
    else ([], s)
  | _ => ([], s)
  end.

Definition take_exp (s : str) : str * str :=
  match s with
  | e :: r =>
    if (e =? ch "e") || (e =? ch "E") then
      let '(esign, r1) :=
        match r with
        | sg :: r' =>
          if (sg =? ch "-") || (sg =? ch "+") then ([sg], r') else ([], r)
        | [] => ([], r)
        end in
      match digits r1 with
      | ([], _) => ([], s)
      | (ds, r2) => (e :: esign ++ ds, r2)
      end
    else ([], s)
  | [] => ([], s)
  end.

(** The number at the start of [s], if there is one.  With a fraction or
    an exponent it is a [float], else an [int]. *)
Definition match_number (s : str) : option (result value * str) :=
  let '(sign, s1) := take_sign s in
  match take_int s1 with
  | None => None
  | Some (int_digits, s2) =>
    let '(frac, s3) := take_frac s2 in
    let '(exp, s4) := take_exp s3 in
    match frac, exp with
    | [], [] =>
      if (INT_MAX_STR_DIGITS <? List.length int_digits)%nat
      then Some (Raise (ValueError
                   (lit "Exceeds the limit for integer string conversion")), s4)
      else
        let n := int_of_digits int_digits in
        Some (Ok (PyInt (match sign with [] => n | _ => (- n)%Z end)), s4)
    | _, _ => Some (Ok (PyFloat (sign ++ int_digits ++ frac ++ exp)), s4)
    end
  end.

(** [s] without the prefix [p], when it starts with it. *)
Fixpoint strip_prefix (p s : str) : option str :=
  match p, s with
  | [], _ => Some s
  | a :: p', b :: s' => if a =? b then strip_prefix p' s' else None
  | _ :: _, [] => None
  end.

Definition EXPECTING_VALUE : exn := JSONDecodeError (lit "Expecting value").

(** The words and numbers of [scan_once]: everything but strings, objects
    and arrays. *)
Definition scan_atom (s : str) : result (value * str) :=
  match strip_prefix (lit "null") s with
  | Some r => Ok (PyNone, r)
  | None =>
  match strip_prefix (lit "true") s with
  | Some r => Ok (PyBool true, r)
  | None =>
  match strip_prefix (lit "false") s with
  | Some r => Ok (PyBool false, r)
  | None =>
  match match_number s with
  | Some (v, r) => x <- v ;; Ok (x, r)
  | None =>
  match strip_prefix (lit "NaN") s with
  | Some r => Ok (PyFloat (lit "NaN"), r)
  | None =>
  match strip_prefix (lit "Infinity") s with
  | Some r => Ok (PyFloat (lit "Infinity"), r)
  | None =>
  match strip_prefix (lit "-Infinity") s with
  | Some r => Ok (PyFloat (lit "-Infinity"), r)
  | None => Raise EXPECTING_VALUE
  end end end end end end end.

(** [scan_once], [JSONObject] and [JSONArray] of the C scanner.

    At [{] and at [[] the scanner calls [Py_EnterRecursiveCall] before it
    reads further, and leaves the call when the object or the array is
    read: [room] is the number of such calls the interpreter's recursion
    limit still allows, one less inside an object or an array than around
    it, and with no room left the scanner raises [RecursionError].

    [fuel] is the measure of the recursion: each call spends one unit, and
    [json_loads] gives more than a text can use (the result is the same
    with any greater amount).  [parse_members] and [parse_elements] start
    at a key and at an element, with the pairs and items read so far. *)
Fixpoint scan_once (fuel room : nat) (s : str) {struct fuel}
  : result (value * str) :=
  match fuel with
  | O => Raise RecursionError
  | S fuel' =>
    match s with
    | [] => Raise EXPECTING_VALUE
    | c :: t =>
      if c =? DQUOTE then
        p <- scanstring t ;; Ok (PyStr (fst p), snd p)
      else if c =? ch "{" then
        match room with
        | O => Raise RecursionError
        | S room' =>
          match skip_ws t with
          | c' :: t' =>
            if c' =? ch "}" then Ok (PyDict [], t')
            else parse_members fuel' room' [] (c' :: t')
          | [] => parse_members fuel' room' [] []
          end
        end
      else if c =? ch "[" then
        match room with
        | O => Raise RecursionError
        | S room' =>
          match skip_ws t with
          | c' :: t' =>
            if c' =? ch "]" then Ok (PyList [], t')
            else parse_elements fuel' room' [] (c' :: t')
          | [] => parse_elements fuel' room' [] []
          end
        end
      else scan_atom s
    end
  end
with parse_members (fuel room : nat) (pairs : dict value) (s : str) {struct fuel}
  : result (value * str) :=
  match fuel with
  | O => Raise RecursionError
  | S fuel' =>
    match s with
    | [] => Raise (JSONDecodeError
                     (lit "Expecting property name enclosed in double quotes"))
    | q :: t =>
      if q =? DQUOTE then
        k <- scanstring t ;;
        match skip_ws (snd k) with
        | colon :: r1 =>
          if colon =? ch ":" then
            v <- scan_once fuel' room (skip_ws r1) ;;
            let pairs := dict_set pairs (fst k) (fst v) in
            match skip_ws (snd v) with
            | d :: r2 =>
              if d =? ch "}" then Ok (PyDict pairs, r2)
              else if d =? ch "," then parse_members fuel' room pairs (skip_ws r2)
              else Raise (JSONDecodeError (lit "Expecting ',' delimiter"))
            | [] => Raise (JSONDecodeError (lit "Expecting ',' delimiter"))
            end
          else Raise (JSONDecodeError (lit "Expecting ':' delimiter"))
        | [] => Raise (JSONDecodeError (lit "Expecting ':' delimiter"))
        end
      else Raise (JSONDecodeError
                    (lit "Expecting property name enclosed in double quotes"))
    end
  end
with parse_elements (fuel room : nat) (items : list value) (s : str)
    {struct fuel} : result (value * str) :=
  match fuel with
  | O => Raise RecursionError
  | S fuel' =>
    v <- scan_once fuel' room s ;;
    let items := items ++ [fst v] in
    match skip_ws (snd v) with
    | d :: r =>
      if d =? ch "]" then Ok (PyList items, r)
      else if d =? ch "," then parse_elements fuel' room items (skip_ws r)
      else Raise (JSONDecodeError (lit "Expecting ',' delimiter"))
    | [] => Raise (JSONDecodeError (lit "Expecting ',' delimiter"))
    end
  end.

(** [s.startswith(prefix)] *)
Definition startswith (prefix s : str) : bool :=
  match strip_prefix prefix s with
  | Some _ => true
  | None => false
  end.

(** [json.loads(s)] for a [str], called where the recursion limit leaves
    room for [depth_limit] arrays and objects, one inside the other. *)
Definition json_loads (depth_limit : nat) (s : str) : result value :=
  if startswith [0xFEFF] s
  then Raise (JSONDecodeError (lit "Unexpected UTF-8 BOM"))
  else
    p <- scan_once (2 * List.length s + 2)%nat depth_limit (skip_ws s) ;;
    match skip_ws (snd p) with
    | [] => Ok (fst p)
    | _ :: _ => Raise (JSONDecodeError (lit "Extra data"))
    end.

(* ================================================================= *)
(** ** [generate_3_tweets] *)

Definition NEWLINE : str := [0x0A].

Definition quoted (s : str) : str := DQUOTE :: s ++ [DQUOTE].

(** The f-string of the prompt, then [.strip()]. *)
Definition prompt (transcript : str) : str :=
  strip
    (join NEWLINE
       [ lit "";
         lit "Aşağıdaki YouTube transkriptinden videonun en önemli 3 konusunu çıkar.";
         lit "Her konu için Türkçe tek bir tweet yaz.";
         lit "";
         lit "Kurallar:";
         lit "- Tam olarak 3 tweet döndür.";
         lit "- Her tweet tek paragraf olsun.";
         lit "- Konular birbirinden farklı olsun.";
         lit "- Tweetlerde gereksiz emoji/hashtag kullanma.";
         lit "- Fazla genel konuşma: somut, videodaki ana iddiaları/başlıkları yakala.";
         lit "- Tweetleri bir haber kanalı üslubuyla oluştur.";
         lit "- Çıktıyı JSON olarak döndür: {" ++ quoted (lit "tweets") ++ lit ":["
           ++ quoted (lit "...") ++ lit "," ++ quoted (lit "...") ++ lit ","
           ++ quoted (lit "...") ++ lit "]}";
         lit "";
         lit "TRANSKRIPT:";
         transcript;
         lit "" ]).

(** [obj.get(key, default)]: only a [dict] has the method. *)
Definition get (obj : value) (key : str) (default : value) : result value :=
  match obj with
  | PyDict d =>
    Ok (match dict_get d key with Some v => v | None => default end)
  | _ => Raise (AttributeError (lit "object has no attribute 'get'"))
  end.

(** What a [for] loop over [v] visits: the items of a list, the
    one-character strings of a string, the keys of a dict; the other
    objects are not iterable. *)
Definition iter (v : value) : result (list value) :=
  match v with
  | PyList items => Ok items
  | PyStr s => Ok (map (fun c => PyStr [c]) s)
  | PyDict d => Ok (map PyStr (dict_keys d))
  | PyNone => Raise (TypeError (lit "'NoneType' object is not iterable"))
  | PyBool _ => Raise (TypeError (lit "'bool' object is not iterable"))
  | PyInt _ => Raise (TypeError (lit "'int' object is not iterable"))
  | PyFloat _ => Raise (TypeError (lit "'float' object is not iterable"))
  end.

(** The [try] block: [json.loads(text)] and [obj.get("tweets", [])], with
    the fallback of [except Exception]. *)
Definition load_tweets (depth_limit : nat) (text : str) : value :=
  match (obj <- json_loads depth_limit text ;;
         get obj (lit "tweets") (PyList [])) with
  | Ok tweets => tweets
  | Raise _ => PyList []
  end.

(** One step of the comprehension
    [[t.strip() for t in tweets if isinstance(t, str) and t.strip()]]. *)
Definition keep_tweet (t : value) : list str :=
  match t with
  | PyStr s =>
    match strip s with
    | [] => []
    | c :: r => [c :: r]
    end
  | _ => []
  end.

(** The part of [generate_3_tweets] after the call of the service. *)
Definition tweets_of_output (depth_limit : nat) (output_text : str)
  : result (list str) :=
  let text := strip output_text in
  let tweets := load_tweets depth_limit text in
  items <- iter tweets ;;
  Ok (firstn 3 (flat_map keep_tweet items)).

Section Summarizer.

(** The room the recursion limit leaves to [json.loads] where the
    function calls it. *)
Variable depth_limit : nat.

(** [OpenAI().responses.create(model=model, input=prompt).output_text] *)
Variable responses_create : str -> str -> result str.

Definition generate_3_tweets (transcript model : str) : result (list str) :=
  output_text <- responses_create model (prompt transcript) ;;
  tweets_of_output depth_limit output_text.

End Summarizer.

(* ================================================================= *)
(** ** The transcript preview of the page *)

(** The value given to [st.text_area]:
    [transcript[:2000] + ("..." if len(transcript) > 2000 else "")]. *)
Definition transcript_preview (transcript : str) : str :=
  firstn 2000 transcript
  ++ (if (2000 <? List.length transcript)%nat then lit "..." else lit "").

(* ================================================================= *)
(** * The words of the specification *)

(** ** Video identifiers *)

Definition ID_ALPHABET : str :=
  lit "ABCDEFGHIJKLMNOPQRSTUVWXYZabcdefghijklmnopqrstuvwxyz0123456789_-".

(** A string of exactly 11 characters of the alphabet. *)
Definition valid_id (s : str) : Prop :=
  List.length s = 11%nat /\ Forall (fun c => In c ID_ALPHABET) s.


(** ** The four recognized shapes of a reference

    They are read on the reference trimmed of surrounding whitespace. *)

Section Shapes.

Variable check_bracketed_netloc : str -> option str.
Variable nfkc_has_delimiter : str -> bool.

Let parse := urlparse check_bracketed_netloc nfkc_has_delimiter.

(** The two spellings of the short-link host. *)
Definition SHORT_LINK_HOSTS : list str := [lit "youtu.be"; lit "www.youtu.be"].

(** The first segment of a path. *)
Definition first_segment (p : str) : str :=
  hd [] (split (ch "/") (strip_chars (lit "/") p)).

(** The first value of the query parameter [v], or the empty string. *)
Definition query_v (q : str) : str :=
  match dict_get (parse_qs q) (lit "v") with
  | Some (v :: _) => v
  | _ => []
  end.

(** 1. A bare identifier. *)
Definition shape_bare_id (ref : str) : bool :=
  fullmatch ID_RE (strip ref).

(** 2. A URL whose host is a short-link domain and whose first path
    segment is an identifier. *)
Definition shape_short_link (ref : str) : bool :=
  match parse (strip ref) with
  | Ok u =>
    existsb (str_eqb (netloc u)) SHORT_LINK_HOSTS
    && fullmatch ID_RE (first_segment (path u))
  | Raise _ => false
  end.

(** 3. A URL whose path is exactly [/watch] and whose parameter [v] is an
    identifier. *)
Definition shape_watch (ref : str) : bool :=
  match parse (strip ref) with
  | Ok u => str_eqb (path u) (lit "/watch") && fullmatch ID_RE (query_v (query u))
  | Raise _ => false
  end.

(** 4. A URL whose path contains [/shorts/] followed by an identifier. *)
Definition shape_shorts (ref : str) : bool :=
  match parse (strip ref) with
  | Ok u => match search SHORTS_RE (path u) with Some _ => true | None => false end
  | Raise _ => false
  end.

Definition recognized (ref : str) : bool :=
  shape_bare_id ref || shape_short_link ref || shape_watch ref
  || shape_shorts ref.

End Shapes.

(** The two checks left to the runtime, when they accept everything. *)
Definition accept_bracketed : str -> option str := fun _ => None.
Definition no_nfkc_delimiter : str -> bool := fun _ => false.

(** ** The transcript *)

Definition nonempty (s : str) : bool :=
  match s with [] => false | _ :: _ => true end.

(** The trimmed texts of the fragments that have something left after
    trimming. *)
Definition nonblank_texts (snippets : list FetchedTranscriptSnippet) : list str :=
  filter nonempty (map (fun s => strip (text s)) snippets).

(** Those texts with exactly one space between each two of them. *)
Definition single_spaced (snippets : list FetchedTranscriptSnippet) : str :=
  join (lit " ") (nonblank_texts snippets).

(** No fragment is made of whitespace only. *)
Definition no_blank_fragment (snippets : list FetchedTranscriptSnippet) : Prop :=
  forall s, In s snippets -> text s <> [] -> strip (text s) <> [].

Definition snippet (t : str) : FetchedTranscriptSnippet := mkSnippet t 0 0.

(** A transcript provider that answers [snippets] whatever it is asked. *)
Definition providing (snippets : list FetchedTranscriptSnippet)
  : str -> list str -> result (list FetchedTranscriptSnippet) :=
  fun _ _ => Ok snippets.

(** ** The summarizer *)

(** A JSON text written with ['] in place of the double quote. *)
Definition json_text (s : string) : str :=
  map (fun c => if c =? ch "'" then DQUOTE else c) (lit s).
Arguments json_text s%_string.

(** An entry that is a string with something left after trimming. *)
Definition usable_entry (t : value) : bool :=
  match t with
  | PyStr s => nonempty (strip s)
  | _ => false
  end.

Definition trim_entry (t : value) : str :=
  match t with
  | PyStr s => strip s
  | _ => []
  end.

(** Drop the entries that are not usable, trim the others, keep the first
    three. *)
Definition first_3_usable (entries : list value) : list str :=
  firstn 3 (map trim_entry (filter usable_entry entries)).

(** [v] is an object with the key [k]. *)
Definition has_key (v : value) (k : str) : bool :=
  match v with
  | PyDict d => match dict_get d k with Some _ => true | None => false end
  | _ => false
  end.

(** A completion service that answers [body] whatever it is asked. *)
Definition answering (body : str) : str -> str -> result str :=
  fun _ _ => Ok body.

(** ** The share link *)

(** Text whose characters are Unicode scalar values: code points that are
    not surrogates. *)
Definition scalar_value (c : char) : bool :=
  (c <? 0x110000) && negb (is_surrogate c).

Definition valid_text (s : str) : Prop := Forall (fun c => scalar_value c = true) s.

(** The characters of a percent-encoded text: the unreserved characters,
    [/], and [%] before two hexadecimal digits. *)
Definition quoted_char (c : char) : bool := quote_safe c || (c =? ch "%").

(** ** The preview *)

Definition PREVIEW_LIMIT : nat := 2000.
Definition TRUNCATION_MARKER : str := lit "...".

(** ** Auxiliary notions of the proofs *)

(** A string is trimmed when neither its first nor its last character
    satisfies [p]. *)
Definition trimmed (p : char -> bool) (s : str) : Prop :=
  match s with [] => True | c :: _ => p c = false end
  /\ match rev s with [] => True | c :: _ => p c = false end.

(** What [quote_byte] writes for a byte, read back by
    [unquote_to_bytes]. *)
Definition quote_byte_ok (b : N) : bool :=
  match quote_byte b with
  | [c] => (c =? b) && negb (c =? ch "%") && quoted_char c && is_ascii c
  | [p; h1; h2] =>
    (p =? ch "%") && is_hexdig h1 && is_hexdig h2
    && (16 * hexval h1 + hexval h2 =? b)
    && quoted_char h1 && quoted_char h2 && is_ascii h1 && is_ascii h2
  | _ => false
  end.

(** The characters [quote] writes are ASCII, and none of them is a
    delimiter of a URL or of a query string, a blank or a control
    character. *)
Definition delimiter_free (c : char) : bool :=
  is_ascii c && negb (c <=? 0x20) && negb (char_in (lit "#?&=+;") c).


(** A text of the whitespace of JSON only. *)
Definition all_ws (t : str) : Prop := Forall (fun c => json_ws c = true) t.

(** A result that is an exception. *)
Definition fails {A} (r : result A) : Prop :=
  match r with
  | Raise _ => True
  | Ok _ => False
  end.

(** [s] and [s'] are one text before the whitespace [t] and [t']. *)
Definition swapped (t t' s s' : str) : Prop :=
  exists m, s = m ++ t /\ s' = m ++ t'.

(** Two optional results that agree up to the whitespace at the end. *)
Definition agree {A} (t t' : str) (x x' : option (A * str)) : Prop :=
  match x, x' with
  | Some (a, b), Some (a', b') => a = a' /\ swapped t t' b b'
  | None, None => True
  | _, _ => False
  end.

(** [r] is what is left of [s] after a text that ends with a character
    that [str.strip] keeps. *)
Inductive consumed : str -> str -> Prop :=
| consumed_last (z : char) (r : str) :
    isspace z = false -> consumed (z :: r) r
| consumed_cons (a : char) (s r : str) :
    consumed s r -> consumed (a :: s) r.

(** The characters a JSON value can start with. *)
Definition value_start (c : char) : bool :=
  char_in (lit "{[ntfNI-0123456789") c || (c =? DQUOTE).

(* ================================================================= *)
(** * Notions used by the further properties *)

(** A text of whitespace only, as [str.strip] sees it. *)
Definition blank (s : str) : Prop := Forall (fun c => isspace c = true) s.

(** The characters of a host name: letters, digits, [.] and [-]. *)
Definition host_char (c : char) : bool :=
  is_upper c || is_lower c || is_digit c || (c =? ch ".") || (c =? ch "-").

(** The printable ASCII characters other than the space and [#]. *)
Definition url_text (c : char) : bool :=
  (0x20 <? c) && (c <? 0x7F) && negb (c =? ch "#").

(** Those that can stand in a path: [?] and [;] end it. *)
Definition path_text (c : char) : bool :=
  url_text c && negb (c =? ch "?") && negb (c =? ch ";").

(** A path is empty or starts with [/]. *)
Definition rooted (p : str) : Prop :=
  match p with [] => True | c :: _ => c = ch "/" end.

(** What [parse_qsl] makes of one field of a query. *)
Definition parse_field (name_value : str) : list (str * str) :=
  match name_value with
  | [] => []
  | _ =>
    match split1 (ch "=") name_value with
    | (_, None) => []
    | (n, Some v) =>
      match v with
      | [] => []
      | _ => [(unquote (replace (ch "+") (lit " ") n),
               unquote (replace (ch "+") (lit " ") v))]
      end
    end
  end.

(** The JSON values a [for] loop cannot visit: [null], the booleans and
    the numbers. *)
Definition not_iterable (v : value) : bool :=
  match v with
  | PyNone | PyBool _ | PyInt _ | PyFloat _ => true
  | PyStr _ | PyList _ | PyDict _ => false
  end.

(** The instructions of the prompt, up to the line that announces the
    transcript. *)
Definition PROMPT_HEAD : str :=
  join NEWLINE
    [ lit "Aşağıdaki YouTube transkriptinden videonun en önemli 3 konusunu çıkar.";
      lit "Her konu için Türkçe tek bir tweet yaz.";
      lit "";
      lit "Kurallar:";
      lit "- Tam olarak 3 tweet döndür.";
      lit "- Her tweet tek paragraf olsun.";
      lit "- Konular birbirinden farklı olsun.";
      lit "- Tweetlerde gereksiz emoji/hashtag kullanma.";
      lit "- Fazla genel konuşma: somut, videodaki ana iddiaları/başlıkları yakala.";
      lit "- Tweetleri bir haber kanalı üslubuyla oluştur.";
      lit "- Çıktıyı JSON olarak döndür: {" ++ quoted (lit "tweets") ++ lit ":["
        ++ quoted (lit "...") ++ lit "," ++ quoted (lit "...") ++ lit ","
        ++ quoted (lit "...") ++ lit "]}";
      lit "";
      lit "TRANSKRIPT:" ].

(** The one-character strings of the characters of [s] that are not
    whitespace. *)
Definition visible_chars (s : str) : list str :=
  map (fun c => [c]) (filter (fun c => negb (isspace c)) s).

(** The characters of a share link: those of a percent-encoded text and
    the [:], [?] and [=] of the fixed part. *)
Definition link_char (c : char) : bool :=
  quoted_char c || char_in (lit ":?=") c.

(* ================================================================= *)
(** * The page

    The script of the page, from [st.set_page_config] to its last line.
    What the page shows is the list of its calls to Streamlit, in order,
    each with the arguments the program gives; the widgets that return a
    value ([st.text_input], [st.selectbox], [st.button]) have their value
    as an input of the run.

    Streamlit sends what it shows to the browser as UTF-8: a call that is
    given a text with a character that has no UTF-8 encoding (a lone
    surrogate) raises instead of showing anything.  The exception it
    raises is a parameter of the page. *)

(** A literal written with ['] in place of the double quote. *)
Definition dq (s : string) : str :=
  map (fun c => if c =? ch "'" then DQUOTE else c) (lit s).
Arguments dq s%_string.

(** [str(i)] for an [int] that is not negative. *)
Fixpoint decimal_from (fuel : nat) (i : N) (acc : str) : str :=
  match fuel with
  | O => acc
  | S fuel' =>
    let acc' := (ch "0" + i mod 10) :: acc in
    if i <? 10 then acc' else decimal_from fuel' (i / 10) acc'
  end.

Definition decimal (i : N) : str := decimal_from (S (N.to_nat i)) i [].

(** The calls that show something.  The widths of [st.columns] are kept
    as they are written; an element shown inside [with column:] is
    [within] that column. *)
Inductive element : Type :=
| st_set_page_config (page_title layout : str)
| st_title (body : str)
| st_write (body : str)
| st_text_input (label placeholder : str)
| st_selectbox (label : str) (options : list str) (index : nat)
| st_button (label type : str)
| st_error (body : str)
| st_spinner (text : str)
| st_subheader (body : str)
| st_text_area (label value : str) (height : N)
| st_warning (body : str)
| st_code (body : list str + str) (language : str)
| st_columns (spec : list str) (vertical_alignment : str)
| st_markdown (body : str) (unsafe_allow_html : bool)
| st_divider
| within (column : nat) (e : element).

(** How a run ends before the last line: [st.stop()], or an exception
    that nothing catches. *)
Inductive halt : Type :=
| Stop
| Uncaught (e : exn).

(** The texts a call gives to Streamlit.  A list given to [st.code] is
    shown as the text of its [repr], in which a character that cannot be
    encoded is written as an escape: it brings no text of its own. *)
Fixpoint texts (e : element) : list str :=
  match e with
  | st_set_page_config page_title layout => [page_title; layout]
  | st_title body | st_write body | st_error body | st_spinner body
  | st_subheader body | st_warning body => [body]
  | st_text_input label placeholder => [label; placeholder]
  | st_selectbox label options _ => label :: options
  | st_button label type => [label; type]
  | st_text_area label value _ => [label; value]
  | st_code (inl _) language => [language]
  | st_code (inr body) language => [body; language]
  | st_columns _ vertical_alignment => [vertical_alignment]
  | st_markdown body _ => [body]
  | st_divider => []
  | within _ e' => texts e'
  end.

(** A text that has a UTF-8 encoding: its characters are Unicode scalar
    values. *)
Definition encodable (s : str) : bool := forallb scalar_value s.

(** A call Streamlit carries out. *)
Definition accepted (e : element) : bool := forallb encodable (texts e).

(** A piece of the script: what it shows, and its value or the way it
    ends the run. *)
Definition script (A : Type) : Type := list element * (A + halt).

Definition ret {A} (a : A) : script A := ([], inl a).

Definition and_then {A B} (m : script A) (k : A -> script B) : script B :=
  match m with
  | (shown, inl a) => let '(shown', r) := k a in (shown ++ shown', r)
  | (shown, inr h) => (shown, inr h)
  end.

Notation "x <~ m ;; k" := (and_then m (fun x => k))
  (at level 61, m at next level, right associativity).
Notation "m ;;; k" := (and_then m (fun _ => k))
  (at level 61, right associativity).

Definition st_stop {A} : script A := ([], inr Stop).

(** A call outside any [try]: its exception ends the run. *)
Definition call {A} (r : result A) : script A :=
  match r with
  | Ok a => ret a
  | Raise e => ([], inr (Uncaught e))
  end.

(** [try: x = r  except Exception as e: handler]; every class of [exn]
    derives from [Exception]. *)
Definition try_except {A} (r : result A) (handler : exn -> script A) : script A :=
  match r with
  | Ok a => ret a
  | Raise e => handler e
  end.

(** [with column:] around a piece of the script. *)
Definition inside {A} (column : nat) (m : script A) : script A :=
  (map (within column) (fst m), snd m).

Definition NO_KEY_MESSAGE : str :=
  lit "OPENAI_API_KEY env değişkeni yok. Önce ayarla.".

Definition TRANSCRIPT_ERROR_PREFIX : str := lit "Transkript alınamadı: ".

Definition FEW_TWEETS_WARNING : str :=
  lit "Model beklenen JSON formatında dönmedi veya içerik eksik. Tekrar deneyebilirsin.".

Definition MODEL_OPTIONS : list str :=
  [lit "gpt-4.1-mini"; lit "gpt-4.1"; lit "gpt-5-mini"; lit "gpt-5"].

(** The f-string of the share button, around the link. *)
Definition share_button (link : str) : str :=
  join NEWLINE
    [ lit "";
      dq "                    <a href='" ++ link ++ dq "' target='_blank'";
      dq "                       style='text-decoration:none;font-size:26px;line-height:1;'>";
      lit "                        𝕏";
      lit "                    </a>";
      lit "                    " ].

(** The f-string of the heading of the [i]-th tweet. *)
Definition tweet_heading (i : N) : str :=
  lit "**Tweet " ++ decimal i ++ lit "**".

(** [tweets or "Boş çıktı"] *)
Definition tweets_or_empty_notice (tweets : list str) : list str + str :=
  match tweets with
  | [] => inr (lit "Boş çıktı")
  | _ => inl tweets
  end.

(** [not os.getenv(name)]: the variable is unset or empty. *)
Definition not_set (value : option str) : bool :=
  match value with
  | None | Some [] => true
  | Some (_ :: _) => false
  end.

(** The calls above the button, which every run makes. *)
Definition page_head : list element :=
  [ st_set_page_config (lit "YouTube → 3 Tweet") (lit "centered");
    st_title (lit "YouTube videosu → 3 tweet");
    st_write (lit "YouTube linkini gir, transkripti alıp videonun en önemli konularından 3 tweet üretelim.");
    st_text_input (lit "YouTube linki (veya video id)")
      (lit "https://www.youtube.com/watch?v=...");
    st_selectbox (lit "Model") MODEL_OPTIONS 0;
    st_button (lit "Tweet üret") (lit "primary") ].

Section Page.

Variable check_bracketed_netloc : str -> option str.
Variable nfkc_has_delimiter : str -> bool.
Variable ytt_fetch : str -> list str -> result (list FetchedTranscriptSnippet).
Variable depth_limit : nat.
Variable responses_create : str -> str -> result str.

(** [str(e)] *)
Variable exception_str : exn -> str.

(** What a call of Streamlit raises when it is given a text that cannot
    be encoded. *)
Variable streamlit_error : element -> exn.

(** One call of Streamlit: the element is shown, or the call raises and
    nothing around it catches the exception. *)
Definition show (e : element) : script unit :=
  if accepted e then ([e], inl tt)
  else ([], inr (Uncaught (streamlit_error e))).

(** Calls one after the other. *)
Fixpoint show_all (es : list element) : script unit :=
  match es with
  | [] => ret tt
  | e :: rest => show e ;;; show_all rest
  end.

(** The body of the loop [for i, t in enumerate(tweets, 1)], for the
    tweets from the [i]-th on. *)
Fixpoint show_tweets (i : N) (tweets : list str) : script unit :=
  match tweets with
  | [] => ret tt
  | t :: rest =>
    show (st_columns [lit "0.88"; lit "0.12"] (lit "top")) ;;;
    inside 0 (show (st_markdown (tweet_heading i) false) ;;;
              show (st_write t)) ;;;
    inside 1 (link <~ call (x_intent_url t) ;;
              show (st_markdown (share_button link) true)) ;;;
    show st_divider ;;;
    show_tweets (i + 1) rest
  end.

(** The block under [if st.button(...)]. *)
Definition on_click (OPENAI_API_KEY : option str) (url model : str)
  : script unit :=
  (if not_set OPENAI_API_KEY
   then show (st_error NO_KEY_MESSAGE) ;;; st_stop
   else ret tt) ;;;
  video_id <~ try_except
                (extract_video_id check_bracketed_netloc nfkc_has_delimiter url)
                (fun e => show (st_error (exception_str e)) ;;; st_stop) ;;
  show (st_spinner (lit "Transkript çekiliyor...")) ;;;
  transcript <~ try_except
                  (fetch_transcript_text ytt_fetch video_id)
                  (fun e =>
                     show (st_error (TRANSCRIPT_ERROR_PREFIX ++ exception_str e)) ;;;
                     st_stop) ;;
  show (st_subheader (lit "Transkript (önizleme)")) ;;;
  show (st_text_area (lit " ") (transcript_preview transcript) 180) ;;;
  show (st_spinner (lit "Tweetler üretiliyor...")) ;;;
  tweets <~ call (generate_3_tweets depth_limit responses_create transcript model) ;;
  show (st_subheader (lit "Tweetler")) ;;;
  if (List.length tweets <? 3)%nat then
    show (st_warning FEW_TWEETS_WARNING) ;;;
    show (st_code (tweets_or_empty_notice tweets) (lit "text"))
  else show_tweets 1 tweets.

(** The part of the block from [st.subheader("Tweetler")] on, and the
    part from the preview on, for a transcript. *)
Definition tweets_part (transcript model : str) : script unit :=
  tweets <~ call (generate_3_tweets depth_limit responses_create transcript model) ;;
  show (st_subheader (lit "Tweetler")) ;;;
  if (List.length tweets <? 3)%nat then
    show (st_warning FEW_TWEETS_WARNING) ;;;
    show (st_code (tweets_or_empty_notice tweets) (lit "text"))
  else show_tweets 1 tweets.

Definition preview_part (transcript model : str) : script unit :=
  show (st_subheader (lit "Transkript (önizleme)")) ;;;
  show (st_text_area (lit " ") (transcript_preview transcript) 180) ;;;
  show (st_spinner (lit "Tweetler üretiliyor...")) ;;;
  tweets_part transcript model.

(** One run of the script: [url] and [model] are what the two widgets
    return, [clicked] what the button returns. *)
Definition main (OPENAI_API_KEY : option str) (url model : str) (clicked : bool)
  : script unit :=
  show_all page_head ;;;
  if clicked then on_click OPENAI_API_KEY url model else ret tt.

End Page.

(** What the loop shows for the [i]-th tweet, once its link is built. *)
Definition tweet_block (i : N) (t link : str) : list element :=
  [ st_columns [lit "0.88"; lit "0.12"] (lit "top");
    within 0 (st_markdown (tweet_heading i) false);
    within 0 (st_write t);
    within 1 (st_markdown (share_button link) true);
    st_divider ].

(** What it shows for the tweets from the [i]-th on, each with its
    link. *)
Fixpoint tweet_blocks (i : N) (tweets links : list str) : list element :=
  match tweets, links with
  | t :: tweets', link :: links' =>
    tweet_block i t link ++ tweet_blocks (i + 1) tweets' links'
  | _, _ => []
  end.

(** What the page shows between the click and the call of the
    summarizer, for a transcript. *)
Definition transcript_shown (transcript : str) : list element :=
  [ st_spinner (lit "Transkript çekiliyor...");
    st_subheader (lit "Transkript (önizleme)");
    st_text_area (lit " ") (transcript_preview transcript) 180;
    st_spinner (lit "Tweetler üretiliyor...") ].

Definition is_text_area (e : element) : bool :=
  match e with
  | st_text_area _ _ _ => true
  | _ => false
  end.

(** [shown] is the preview of [transcript]: its first 2000 characters,
    with the marker after them when it has more, and the transcript
    itself when it has not. *)
Definition preview_of (transcript shown : str) : Prop :=
  ((PREVIEW_LIMIT < List.length transcript)%nat ->
     shown = firstn PREVIEW_LIMIT transcript ++ TRUNCATION_MARKER)
  /\ ((List.length transcript <= PREVIEW_LIMIT)%nat -> shown = transcript).

(** An instance of [str(e)]: the message the exception was built
    with. *)
Definition message_of (e : exn) : str :=
  match e with
  | ValueError msg | JSONDecodeError msg | TypeError msg
  | AttributeError msg | ServiceError msg => msg
  | UnicodeEncodeError _ | RecursionError => []
  end.

(** Another: the message has a character that cannot be encoded. *)
Definition garbled_message_of (e : exn) : str := message_of e ++ [0xDC00].

(** An instance of the exception of Streamlit: the [UnicodeEncodeError]
    of the first text of the call that cannot be encoded. *)
Definition encode_error (e : element) : exn :=
  match find (fun s => negb (encodable s)) (texts e) with
  | Some s =>
    match utf8_encode s with
    | Raise x => x
    | Ok _ => UnicodeEncodeError 0
    end
  | None => UnicodeEncodeError 0
  end.

(** A transcript provider that raises [e] whatever it is asked. *)
Definition failing (e : exn)
  : str -> list str -> result (list FetchedTranscriptSnippet) :=
  fun _ _ => Raise e.

(** A piece of the script after elements already shown. *)
Definition after {A} (shown : list element) (m : script A) : script A :=
  (shown ++ fst m, snd m).

(** A completion service that raises [e] whatever it is asked. *)
Definition refusing (e : exn) : str -> str -> result str :=
  fun _ _ => Raise e.

(* ================================================================= *)
(** * Properties *)

(** ** Strings *)

Lemma str_eqb_eq (a b : str) : str_eqb a b = true <-> a = b.
Proof.
  unfold str_eqb. destruct (list_eq_dec N.eq_dec a b); split; congruence.
Qed.

Lemma lstrip_by_head (p : char -> bool) (s : str) :
  match s with [] => True | c :: _ => p c = false end ->
  lstrip_by p s = s.
Proof.
  destruct s as [|c t]; simpl; [reflexivity|]. intros ->. reflexivity.
Qed.

Lemma lstrip_by_none (p : char -> bool) (s : str) :
  forallb (fun c => negb (p c)) s = true -> lstrip_by p s = s.
Proof.
  intros H. apply lstrip_by_head. destruct s as [|c t]; [exact I|].
  simpl in H. apply andb_true_iff in H. destruct H as [H _].
  now apply negb_true_iff in H.
Qed.

Lemma strip_by_none (p : char -> bool) (s : str) :
  forallb (fun c => negb (p c)) s = true -> strip_by p s = s.
Proof.
  intros H. unfold strip_by, rstrip_by.
  rewrite (lstrip_by_none p s H).
  rewrite lstrip_by_none.
  - apply rev_involutive.
  - rewrite forallb_forall in *. intros c Hc. apply H. now apply in_rev.
Qed.

(** ** Patterns *)

(** A match of a pattern is a prefix whose characters satisfy the items of
    the pattern, one for one. *)
Lemma match_at_sound (p : pattern) :
  forall s m r, match_at p s = Some (m, r) ->
    s = m ++ r /\ Forall2 (fun item c => item c = true) p m.
Proof.
  induction p as [|item p IH]; intros s m r H; simpl in H.
  - inversion H; subst. split; [reflexivity | constructor].
  - destruct s as [|c t]; [discriminate|].
    destruct (item c) eqn:Hc; [|discriminate].
    destruct (match_at p t) as [[m' r']|] eqn:Hm; [|discriminate].
    inversion H; subst. destruct (IH _ _ _ Hm) as [-> HF].
    split; [reflexivity | now constructor].
Qed.

Lemma match_at_complete (p : pattern) :
  forall m r, Forall2 (fun item c => item c = true) p m ->
    match_at p (m ++ r) = Some (m, r).
Proof.
  induction p as [|item p IH]; intros m r H; inversion H; subst; simpl.
  - reflexivity.
  - rewrite H2. now rewrite IH.
Qed.

Lemma Forall2_repeat_l {A B} (R : A -> B -> Prop) (a : A) (n : nat) (l : list B) :
  Forall2 R (repeat a n) l <-> List.length l = n /\ Forall (R a) l.
Proof.
  revert l. induction n as [|n IH]; intros l; simpl; split.
  - intros H. inversion H. split; [reflexivity | constructor].
  - intros [H _]. destruct l; [constructor | discriminate].
  - intros H. inversion H; subst. apply IH in H4. destruct H4 as [Hl HF].
    split; [simpl; now f_equal | now constructor].
  - intros [Hl HF]. destruct l as [|b l]; [discriminate|].
    inversion HF; subst. constructor; [assumption|].
    apply IH. split; [now inversion Hl | assumption].
Qed.

Lemma Forall2_literal (s m : str) :
  Forall2 (fun item c => item c = true) (literal s) m -> m = s.
Proof.
  revert m. induction s as [|c s IH]; intros m H; inversion H; subst.
  - reflexivity.
  - apply N.eqb_eq in H2. subst. f_equal. now apply IH.
Qed.

Lemma search_sound (p : pattern) :
  forall s m, search p s = Some m ->
    (exists pre post, s = pre ++ m ++ post)
    /\ Forall2 (fun item c => item c = true) p m.
Proof.
  induction s as [|c t IH]; intros m H; simpl in H.
  - destruct (match_at p []) as [[m' r]|] eqn:Hm; [|discriminate].
    inversion H; subst. apply match_at_sound in Hm. destruct Hm as [E HF].
    split; [exists [], r; exact E | exact HF].
  - destruct (match_at p (c :: t)) as [[m' r]|] eqn:Hm.
    + inversion H; subst. apply match_at_sound in Hm. destruct Hm as [E HF].
      split; [exists [], r; exact E | exact HF].
    + destruct (IH _ H) as [[pre [post E]] HF].
      split; [exists (c :: pre), post; simpl; now rewrite E | exact HF].
Qed.

Lemma search_complete (p : pattern) (pre m post : str) :
  Forall2 (fun item c => item c = true) p m ->
  search p (pre ++ m ++ post) <> None.
Proof.
  intros HF. induction pre as [|c pre IH]; simpl.
  - destruct (m ++ post) as [|c t] eqn:E; simpl;
      rewrite <- E, (match_at_complete _ _ post HF); discriminate.
  - destruct (match_at p (c :: pre ++ m ++ post)) as [[m' r]|];
      [discriminate | exact IH].
Qed.

(** ** Video identifiers *)

Lemma char_in_In (s : str) (c : char) : char_in s c = true <-> In c s.
Proof.
  unfold char_in. rewrite existsb_exists. split.
  - intros [x [Hx E]]. apply N.eqb_eq in E. now subst.
  - intros H. exists c. split; [assumption | apply N.eqb_refl].
Qed.

(** A property of the ASCII characters is checked by running through
    them. *)
Lemma ascii_check (P : char -> bool) :
  forallb (fun n => P (N.of_nat n)) (seq 0 128) = true ->
  forall c, c < 128 -> P c = true.
Proof.
  intros H c Hc. rewrite forallb_forall in H.
  rewrite <- (N2Nat.id c). apply H. apply in_seq. lia.
Qed.

Lemma ID_ALPHABET_ascii (c : char) : In c ID_ALPHABET -> c < 128.
Proof.
  intros H.
  assert (F : forallb (fun x => x <? 128) ID_ALPHABET = true)
    by (vm_compute; reflexivity).
  rewrite forallb_forall in F. apply N.ltb_lt. now apply F.
Qed.

Lemma id_char_ascii (c : char) : id_char c = true -> c < 128.
Proof.
  unfold id_char, is_upper, is_lower, is_digit, ch. simpl. intros H.
  repeat (apply orb_true_iff in H; destruct H as [H|H]);
    try (apply andb_true_iff in H; destruct H as [_ H]; apply N.leb_le in H);
    try apply N.eqb_eq in H; lia.
Qed.

(** The class of the pattern is the alphabet. *)
Lemma id_char_alphabet (c : char) : id_char c = true <-> In c ID_ALPHABET.
Proof.
  rewrite <- char_in_In.
  destruct (N.ltb_spec c 128) as [Hlt|Hge].
  - assert (E : Bool.eqb (id_char c) (char_in ID_ALPHABET c) = true).
    { revert c Hlt. apply ascii_check. vm_compute. reflexivity. }
    apply eqb_prop in E. now rewrite E.
  - split; intros H; exfalso.
    + apply id_char_ascii in H. lia.
    + apply char_in_In, ID_ALPHABET_ascii in H. lia.
Qed.

Lemma Forall2_ID_RE (m : str) :
  Forall2 (fun item c => item c = true) ID_RE m <-> valid_id m.
Proof.
  unfold ID_RE, valid_id. rewrite Forall2_repeat_l.
  split; intros [Hl HF]; (split; [assumption|]);
    eapply Forall_impl; try eassumption; intros c; apply id_char_alphabet.
Qed.

(** [re.fullmatch(r"[A-Za-z0-9_-]{11}", s)] succeeds exactly on the valid
    identifiers. *)
Lemma fullmatch_ID_RE (s : str) : fullmatch ID_RE s = true <-> valid_id s.
Proof.
  unfold fullmatch. split.
  - destruct (match_at ID_RE s) as [[m r]|] eqn:Hm; [|discriminate].
    destruct r; [|discriminate]. intros _.
    apply match_at_sound in Hm. destruct Hm as [-> HF].
    rewrite app_nil_r. now apply Forall2_ID_RE.
  - intros H. apply Forall2_ID_RE in H.
    rewrite <- (app_nil_r s) at 1. now rewrite (match_at_complete _ _ [] H).
Qed.

(** A match of the shorts pattern is the literal followed by a valid
    identifier, which is group 1. *)
Lemma search_SHORTS_RE (s m : str) :
  search SHORTS_RE s = Some m ->
  m = lit "/shorts/" ++ SHORTS_group1 m /\ valid_id (SHORTS_group1 m).
Proof.
  intros H. apply search_sound in H. destruct H as [_ HF].
  unfold SHORTS_RE in HF. apply Forall2_app_inv_l in HF.
  destruct HF as [m1 [m2 [H1 [H2 ->]]]].
  apply Forall2_literal in H1. subst m1.
  apply Forall2_ID_RE in H2. unfold SHORTS_group1.
  change (skipn 8 (lit "/shorts/" ++ m2)) with m2. now split.
Qed.

(** The shorts pattern is found exactly in the texts that contain
    [/shorts/] followed by a valid identifier. *)
Lemma search_SHORTS_RE_iff (s : str) :
  search SHORTS_RE s <> None
  <-> exists pre id post, s = pre ++ lit "/shorts/" ++ id ++ post /\ valid_id id.
Proof.
  split.
  - destruct (search SHORTS_RE s) as [m|] eqn:E; [|congruence]. intros _.
    destruct (search_sound _ _ _ E) as [[pre [post Es]] _].
    apply search_SHORTS_RE in E. destruct E as [Em Hid].
    exists pre, (SHORTS_group1 m), post. split; [|exact Hid].
    rewrite Es. rewrite Em at 1. now rewrite <- app_assoc.
  - intros [pre [id [post [-> Hid]]]].
    rewrite (app_assoc (lit "/shorts/") id post).
    apply search_complete. unfold SHORTS_RE. apply Forall2_app.
    + unfold literal. induction (lit "/shorts/") as [|c l IH]; simpl;
        constructor; [apply N.eqb_refl | exact IH].
    + now apply Forall2_ID_RE.
Qed.

Lemma id_char_not_space (c : char) : id_char c = true -> isspace c = false.
Proof.
  intros H.
  assert (E : implb (id_char c) (negb (isspace c)) = true).
  { apply id_char_ascii in H. revert c H. apply ascii_check.
    vm_compute. reflexivity. }
  rewrite H in E. simpl in E. now apply negb_true_iff.
Qed.

(** [str.strip()] leaves a valid identifier as it is. *)
Lemma strip_valid_id (s : str) : valid_id s -> strip s = s.
Proof.
  intros [_ HF]. apply strip_by_none. apply forallb_forall. intros c Hc.
  rewrite Forall_forall in HF. apply negb_true_iff, id_char_not_space.
  apply id_char_alphabet. now apply HF.
Qed.

(* ================================================================= *)
(** ** The identifier extractor *)

Section ExtractorProperties.

Variable check_bracketed_netloc : str -> option str.
Variable nfkc_has_delimiter : str -> bool.

Let extract := extract_video_id check_bracketed_netloc nfkc_has_delimiter.
Let parse := urlparse check_bracketed_netloc nfkc_has_delimiter.

(** The parser raises nothing but [ValueError]. *)
Lemma split_netloc_raises_ValueError (url : str) (e : exn) :
  split_netloc check_bracketed_netloc url = Raise e ->
  exists msg, e = ValueError msg.
Proof.
  unfold split_netloc.
  destruct url as [|c1 [|c2 url2]]; try discriminate.
  destruct (_ && _); [|discriminate].
  destruct (break_at _ url2) as [nl rest].
  destruct (_ || _); [intros H; inversion H; eauto|].
  destruct (_ && _); [|discriminate].
  destruct (check_bracketed_netloc nl); [|discriminate].
  intros H; inversion H; eauto.
Qed.

Lemma _checknetloc_raises_ValueError (nl : str) (e : exn) :
  _checknetloc nfkc_has_delimiter nl = Raise e ->
  exists msg, e = ValueError msg.
Proof.
  unfold _checknetloc. destruct nl; [discriminate|].
  destruct (forallb _ _); [discriminate|].
  destruct (nfkc_has_delimiter _); [|discriminate].
  intros H; inversion H; eauto.
Qed.

Lemma urlsplit_raises_ValueError (url : str) (e : exn) :
  urlsplit check_bracketed_netloc nfkc_has_delimiter url = Raise e ->
  exists msg, e = ValueError msg.
Proof.
  unfold urlsplit, bind.
  destruct (split_scheme _) as [sch u1].
  destruct (split_netloc _ u1) as [[nl u2]|e1] eqn:Hn.
  - destruct (split_at _ u2) as [u3 frag].
    destruct (split_at _ u3) as [u4 qry].
    destruct (_checknetloc _ nl) eqn:Hc; [discriminate|].
    intros H; inversion H; subst.
    eapply _checknetloc_raises_ValueError; eauto.
  - intros H; inversion H; subst.
    eapply split_netloc_raises_ValueError; eauto.
Qed.

Lemma urlparse_raises_ValueError (url : str) (e : exn) :
  parse url = Raise e -> exists msg, e = ValueError msg.
Proof.
  unfold parse, urlparse, bind.
  destruct (urlsplit _ _ url) eqn:Hs.
  - destruct (_ && _); [destruct (_splitparams _)|]; discriminate.
  - intros H. inversion H; subst. eapply urlsplit_raises_ValueError; eauto.
Qed.

(** C1.  Every string [extract_video_id] returns is exactly 11 characters
    long, each of the alphabet A-Z a-z 0-9 _ -. *)
Theorem extract_video_id_returns_valid_id (url vid : str) :
  extract url = Ok vid -> valid_id vid.
Proof.
  unfold extract, extract_video_id, bind.
  destruct (fullmatch ID_RE (strip url)) eqn:Hbare.
  { intros H. inversion H; subst. now apply fullmatch_ID_RE. }
  destruct (urlparse _ _ (strip url)) as [u|e]; [|discriminate].
  destruct (existsb _ _ && fullmatch ID_RE _) eqn:Hshort.
  { intros H. inversion H; subst.
    apply andb_true_iff in Hshort. now apply fullmatch_ID_RE. }
  destruct (str_eqb (path u) _ && fullmatch ID_RE _) eqn:Hwatch.
  { intros H. inversion H; subst.
    apply andb_true_iff in Hwatch. now apply fullmatch_ID_RE. }
  destruct (search SHORTS_RE (path u)) as [m|] eqn:Hm; [|discriminate].
  intros H. inversion H; subst. now apply search_SHORTS_RE in Hm.
Qed.

(** C2.  On a string of exactly 11 characters of the alphabet,
    [extract_video_id] returns the string itself. *)
Theorem extract_video_id_bare_id (s : str) :
  valid_id s -> extract s = Ok s.
Proof.
  intros H. unfold extract, extract_video_id.
  rewrite (strip_valid_id s H).
  apply fullmatch_ID_RE in H. now rewrite H.
Qed.

(** The three URLs of the specification. *)
Lemma extract_video_id_url_examples :
  extract (lit "https://youtu.be/dQw4w9WgXcQ") = Ok (lit "dQw4w9WgXcQ")
  /\ extract (lit "https://www.youtube.com/watch?v=dQw4w9WgXcQ&t=10s")
     = Ok (lit "dQw4w9WgXcQ")
  /\ extract (lit "https://www.youtube.com/shorts/dQw4w9WgXcQ")
     = Ok (lit "dQw4w9WgXcQ").
Proof. repeat split; vm_compute; reflexivity. Qed.

(** The four shapes, in the words of the specification. *)
Lemma shape_bare_id_spec (ref : str) :
  shape_bare_id ref = true <-> valid_id (strip ref).
Proof. apply fullmatch_ID_RE. Qed.

Lemma shape_short_link_spec (ref : str) :
  shape_short_link check_bracketed_netloc nfkc_has_delimiter ref = true
  <-> exists u, parse (strip ref) = Ok u
                /\ (netloc u = lit "youtu.be" \/ netloc u = lit "www.youtu.be")
                /\ valid_id (first_segment (path u)).
Proof.
  unfold shape_short_link, parse, SHORT_LINK_HOSTS.
  destruct (urlparse _ _ (strip ref)) as [u|e].
  - cbn [existsb]. rewrite orb_false_r, andb_true_iff, orb_true_iff.
    rewrite !str_eqb_eq, fullmatch_ID_RE. split.
    + intros [Hn Hv]. exists u. split; [reflexivity | split; assumption].
    + intros [u' [[= <-] [Hn Hv]]]. split; assumption.
  - split; [discriminate | intros [u [? _]]; discriminate].
Qed.

Lemma shape_watch_spec (ref : str) :
  shape_watch check_bracketed_netloc nfkc_has_delimiter ref = true
  <-> exists u, parse (strip ref) = Ok u
                /\ path u = lit "/watch"
                /\ valid_id (query_v (query u)).
Proof.
  unfold shape_watch, parse.
  destruct (urlparse _ _ (strip ref)) as [u|e].
  - rewrite andb_true_iff, str_eqb_eq, fullmatch_ID_RE. split.
    + intros [Hp Hv]. exists u. split; [reflexivity | split; assumption].
    + intros [u' [[= <-] [Hp Hv]]]. split; assumption.
  - split; [discriminate | intros [u [? _]]; discriminate].
Qed.

Lemma shape_shorts_spec (ref : str) :
  shape_shorts check_bracketed_netloc nfkc_has_delimiter ref = true
  <-> exists u pre id post,
        parse (strip ref) = Ok u
        /\ path u = pre ++ lit "/shorts/" ++ id ++ post
        /\ valid_id id.
Proof.
  unfold shape_shorts, parse.
  destruct (urlparse _ _ (strip ref)) as [u|e].
  - pose proof (search_SHORTS_RE_iff (path u)) as H.
    destruct (search SHORTS_RE (path u)) as [m|]; split.
    + intros _. destruct (proj1 H ltac:(discriminate)) as [pre [id [post [E V]]]].
      exists u, pre, id, post. split; [reflexivity | split; assumption].
    + reflexivity.
    + discriminate.
    + intros [u' [pre [id [post [[= <-] [E V]]]]]].
      exfalso. apply (proj2 H); [|reflexivity]. exists pre, id, post. now split.
  - split; [discriminate | intros [u [? [? [? [? _]]]]]; discriminate].
Qed.

Lemma watch_vid_query_v (q : str) :
  hd [] (match dict_get (parse_qs q) (lit "v") with
         | Some (v :: vs) => v :: vs
         | _ => [[]]
         end) = query_v q.
Proof.
  unfold query_v. destruct (dict_get _ _) as [[|v vs]|]; reflexivity.
Qed.

(** The extractor returns a value exactly on the recognized shapes. *)
Lemma extract_video_id_Ok_iff (ref : str) :
  (exists vid, extract ref = Ok vid)
  <-> recognized check_bracketed_netloc nfkc_has_delimiter ref = true.
Proof.
  unfold recognized, shape_bare_id, shape_short_link, shape_watch,
    shape_shorts, extract, extract_video_id, bind.
  destruct (fullmatch ID_RE (strip ref)).
  { split; [reflexivity | intros _; eexists; reflexivity]. }
  destruct (urlparse _ _ (strip ref)) as [u|e].
  2: { split; [intros [? ?]|]; discriminate. }
  rewrite watch_vid_query_v. unfold first_segment, SHORT_LINK_HOSTS.
  repeat match goal with
         | |- context [if ?c then _ else _] => destruct c
         end;
    cbn [orb];
    try (split; [reflexivity | intros _; eexists; reflexivity]).
  split; [intros [? ?]|]; discriminate.
Qed.

(** C4.  A reference that matches none of the four recognized shapes makes
    [extract_video_id] raise [ValueError] (the program's invalid-reference
    error); "not a url" is such a reference. *)
Theorem extract_video_id_rejects_unrecognized :
  (forall ref,
      recognized check_bracketed_netloc nfkc_has_delimiter ref = false ->
      exists msg, extract ref = Raise (ValueError msg))
  /\ recognized check_bracketed_netloc nfkc_has_delimiter (lit "not a url") = false
  /\ extract (lit "not a url") = Raise EXTRACT_ERROR.
Proof.
  split; [|split; vm_compute; reflexivity].
  intros ref Hrec.
  destruct (extract ref) as [vid|e] eqn:He.
  - assert (Hex : exists vid, extract ref = Ok vid) by eauto.
    apply extract_video_id_Ok_iff in Hex. congruence.
  - revert He. unfold extract, extract_video_id, bind.
    destruct (fullmatch ID_RE (strip ref)); [discriminate|].
    destruct (urlparse _ _ (strip ref)) as [u|e'] eqn:Hp.
    + destruct (_ && _); [discriminate|].
      destruct (_ && _); [discriminate|].
      destruct (search _ _); [discriminate|].
      intros H. inversion H. unfold EXTRACT_ERROR. eauto.
    + intros H. inversion H; subst.
      destruct (urlparse_raises_ValueError _ _ Hp) as [msg ->]. eauto.
Qed.

End ExtractorProperties.


Lemma extract_video_id_returns_valid_id_witness :
  valid_id (lit "dQw4w9WgXcQ").
Proof.
  apply (extract_video_id_returns_valid_id accept_bracketed no_nfkc_delimiter
           (lit "  https://youtu.be/dQw4w9WgXcQ?t=3 ")).
  vm_compute. reflexivity.
Defined.

Lemma extract_video_id_bare_id_witness :
  extract_video_id accept_bracketed no_nfkc_delimiter (lit "dQw4w9WgXcQ")
  = Ok (lit "dQw4w9WgXcQ").
Proof.
  apply (extract_video_id_bare_id accept_bracketed no_nfkc_delimiter).
  apply fullmatch_ID_RE. vm_compute. reflexivity.
Defined.

Lemma extract_video_id_rejects_unrecognized_witness :
  exists msg,
    extract_video_id accept_bracketed no_nfkc_delimiter (lit "not a url")
    = Raise (ValueError msg).
Proof.
  apply (proj1 (extract_video_id_rejects_unrecognized
                  accept_bracketed no_nfkc_delimiter)).
  vm_compute. reflexivity.
Defined.

(* ================================================================= *)
(** ** The transcript fetcher *)

(** What [lstrip_by] removes is a prefix of characters satisfying [p]. *)
Lemma lstrip_by_split (p : char -> bool) (s : str) :
  exists pre, s = pre ++ lstrip_by p s /\ forallb p pre = true.
Proof.
  induction s as [|c t [pre [E F]]]; simpl.
  - exists []. split; reflexivity.
  - destruct (p c) eqn:Hc.
    + exists (c :: pre). simpl. rewrite Hc, F. split; [now f_equal | reflexivity].
    + exists []. split; reflexivity.
Qed.

Lemma lstrip_by_first (p : char -> bool) (s : str) :
  match lstrip_by p s with [] => True | c :: _ => p c = false end.
Proof.
  induction s as [|c t IH]; simpl; [exact I|].
  destruct (p c) eqn:Hc; [exact IH | exact Hc].
Qed.

Lemma strip_by_trimmed (p : char -> bool) (s : str) :
  trimmed p (strip_by p s).
Proof.
  unfold trimmed, strip_by, rstrip_by. set (l := lstrip_by p s).
  split.
  - destruct (lstrip_by_split p (rev l)) as [pre [E _]].
    assert (El : l = rev (lstrip_by p (rev l)) ++ rev pre).
    { rewrite <- rev_app_distr, <- E. symmetry. apply rev_involutive. }
    pose proof (lstrip_by_first p s) as Hf. fold l in Hf.
    destruct (rev (lstrip_by p (rev l))) as [|c r]; [exact I|].
    rewrite El in Hf. exact Hf.
  - rewrite rev_involutive. apply lstrip_by_first.
Qed.

Lemma strip_by_fixed (p : char -> bool) (s : str) :
  trimmed p s -> strip_by p s = s.
Proof.
  intros [H1 H2]. unfold strip_by, rstrip_by.
  rewrite (lstrip_by_head p s H1), (lstrip_by_head p (rev s) H2).
  apply rev_involutive.
Qed.

Lemma trimmed_sep_app (p : char -> bool) (a sep b : str) :
  a <> [] -> b <> [] -> trimmed p a -> trimmed p b ->
  trimmed p (a ++ sep ++ b).
Proof.
  intros Ha Hb [Ha1 _] [_ Hb2]. split.
  - destruct a; [contradiction | exact Ha1].
  - rewrite !rev_app_distr. destruct (rev b) eqn:E.
    + apply (f_equal (@rev _)) in E. rewrite rev_involutive in E. contradiction.
    + exact Hb2.
Qed.

(** Joining trimmed, non-empty strings gives a trimmed string. *)
Lemma join_trimmed (p : char -> bool) (sep : str) (l : list str) :
  Forall (fun s => s <> [] /\ trimmed p s) l ->
  trimmed p (join sep l) /\ (l <> [] -> join sep l <> []).
Proof.
  induction l as [|a l IH]; intros H.
  - split; [split; exact I | congruence].
  - inversion H as [|? ? [Ha Ta] Hl]; subst.
    destruct (IH Hl) as [Tl Nl].
    destruct l as [|b l']; simpl.
    + split; [exact Ta | intros _; exact Ha].
    + split.
      * apply trimmed_sep_app; try assumption. apply Nl. discriminate.
      * intros _. destruct a; [contradiction | discriminate].
Qed.

Lemma nonempty_true (s : str) : nonempty s = true <-> s <> [].
Proof. destruct s; simpl; split; congruence. Qed.

(** Without a whitespace-only fragment, the fragments kept by the test
    [if s.text] are those with something left after trimming. *)
Lemma kept_texts_nonblank (snippets : list FetchedTranscriptSnippet) :
  no_blank_fragment snippets ->
  map (fun s => strip (text s))
      (filter (fun s => match text s with [] => false | _ => true end) snippets)
  = nonblank_texts snippets.
Proof.
  unfold nonblank_texts, no_blank_fragment.
  induction snippets as [|s l IH]; intros H; simpl; [reflexivity|].
  assert (Hl : forall x, In x l -> text x <> [] -> strip (text x) <> [])
    by (intros x Hx; apply H; now right).
  destruct (text s) as [|c t] eqn:Et.
  - change (strip []) with (@nil char). simpl. now apply IH.
  - assert (Hs : strip (c :: t) <> []).
    { rewrite <- Et. apply H; [now left | rewrite Et; discriminate]. }
    apply nonempty_true in Hs. rewrite Hs. simpl. rewrite Et. f_equal. now apply IH.
Qed.

(** Without a whitespace-only fragment the joined text is the non-blank
    trimmed texts, one space between each two of them: the outer
    [strip] finds nothing to remove. *)
Lemma join_snippets_single_spaced (snippets : list FetchedTranscriptSnippet) :
  no_blank_fragment snippets ->
  join_snippets snippets = single_spaced snippets.
Proof.
  intros H. unfold join_snippets, single_spaced.
  rewrite (kept_texts_nonblank _ H).
  apply strip_by_fixed. apply join_trimmed.
  unfold nonblank_texts. apply Forall_forall. intros s Hs.
  apply filter_In in Hs. destruct Hs as [Hin Hne].
  apply nonempty_true in Hne. split; [exact Hne|].
  apply in_map_iff in Hin. destruct Hin as [x [<- _]].
  apply strip_by_trimmed.
Qed.

(** The claim of C5 fails with a whitespace-only fragment: it is kept
    (its text is not empty), it contributes the empty string, and the two
    texts around it end up two spaces apart. *)
Lemma fetch_transcript_text_blank_fragment :
  let snippets := [snippet (lit "a"); snippet (lit " "); snippet (lit "b")] in
  fetch_transcript_text (providing snippets) (lit "dQw4w9WgXcQ")
  = Ok (lit "a  b")
  /\ single_spaced snippets = lit "a b"
  /\ fetch_transcript_text (providing snippets) (lit "dQw4w9WgXcQ")
     <> Ok (single_spaced snippets).
Proof. vm_compute. repeat split. discriminate. Qed.

Section TranscriptFetcherProperties.

Variable ytt_fetch : str -> list str -> result (list FetchedTranscriptSnippet).

(** C5, amended.  On the fragments the provider returns, the fetcher
    returns the texts of the fragments whose text is not empty, each
    trimmed, joined with one space, the whole trimmed; and when no
    fragment is whitespace-only, that is the non-blank trimmed texts with
    exactly one space between each two of them. *)
Theorem fetch_transcript_text_spec (video_id : str) snippets :
  ytt_fetch video_id DEFAULT_LANGUAGES = Ok snippets ->
  fetch_transcript_text ytt_fetch video_id
  = Ok (strip (join (lit " ")
                 (map (fun s => strip (text s))
                    (filter (fun s => nonempty (text s)) snippets))))
  /\ (no_blank_fragment snippets ->
      fetch_transcript_text ytt_fetch video_id = Ok (single_spaced snippets)).
Proof.
  intros H. unfold fetch_transcript_text, fetch_transcript_text_in, bind.
  rewrite H. split; [reflexivity|].
  intros Hb. now rewrite (join_snippets_single_spaced _ Hb).
Qed.

(** What the provider raises, the fetcher raises. *)
Lemma fetch_transcript_text_Raise (video_id : str) (e : exn) :
  ytt_fetch video_id DEFAULT_LANGUAGES = Raise e ->
  fetch_transcript_text ytt_fetch video_id = Raise e.
Proof.
  intros H. unfold fetch_transcript_text, fetch_transcript_text_in, bind.
  now rewrite H.
Qed.

End TranscriptFetcherProperties.

Lemma fetch_transcript_text_spec_witness :
  let snippets := [snippet (lit " Hello  "); snippet (lit ""); snippet (lit "world ")] in
  fetch_transcript_text (providing snippets) (lit "dQw4w9WgXcQ")
  = Ok (single_spaced snippets)
  /\ single_spaced snippets = lit "Hello world".
Proof.
  intros snippets. split; [|vm_compute; reflexivity].
  apply (proj2 (fetch_transcript_text_spec (providing snippets)
                  (lit "dQw4w9WgXcQ") snippets eq_refl)).
  intros s [<-|[<-|[<-|[]]]]; vm_compute; congruence.
Defined.

(* ================================================================= *)
(** ** The JSON decoder: progress *)

Lemma lstrip_by_length (p : char -> bool) (s : str) :
  (List.length (lstrip_by p s) <= List.length s)%nat.
Proof.
  induction s as [|c t IH]; simpl; [lia|]. destruct (p c); simpl; lia.
Qed.

Lemma skip_ws_length (s : str) : (List.length (skip_ws s) <= List.length s)%nat.
Proof. apply lstrip_by_length. Qed.

Lemma break_at_length (p : char -> bool) (s a b : str) :
  break_at p s = (a, b) -> (List.length b <= List.length s)%nat.
Proof.
  revert a b. induction s as [|c t IH]; simpl; intros a b.
  - intros [= <- <-]. simpl; lia.
  - destruct (p c); [intros [= <- <-]; simpl; lia|].
    destruct (break_at p t) as [a' b'] eqn:E. intros [= <- <-].
    specialize (IH _ _ eq_refl). lia.
Qed.

Lemma strip_prefix_length (p s r : str) :
  strip_prefix p s = Some r ->
  List.length s = (List.length p + List.length r)%nat.
Proof.
  revert s. induction p as [|a p IH]; intros s; simpl.
  - intros [= ->]. reflexivity.
  - destruct s as [|b s']; [discriminate|].
    destruct (a =? b); [|discriminate]. intros H. apply IH in H. simpl. lia.
Qed.

(** A string that is read ends after at least its closing quote, and the
    reader raises [JSONDecodeError] only. *)
Lemma scanstring_progress (n : nat) :
  forall s, (List.length s <= n)%nat ->
    match scanstring s with
    | Ok (_, r) => (List.length r < List.length s)%nat
    | Raise e => exists msg, e = JSONDecodeError msg
    end.
Proof.
  induction n as [|n IH]; intros s Hn.
  - destruct s; [simpl; eauto | simpl in Hn; lia].
  - assert (Hc : forall c t, (List.length t <= n)%nat ->
               (List.length t < List.length s)%nat ->
               match cons_char c (scanstring t) with
               | Ok (_, r) => (List.length r < List.length s)%nat
               | Raise e => exists msg, e = JSONDecodeError msg
               end).
    { intros c t Ht Hs. specialize (IH t Ht). unfold cons_char, bind.
      destruct (scanstring t) as [[k r]|e]; simpl; [lia | exact IH]. }
    destruct s as [|c t]; [simpl; eauto|]. cbn [scanstring].
    simpl in Hn.
    repeat match goal with
           | |- context [if ?c then _ else _] => destruct c eqn:?
           | |- context [match ?x with
                         | [] => _
                         | _ :: _ => _
                         end] => destruct x eqn:?
           | |- context [match ?x with
                         | Some _ => _
                         | None => _
                         end] => destruct x eqn:?
           end;
      subst; simpl List.length in *;
      try (eexists; reflexivity); try lia;
      try (apply Hc; simpl; lia).
Qed.

Lemma take_sign_length (s a b : str) :
  take_sign s = (a, b) -> (List.length b <= List.length s)%nat.
Proof.
  unfold take_sign. destruct s as [|c t]; [intros [= <- <-]; simpl; lia|].
  destruct (c =? ch "-"); intros [= <- <-]; simpl; lia.
Qed.

Lemma take_int_length (s a b : str) :
  take_int s = Some (a, b) -> (List.length b < List.length s)%nat.
Proof.
  unfold take_int. destruct s as [|d t]; [discriminate|].
  destruct (is_digit d); [|discriminate].
  destruct (d =? ch "0"); [intros [= <- <-]; simpl; lia|].
  destruct (digits t) as [ds r] eqn:E. apply break_at_length in E.
  intros [= <- <-]. simpl; lia.
Qed.

Lemma take_frac_length (s a b : str) :
  take_frac s = (a, b) -> (List.length b <= List.length s)%nat.
Proof.
  unfold take_frac. destruct s as [|p [|f r]]; try (intros [= <- <-]; simpl; lia).
  destruct (_ && _); [|intros [= <- <-]; simpl; lia].
  destruct (digits r) as [ds r'] eqn:E. apply break_at_length in E.
  intros [= <- <-]. simpl; lia.
Qed.

Lemma take_exp_length (s a b : str) :
  take_exp s = (a, b) -> (List.length b <= List.length s)%nat.
Proof.
  unfold take_exp. destruct s as [|e r]; [intros [= <- <-]; simpl; lia|].
  destruct (_ || _); [|intros [= <- <-]; simpl; lia].
  assert (H : forall r1, (List.length r1 <= List.length r)%nat ->
            forall esign,
              match digits r1 with
              | ([], _) => ([], e :: r)
              | (ds, r2) => (e :: esign ++ ds, r2)
              end = (a, b) ->
              (List.length b <= List.length (e :: r))%nat).
  { intros r1 Hr1 esign. destruct (digits r1) as [ds r2] eqn:E.
    apply break_at_length in E.
    destruct ds; intros [= <- <-]; simpl; lia. }
  destruct r as [|sg r']; [apply (H [] ltac:(simpl; lia) [])|].
  destruct (_ || _);
    [apply (H r' ltac:(simpl; lia) [sg]) | apply (H (sg :: r') ltac:(simpl; lia) [])].
Qed.

(** A number takes at least one character, and reading it raises
    [ValueError] only. *)
Lemma match_number_progress (s r : str) (res : result value) :
  match_number s = Some (res, r) ->
  (List.length r < List.length s)%nat
  /\ forall e, res = Raise e -> exists msg, e = ValueError msg.
Proof.
  unfold match_number.
  destruct (take_sign s) as [sign s1] eqn:E1. apply take_sign_length in E1.
  destruct (take_int s1) as [[int_digits s2]|] eqn:E2; [|discriminate].
  apply take_int_length in E2.
  destruct (take_frac s2) as [frac s3] eqn:E3. apply take_frac_length in E3.
  destruct (take_exp s3) as [exp s4] eqn:E4. apply take_exp_length in E4.
  intros H.
  assert (Hr : r = s4 /\ forall e, res = Raise e -> exists msg, e = ValueError msg).
  { destruct frac, exp; try destruct (_ <? _)%nat;
      inversion H; subst; (split; [reflexivity|]);
      intros e' E'; try discriminate; inversion E'; eauto. }
  destruct Hr as [-> Hres]. split; [lia | exact Hres].
Qed.

(** The words and numbers: progress, and no error other than
    [JSONDecodeError] and [ValueError]. *)
Lemma scan_atom_progress (s : str) :
  match scan_atom s with
  | Ok (_, r) => (List.length r < List.length s)%nat
  | Raise e => e <> RecursionError
  end.
Proof.
  unfold scan_atom, EXPECTING_VALUE.
  assert (P : forall p r, strip_prefix p s = Some r -> p <> [] ->
                (List.length r < List.length s)%nat).
  { intros p r E Hp. apply strip_prefix_length in E.
    destruct p; [contradiction | simpl in *; lia]. }
  destruct (strip_prefix (lit "null") s) eqn:E1; [exact (P _ _ E1 ltac:(discriminate))|].
  destruct (strip_prefix (lit "true") s) eqn:E2; [exact (P _ _ E2 ltac:(discriminate))|].
  destruct (strip_prefix (lit "false") s) eqn:E3; [exact (P _ _ E3 ltac:(discriminate))|].
  destruct (match_number s) as [[res r]|] eqn:E4.
  { apply match_number_progress in E4. destruct E4 as [Hl Hr].
    unfold bind. destruct res as [v|e]; [exact Hl|].
    destruct (Hr e eq_refl) as [msg ->]. discriminate. }
  destruct (strip_prefix (lit "NaN") s) eqn:E5; [exact (P _ _ E5 ltac:(discriminate))|].
  destruct (strip_prefix (lit "Infinity") s) eqn:E6; [exact (P _ _ E6 ltac:(discriminate))|].
  destruct (strip_prefix (lit "-Infinity") s) eqn:E7; [exact (P _ _ E7 ltac:(discriminate))|].
  discriminate.
Qed.

(* ================================================================= *)
(** ** The JSON decoder and surrounding whitespace *)

(** The four whitespace characters of JSON. *)
Lemma json_ws_cases (c : char) :
  json_ws c = true -> c = 0x20 \/ c = 0x09 \/ c = 0x0A \/ c = 0x0D.
Proof.
  unfold json_ws. intros H.
  repeat (apply orb_true_iff in H; destruct H as [H|H]);
    apply N.eqb_eq in H; auto.
Qed.

(** What is true of the four is true of every whitespace character. *)
Ltac ws_cases c :=
  match goal with
  | H : json_ws c = true |- _ =>
    destruct (json_ws_cases c H) as [?|[?|[?|?]]]; subst c
  end.

Lemma json_ws_isspace (c : char) : json_ws c = true -> isspace c = true.
Proof. intros H. ws_cases c; reflexivity. Qed.

Lemma json_ws_not_hexdig (c : char) : json_ws c = true -> is_hexdig c = false.
Proof. intros H. ws_cases c; reflexivity. Qed.

Lemma json_ws_not_digit (c : char) : json_ws c = true -> is_digit c = false.
Proof. intros H. ws_cases c; reflexivity. Qed.

Lemma hex4_hexdig (h1 h2 h3 h4 : char) (n : N) :
  hex4 h1 h2 h3 h4 = Some n ->
  is_hexdig h1 = true /\ is_hexdig h2 = true
  /\ is_hexdig h3 = true /\ is_hexdig h4 = true.
Proof.
  unfold hex4. destruct (is_hexdig h1), (is_hexdig h2), (is_hexdig h3),
    (is_hexdig h4); try discriminate. intros _. repeat split.
Qed.

Lemma surrogate_pair_hexdig (uni : N) (b u g1 g2 g3 g4 j : char) :
  surrogate_pair uni b u g1 g2 g3 g4 = Some j -> is_hexdig g4 = true.
Proof.
  unfold surrogate_pair. destruct (_ && _); [|discriminate].
  destruct (hex4 g1 g2 g3 g4) eqn:E; [|discriminate].
  intros _. now apply hex4_hexdig in E.
Qed.

(** The equations of [scanstring], one for each way a string goes on. *)
Lemma scanstring_quote (t : str) : scanstring (DQUOTE :: t) = Ok ([], t).
Proof. reflexivity. Qed.

Lemma scanstring_plain (c : char) (t : str) :
  (c =? DQUOTE) = false -> (c =? BACKSLASH) = false ->
  scanstring (c :: t)
  = if c <? 0x20
    then Raise (JSONDecodeError (lit "Invalid control character at"))
    else cons_char c (scanstring t).
Proof. intros H1 H2. cbn [scanstring]. now rewrite H1, H2. Qed.

Lemma scanstring_escape (e : char) (t : str) :
  (e =? ch "u") = false ->
  scanstring (BACKSLASH :: e :: t)
  = match simple_escape e with
    | Some c' => cons_char c' (scanstring t)
    | None => Raise (JSONDecodeError (lit "Invalid \escape"))
    end.
Proof. intros H. cbn [scanstring]. now rewrite H. Qed.

Lemma scanstring_u (h1 h2 h3 h4 : char) (t4 : str) :
  scanstring (BACKSLASH :: ch "u" :: h1 :: h2 :: h3 :: h4 :: t4)
  = match hex4 h1 h2 h3 h4 with
    | None => Raise (JSONDecodeError (lit "Invalid \uXXXX escape"))
    | Some uni =>
      match t4 with
      | b :: u :: g1 :: g2 :: g3 :: g4 :: t10 =>
        match surrogate_pair uni b u g1 g2 g3 g4 with
        | Some joined => cons_char joined (scanstring t10)
        | None => cons_char uni (scanstring t4)
        end
      | _ => cons_char uni (scanstring t4)
      end
    end.
Proof. reflexivity. Qed.

Lemma scanstring_u_short (t : str) :
  (List.length t < 4)%nat ->
  fails (scanstring (BACKSLASH :: ch "u" :: t)).
Proof.
  destruct t as [|h1 [|h2 [|h3 [|h4 t4]]]]; simpl List.length; intros H;
    try exact I. lia.
Qed.

Ltac ws_facts :=
  unfold all_ws in *;
  repeat match goal with
         | H : Forall _ (_ :: _) |- _ => inversion H; subst; clear H
         end.

Lemma all_ws_app (a b : str) : all_ws a -> all_ws b -> all_ws (a ++ b).
Proof. intros Ha Hb. apply Forall_app. now split. Qed.

(** A string does not end inside whitespace. *)
Lemma scanstring_all_ws (t : str) : all_ws t -> fails (scanstring t).
Proof.
  induction 1 as [|w t Hw Ht IH]; [exact I|].
  ws_cases w; try exact I.
  rewrite scanstring_plain by reflexivity. cbn [N.ltb N.compare Pos.compare
    Pos.compare_cont]. unfold cons_char, bind.
  destruct (scanstring t); [contradiction | exact I].
Qed.

Lemma scanstring_escape_ws (t : str) :
  all_ws t -> fails (scanstring (BACKSLASH :: t)).
Proof.
  intros Ht. destruct t as [|w t]; [exact I|]. ws_facts.
  rewrite scanstring_escape by (ws_cases w; reflexivity).
  ws_cases w; exact I.
Qed.

Lemma scanstring_u_ws (m t : str) :
  (List.length m < 4)%nat -> all_ws t ->
  fails (scanstring (BACKSLASH :: ch "u" :: m ++ t)).
Proof.
  intros Hm Ht.
  destruct (m ++ t) as [|h1 [|h2 [|h3 [|h4 t4]]]] eqn:E; try exact I.
  rewrite scanstring_u.
  assert (Hw : json_ws h4 = true).
  { destruct m as [|a [|b [|c [|d m']]]]; simpl in *; try lia;
      try subst t; try (inversion E; subst); ws_facts; assumption. }
  apply json_ws_not_hexdig in Hw.
  destruct (hex4 h1 h2 h3 h4) eqn:Eh; [|exact I].
  apply hex4_hexdig in Eh. destruct Eh as [_ [_ [_ Eh]]]. congruence.
Qed.

Lemma scanstring_u_tail_ws (h1 h2 h3 h4 : char) (uni : N) (m4 t : str) :
  hex4 h1 h2 h3 h4 = Some uni ->
  (List.length m4 < 6)%nat -> all_ws t ->
  scanstring (BACKSLASH :: ch "u" :: h1 :: h2 :: h3 :: h4 :: m4 ++ t)
  = cons_char uni (scanstring (m4 ++ t)).
Proof.
  intros Hh Hm Ht. rewrite scanstring_u, Hh.
  destruct (m4 ++ t) as [|b [|u [|g1 [|g2 [|g3 [|g4 t10]]]]]] eqn:E;
    try reflexivity.
  assert (Hw : json_ws g4 = true).
  { destruct m4 as [|x1 [|x2 [|x3 [|x4 [|x5 [|x6 m']]]]]]; simpl in *; try lia;
      try subst t; try (inversion E; subst); ws_facts; assumption. }
  apply json_ws_not_hexdig in Hw.
  destruct (surrogate_pair uni b u g1 g2 g3 g4) eqn:Ep; [|reflexivity].
  apply surrogate_pair_hexdig in Ep. congruence.
Qed.

(** Reading a string does not depend on the whitespace at the end of the
    text: with [t'] in place of [t] the same string is read, and the same
    text is left before the whitespace. *)
Lemma scanstring_swap (t t' : str) :
  all_ws t -> all_ws t' ->
  forall n m, (List.length m <= n)%nat ->
    forall k r, scanstring (m ++ t) = Ok (k, r) ->
      exists m2, r = m2 ++ t /\ scanstring (m ++ t') = Ok (k, m2 ++ t').
Proof.
  intros Ht Ht'.
  assert (Hcons : forall m c k r,
             (forall k r, scanstring (m ++ t) = Ok (k, r) ->
                exists m2, r = m2 ++ t /\ scanstring (m ++ t') = Ok (k, m2 ++ t')) ->
             cons_char c (scanstring (m ++ t)) = Ok (k, r) ->
             exists m2, r = m2 ++ t
                        /\ cons_char c (scanstring (m ++ t')) = Ok (k, m2 ++ t')).
  { intros m c k r IH. unfold cons_char, bind.
    destruct (scanstring (m ++ t)) as [[k0 r0]|e] eqn:E; [|discriminate].
    cbn [fst snd]. intros [= <- <-].
    destruct (IH _ _ eq_refl) as [m2 [-> ->]]. exists m2. now split. }
  induction n as [|n IH]; intros m Hm k r H.
  { destruct m; [|simpl in Hm; lia]. cbn [app] in H.
    pose proof (scanstring_all_ws t Ht) as F. rewrite H in F. contradiction. }
  destruct m as [|c m].
  { cbn [app] in H. pose proof (scanstring_all_ws t Ht) as F.
    rewrite H in F. contradiction. }
  simpl in Hm. rewrite <- !app_comm_cons in *.
  destruct (c =? DQUOTE) eqn:Eq.
  { apply N.eqb_eq in Eq. subst c. rewrite scanstring_quote in *.
    inversion H; subst. exists m. now split. }
  destruct (c =? BACKSLASH) eqn:Eb.
  2: { rewrite scanstring_plain in * by assumption.
       destruct (c <? 0x20); [discriminate|].
       apply Hcons; [|exact H]. apply IH. lia. }
  apply N.eqb_eq in Eb. subst c.
  destruct m as [|e m].
  { pose proof (scanstring_escape_ws t Ht) as F. cbn [app] in H.
    rewrite H in F. contradiction. }
  simpl in Hm. rewrite <- !app_comm_cons in *.
  destruct (e =? ch "u") eqn:Eu.
  2: { rewrite scanstring_escape in * by assumption.
       destruct (simple_escape e); [|discriminate].
       apply Hcons; [|exact H]. apply IH. lia. }
  apply N.eqb_eq in Eu. subst e.
  destruct (Nat.ltb_spec (List.length m) 4) as [Hs|Hl].
  { pose proof (scanstring_u_ws m t Hs Ht) as F. rewrite H in F.
    contradiction. }
  destruct m as [|h1 [|h2 [|h3 [|h4 m4]]]]; simpl in Hl; try lia.
  simpl in Hm. rewrite <- !app_comm_cons in *.
  destruct (hex4 h1 h2 h3 h4) as [uni|] eqn:Eh.
  2: { rewrite scanstring_u, Eh in H. discriminate. }
  destruct (Nat.ltb_spec (List.length m4) 6) as [Hs6|Hl6].
  { rewrite (scanstring_u_tail_ws _ _ _ _ _ _ _ Eh Hs6 Ht) in H.
    rewrite (scanstring_u_tail_ws _ _ _ _ _ _ _ Eh Hs6 Ht').
    apply Hcons; [|exact H]. apply IH. lia. }
  destruct m4 as [|b [|u [|g1 [|g2 [|g3 [|g4 m10]]]]]]; simpl in Hl6; try lia.
  simpl in Hm. rewrite <- !app_comm_cons in *.
  rewrite scanstring_u, Eh in *.
  destruct (surrogate_pair uni b u g1 g2 g3 g4).
  - apply Hcons; [|exact H]. apply IH. lia.
  - rewrite !app_comm_cons in *. apply Hcons; [|exact H]. apply IH.
    simpl. lia.
Qed.

Section TrailingWhitespace.

Variables t t' : str.
Hypothesis Ht : all_ws t.
Hypothesis Ht' : all_ws t'.

Local Notation "s ~ s'" := (swapped t t' s s') (at level 70).

Lemma swapped_ends : t ~ t'.
Proof. exists []. now split. Qed.

Lemma swapped_cons (c : char) (s s' : str) : s ~ s' -> c :: s ~ c :: s'.
Proof. intros [m [-> ->]]. exists (c :: m). now split. Qed.

(** Two such texts are the two whitespace ends, or start with the same
    character. *)
Lemma swapped_inv (s s' : str) :
  s ~ s' ->
  (s = t /\ s' = t')
  \/ exists c r r', s = c :: r /\ s' = c :: r' /\ r ~ r'.
Proof.
  intros [[|c m] [-> ->]]; [now left | right].
  exists c, (m ++ t), (m ++ t'). repeat split. now exists m.
Qed.

Lemma scanstring_swapped (s s' : str) (k r : str) :
  s ~ s' -> scanstring s = Ok (k, r) ->
  exists r', scanstring s' = Ok (k, r') /\ r ~ r'.
Proof.
  intros [m [-> ->]] H.
  destruct (scanstring_swap t t' Ht Ht' _ m (le_n _) _ _ H) as [m2 [-> E]].
  exists (m2 ++ t'). split; [exact E | now exists m2].
Qed.

(** The first character of a whitespace end fails every test that
    whitespace fails. *)
Lemma ws_head (P : char -> bool) (w : str) :
  all_ws w -> (forall c, json_ws c = true -> P c = false) ->
  match w with [] => True | c :: _ => P c = false end.
Proof. intros Hw HP. destruct w as [|c w]; [exact I|]. ws_facts. auto. Qed.

Lemma skip_ws_all_ws (w : str) : all_ws w -> skip_ws w = [].
Proof.
  unfold skip_ws. induction 1 as [|c w Hc Hw IH]; simpl; [reflexivity|].
  now rewrite Hc.
Qed.

(** Skipping whitespace keeps the two texts alike, when something is
    left. *)
Lemma skip_ws_swapped (s s' : str) (c : char) (r : str) :
  s ~ s' -> skip_ws s = c :: r ->
  exists r', skip_ws s' = c :: r' /\ r ~ r'.
Proof.
  intros [m [-> ->]]. unfold skip_ws.
  induction m as [|a m IH]; cbn [app lstrip_by].
  - fold (skip_ws t). rewrite (skip_ws_all_ws t Ht). discriminate.
  - destruct (json_ws a).
    + exact IH.
    + intros [= <- <-]. exists (m ++ t'). split; [reflexivity | now exists m].
Qed.

Lemma break_at_all_ws (p : char -> bool) (w : str) :
  all_ws w -> (forall c, json_ws c = true -> p c = true) ->
  break_at p w = ([], w).
Proof.
  intros Hw Hp. destruct w as [|c w]; [reflexivity|]. ws_facts.
  simpl. now rewrite Hp.
Qed.

Lemma break_at_swapped (p : char -> bool) (s s' a b : str) :
  (forall c, json_ws c = true -> p c = true) ->
  s ~ s' -> break_at p s = (a, b) ->
  exists b', break_at p s' = (a, b') /\ b ~ b'.
Proof.
  intros Hp [m [-> ->]]. revert a b.
  induction m as [|c m IH]; intros a b; cbn [app].
  - rewrite !break_at_all_ws by assumption. intros [= <- <-].
    exists t'. split; [reflexivity | apply swapped_ends].
  - cbn [break_at]. destruct (p c).
    + intros [= <- <-]. exists (c :: m ++ t'). split; [reflexivity|].
      now exists (c :: m).
    + destruct (break_at p (m ++ t)) as [a0 b0] eqn:E. intros [= <- <-].
      destruct (IH _ _ eq_refl) as [b' [-> Hb]]. exists b'. now split.
Qed.

Lemma digits_swapped (s s' a b : str) :
  s ~ s' -> digits s = (a, b) ->
  exists b', digits s' = (a, b') /\ b ~ b'.
Proof.
  apply break_at_swapped. intros c Hc.
  now rewrite (json_ws_not_digit c Hc).
Qed.

Lemma take_sign_swapped (s s' a b : str) :
  s ~ s' -> take_sign s = (a, b) ->
  exists b', take_sign s' = (a, b') /\ b ~ b'.
Proof.
  intros Hs. destruct (swapped_inv _ _ Hs) as [[-> ->]|[c [r [r' [-> [-> Hr]]]]]].
  - assert (E : forall w, all_ws w -> take_sign w = ([], w)).
    { intros w Hw. destruct w as [|c w]; [reflexivity|]. ws_facts.
      unfold take_sign. ws_cases c; reflexivity. }
    rewrite !E by assumption. intros [= <- <-]. exists t'. now split.
  - unfold take_sign. destruct (c =? ch "-"); intros [= <- <-].
    + exists r'. now split.
    + exists (c :: r'). split; [reflexivity | now apply swapped_cons].
Qed.

Lemma take_int_swapped (s s' : str) :
  s ~ s' -> agree t t' (take_int s) (take_int s').
Proof.
  intros Hs. destruct (swapped_inv _ _ Hs) as [[-> ->]|[c [r [r' [-> [-> Hr]]]]]].
  - assert (E : forall w, all_ws w -> take_int w = None).
    { intros w Hw. destruct w as [|c w]; [reflexivity|]. ws_facts.
      unfold take_int. now rewrite json_ws_not_digit. }
    rewrite !E by assumption. exact I.
  - unfold take_int. destruct (is_digit c); [|exact I].
    destruct (c =? ch "0"); [simpl; now split|].
    destruct (digits r) as [ds b] eqn:E.
    destruct (digits_swapped _ _ _ _ Hr E) as [b' [-> Hb]]. simpl. now split.
Qed.

Lemma take_frac_swapped (s s' a b : str) :
  s ~ s' -> take_frac s = (a, b) ->
  exists b', take_frac s' = (a, b') /\ b ~ b'.
Proof.
  assert (E : forall w, all_ws w -> take_frac w = ([], w)).
  { intros w Hw. destruct w as [|p [|f w]]; try reflexivity. ws_facts.
    unfold take_frac. ws_cases p; reflexivity. }
  assert (E1 : forall p w, all_ws w -> take_frac (p :: w) = ([], p :: w)).
  { intros p w Hw. destruct w as [|f w]; [reflexivity|]. ws_facts.
    unfold take_frac. rewrite json_ws_not_digit by assumption.
    now rewrite andb_false_r. }
  intros Hs. destruct (swapped_inv _ _ Hs) as [[-> ->]|[p [r [r' [-> [-> Hr]]]]]].
  { rewrite !E by assumption. intros [= <- <-]. exists t'. now split. }
  destruct (swapped_inv _ _ Hr) as [[-> ->]|[f [r2 [r2' [-> [-> Hr2]]]]]].
  { rewrite !E1 by assumption. intros [= <- <-]. exists (p :: t').
    split; [reflexivity | now apply swapped_cons]. }
  unfold take_frac. destruct (_ && _).
  - destruct (digits r2) as [ds b0] eqn:Ed.
    destruct (digits_swapped _ _ _ _ Hr2 Ed) as [b' [-> Hb]].
    intros [= <- <-]. exists b'. now split.
  - intros [= <- <-]. exists (p :: f :: r2'). split; [reflexivity|].
    now apply swapped_cons.
Qed.

Lemma take_exp_swapped (s s' a b : str) :
  s ~ s' -> take_exp s = (a, b) ->
  exists b', take_exp s' = (a, b') /\ b ~ b'.
Proof.
  intros Hs.
  assert (E : forall w, all_ws w -> take_exp w = ([], w)).
  { intros w Hw. destruct w as [|e w]; [reflexivity|]. ws_facts.
    unfold take_exp. ws_cases e; reflexivity. }
  assert (Es : forall w, all_ws w ->
             match w with
             | sg :: r' =>
               if (sg =? ch "-") || (sg =? ch "+") then ([sg], r') else ([], w)
             | [] => ([], w)
             end = ([], w)).
  { intros w Hw. destruct w as [|sg w]; [reflexivity|]. ws_facts.
    ws_cases sg; reflexivity. }
  assert (D : forall e esign r1 r1', r1 ~ r1' ->
             match digits r1 with
             | ([], _) => ([], s)
             | (ds, r2) => (e :: esign ++ ds, r2)
             end = (a, b) ->
             exists b',
               match digits r1' with
               | ([], _) => ([], s')
               | (ds, r2) => (e :: esign ++ ds, r2)
               end = (a, b') /\ b ~ b').
  { intros e esign r1 r1' Hr. destruct (digits r1) as [ds r2] eqn:Ed.
    destruct (digits_swapped _ _ _ _ Hr Ed) as [r2' [-> H2]].
    destruct ds; intros [= <- <-]; [exists s' | exists r2']; now split. }
  destruct (swapped_inv _ _ Hs) as [[-> ->]|[e [r [r' [E1 [E2 Hr]]]]]].
  { rewrite !E by assumption. intros [= <- <-]. exists t'. now split. }
  rewrite E1, E2. unfold take_exp. rewrite <- E1, <- E2.
  destruct (_ || _); [|intros [= <- <-]; exists s'; now split].
  destruct (swapped_inv _ _ Hr) as [[-> ->]|[sg [r0 [r0' [-> [-> Hr0]]]]]].
  { rewrite !Es by assumption. apply D. apply swapped_ends. }
  destruct (_ || _); apply D; [exact Hr0 | now apply swapped_cons].
Qed.

Lemma match_number_swapped (s s' : str) :
  s ~ s' -> agree t t' (match_number s) (match_number s').
Proof.
  intros Hs. unfold match_number.
  destruct (take_sign s) as [sign s1] eqn:E1.
  destruct (take_sign_swapped _ _ _ _ Hs E1) as [s1' [-> H1]].
  pose proof (take_int_swapped _ _ H1) as H2. unfold agree in H2.
  destruct (take_int s1) as [[int_digits s2]|],
           (take_int s1') as [[int_digits' s2']|]; try contradiction;
    [|exact I].
  destruct H2 as [<- H2].
  destruct (take_frac s2) as [frac s3] eqn:E3.
  destruct (take_frac_swapped _ _ _ _ H2 E3) as [s3' [-> H3]].
  destruct (take_exp s3) as [exp s4] eqn:E4.
  destruct (take_exp_swapped _ _ _ _ H3 E4) as [s4' [-> H4]].
  destruct frac, exp; try destruct (_ <? _)%nat; simpl; now split.
Qed.

Lemma strip_prefix_swapped (p : str) :
  Forall (fun c => json_ws c = false) p ->
  forall s s', s ~ s' ->
    match strip_prefix p s, strip_prefix p s' with
    | Some r, Some r' => r ~ r'
    | None, None => True
    | _, _ => False
    end.
Proof.
  induction 1 as [|a p Ha Hp IH]; intros s s' Hs; [exact Hs|].
  destruct (swapped_inv _ _ Hs) as [[-> ->]|[c [r [r' [-> [-> Hr]]]]]].
  - assert (E : forall w, all_ws w -> strip_prefix (a :: p) w = None).
    { intros w Hw. destruct w as [|c w]; [reflexivity|]. ws_facts.
      cbn [strip_prefix]. destruct (N.eqb_spec a c); [congruence | reflexivity]. }
    now rewrite !E.
  - cbn [strip_prefix]. destruct (a =? c); [now apply IH | exact I].
Qed.

Lemma scan_atom_swapped (s s' : str) (v : value) (r : str) :
  s ~ s' -> scan_atom s = Ok (v, r) ->
  exists r', scan_atom s' = Ok (v, r') /\ r ~ r'.
Proof.
  intros Hs. unfold scan_atom.
  assert (P : forall l, forallb (fun c => negb (json_ws c)) (lit l) = true ->
            match strip_prefix (lit l) s, strip_prefix (lit l) s' with
            | Some r, Some r' => r ~ r'
            | None, None => True
            | _, _ => False
            end).
  { intros l Hl. apply strip_prefix_swapped; [|exact Hs].
    apply Forall_forall. intros c Hc. rewrite forallb_forall in Hl.
    apply negb_true_iff. now apply Hl. }
  pose proof (P "null"%string eq_refl) as P1.
  pose proof (P "true"%string eq_refl) as P2.
  pose proof (P "false"%string eq_refl) as P3.
  pose proof (P "NaN"%string eq_refl) as P4.
  pose proof (P "Infinity"%string eq_refl) as P5.
  pose proof (P "-Infinity"%string eq_refl) as P6.
  pose proof (match_number_swapped _ _ Hs) as PN. unfold agree in PN.
  destruct (strip_prefix (lit "null") s), (strip_prefix (lit "null") s');
    try contradiction; [intros [= <- <-]; eauto|].
  destruct (strip_prefix (lit "true") s), (strip_prefix (lit "true") s');
    try contradiction; [intros [= <- <-]; eauto|].
  destruct (strip_prefix (lit "false") s), (strip_prefix (lit "false") s');
    try contradiction; [intros [= <- <-]; eauto|].
  destruct (match_number s) as [[res r0]|], (match_number s') as [[res' r0']|];
    try contradiction.
  { destruct PN as [<- PN]. unfold bind. destruct res; [|discriminate].
    intros [= <- <-]. eauto. }
  destruct (strip_prefix (lit "NaN") s), (strip_prefix (lit "NaN") s');
    try contradiction; [intros [= <- <-]; eauto|].
  destruct (strip_prefix (lit "Infinity") s), (strip_prefix (lit "Infinity") s');
    try contradiction; [intros [= <- <-]; eauto|].
  destruct (strip_prefix (lit "-Infinity") s), (strip_prefix (lit "-Infinity") s');
    try contradiction; [intros [= <- <-]; eauto|].
  discriminate.
Qed.


Lemma strip_prefix_all_ws (p w : str) :
  all_ws w -> Forall (fun c => json_ws c = false) p -> p <> [] ->
  strip_prefix p w = None.
Proof.
  intros Hw Hp Hne. destruct p as [|a p]; [contradiction|].
  destruct w as [|c w]; [reflexivity|]. ws_facts.
  cbn [strip_prefix]. destruct (N.eqb_spec a c); [congruence | reflexivity].
Qed.

Lemma scan_atom_all_ws (w : str) : all_ws w -> fails (scan_atom w).
Proof.
  intros Hw. unfold scan_atom.
  assert (P : forall l, forallb (fun c => negb (json_ws c)) (lit l) = true ->
            lit l <> [] -> strip_prefix (lit l) w = None).
  { intros l Hl Hne. apply strip_prefix_all_ws; try assumption.
    apply Forall_forall. intros c Hc. rewrite forallb_forall in Hl.
    apply negb_true_iff. now apply Hl. }
  rewrite !P by (reflexivity || discriminate).
  assert (N : match_number w = None).
  { unfold match_number. destruct w as [|c w]; [reflexivity|]. ws_facts.
    unfold take_sign, take_int. ws_cases c; reflexivity. }
  rewrite N. exact I.
Qed.

Lemma scan_once_all_ws (f room : nat) (w : str) :
  all_ws w -> fails (scan_once f room w).
Proof.
  intros Hw. destruct f as [|f]; [exact I|]. cbn [scan_once].
  destruct w as [|c w]; [exact I|].
  pose proof (scan_atom_all_ws _ Hw) as F. ws_facts.
  ws_cases c; exact F.
Qed.

Lemma parse_members_all_ws (f room : nat) (pairs : dict value) (w : str) :
  all_ws w -> fails (parse_members f room pairs w).
Proof.
  intros Hw. destruct f as [|f]; [exact I|]. cbn [parse_members].
  destruct w as [|c w]; [exact I|]. ws_facts. ws_cases c; exact I.
Qed.

(** A hypothesis says that a call succeeded which must fail. *)
Ltac fails_by lemma :=
  match goal with
  | H : ?x = Ok _ |- _ =>
    let F := fresh in
    pose proof lemma as F; rewrite H in F; contradiction
  end.

(** The decoder does not depend on the whitespace at the end of the
    text. *)
Lemma scan_swapped (f : nat) :
  (forall room s s' v r, s ~ s' -> scan_once f room s = Ok (v, r) ->
     exists r', scan_once f room s' = Ok (v, r') /\ r ~ r')
  /\ (forall room pairs s s' v r, s ~ s' ->
        parse_members f room pairs s = Ok (v, r) ->
        exists r', parse_members f room pairs s' = Ok (v, r') /\ r ~ r')
  /\ (forall room items s s' v r, s ~ s' ->
        parse_elements f room items s = Ok (v, r) ->
        exists r', parse_elements f room items s' = Ok (v, r') /\ r ~ r').
Proof.
  induction f as [|f [IHs [IHm IHe]]].
  { repeat split; intros; discriminate. }
  assert (Hskip : forall r r', r ~ r' ->
            (skip_ws r = [] /\ skip_ws r' = [])
            \/ exists c r1 r1', skip_ws r = c :: r1 /\ skip_ws r' = c :: r1'
                                /\ r1 ~ r1').
  { intros r r' Hr. destruct (skip_ws r) as [|c r1] eqn:E.
    - left. split; [reflexivity|]. destruct Hr as [m [-> ->]].
      unfold skip_ws in *. clear - E Ht'. induction m as [|a m IH]; simpl in *.
      + apply (skip_ws_all_ws _ Ht').
      + destruct (json_ws a); [now apply IH | discriminate].
    - right. destruct (skip_ws_swapped _ _ _ _ Hr E) as [r1' [E' H1]].
      exists c, r1, r1'. now repeat split. }
  split; [|split].
  - intros room s s' v r Hs.
    destruct (swapped_inv _ _ Hs) as [[-> ->]|[c [r0 [r0' [-> [-> Hr]]]]]].
    { intros H. fails_by (scan_once_all_ws (S f) room t Ht). }
    cbn [scan_once]. destruct (c =? DQUOTE).
    { unfold bind. destruct (scanstring r0) as [[k rk]|] eqn:E; [|discriminate].
      destruct (scanstring_swapped _ _ _ _ Hr E) as [rk' [-> Hk]].
      cbn [fst snd]. intros [= <- <-]. eauto. }
    destruct (c =? ch "{").
    { destruct room as [|room']; [discriminate|].
      destruct (Hskip _ _ Hr) as [[-> ->]|[c1 [r1 [r1' [-> [-> H1]]]]]].
      - intros H. fails_by (parse_members_all_ws f room' [] [] (Forall_nil _)).
      - destruct (c1 =? ch "}"); [intros [= <- <-]; eauto|].
        apply IHm. now apply swapped_cons. }
    destruct (c =? ch "[").
    { destruct room as [|room']; [discriminate|].
      destruct (Hskip _ _ Hr) as [[-> ->]|[c1 [r1 [r1' [-> [-> H1]]]]]].
      - intros H. exfalso. revert H. destruct f as [|f']; [discriminate|].
        cbn [parse_elements scan_once bind]. destruct f'; discriminate.
      - destruct (c1 =? ch "]"); [intros [= <- <-]; eauto|].
        apply IHe. now apply swapped_cons. }
    apply scan_atom_swapped; assumption.
  - intros room pairs s s' v r Hs.
    destruct (swapped_inv _ _ Hs) as [[-> ->]|[q [r0 [r0' [-> [-> Hr]]]]]].
    { intros H. fails_by (parse_members_all_ws (S f) room pairs t Ht). }
    cbn [parse_members]. destruct (q =? DQUOTE); [|discriminate].
    unfold bind. destruct (scanstring r0) as [[k rk]|] eqn:E; [|discriminate].
    destruct (scanstring_swapped _ _ _ _ Hr E) as [rk' [-> Hk]].
    cbn [fst snd].
    destruct (Hskip _ _ Hk) as [[-> ->]|[colon [r1 [r1' [-> [-> H1]]]]]];
      [discriminate|].
    destruct (colon =? ch ":"); [|discriminate].
    destruct (Hskip _ _ H1) as [[-> ->]|[c1 [r1a [r1a' [-> [-> H1a]]]]]].
    { destruct (scan_once f room []) eqn:E0; [|discriminate].
      fails_by (scan_once_all_ws f room [] (Forall_nil _)). }
    destruct (scan_once f room (c1 :: r1a)) as [[v1 rv]|] eqn:Ev; [|discriminate].
    destruct (IHs _ _ _ _ _ (swapped_cons c1 _ _ H1a) Ev) as [rv' [-> Hv]].
    cbn [fst snd].
    destruct (Hskip _ _ Hv) as [[-> ->]|[d [r2 [r2' [-> [-> H2]]]]]];
      [discriminate|].
    destruct (d =? ch "}"); [intros [= <- <-]; eauto|].
    destruct (d =? ch ","); [|discriminate].
    destruct (Hskip _ _ H2) as [[-> ->]|[c2 [r3 [r3' [-> [-> H3]]]]]].
    { intros H. fails_by (parse_members_all_ws f room (dict_set pairs k v1) []
                            (Forall_nil _)). }
    apply IHm. now apply swapped_cons.
  - intros room items s s' v r Hs. cbn [parse_elements]. unfold bind.
    destruct (scan_once f room s) as [[v1 rv]|] eqn:Ev; [|discriminate].
    destruct (IHs _ _ _ _ _ Hs Ev) as [rv' [-> Hv]]. cbn [fst snd].
    destruct (Hskip _ _ Hv) as [[-> ->]|[d [r2 [r2' [-> [-> H2]]]]]];
      [discriminate|].
    destruct (d =? ch "]"); [intros [= <- <-]; eauto|].
    destruct (d =? ch ","); [|discriminate].
    destruct (Hskip _ _ H2) as [[-> ->]|[c2 [r3 [r3' [-> [-> H3]]]]]].
    { intros H. exfalso. revert H. destruct f as [|f']; [discriminate|].
      cbn [parse_elements scan_once bind]. destruct f'; discriminate. }
    apply IHe. now apply swapped_cons.
Qed.

End TrailingWhitespace.

(* ----------------------------------------------------------------- *)
(** *** What the decoder reads ends with a character that is kept *)

Lemma consumed_split (s r : str) :
  consumed s r -> exists c z, s = c ++ z :: r /\ isspace z = false.
Proof.
  induction 1 as [z r Hz|a s r _ [c [z [-> Hz]]]].
  - exists [], z. now split.
  - exists (a :: c), z. now split.
Qed.

Lemma consumed_app (p s r : str) : consumed s r -> consumed (p ++ s) r.
Proof.
  intros H. induction p as [|a p IH]; [exact H|]. now apply consumed_cons.
Qed.

Lemma consumed_trans (a b r : str) :
  consumed a b -> consumed b r -> consumed a r.
Proof.
  induction 1 as [z b Hz|x a b _ IH]; intros H.
  - now apply consumed_cons.
  - apply consumed_cons. now apply IH.
Qed.

Lemma consumed_skip_ws (s r : str) : consumed (skip_ws s) r -> consumed s r.
Proof.
  intros H. destruct (lstrip_by_split json_ws s) as [pre [E _]].
  rewrite E. now apply consumed_app.
Qed.

Lemma consumed_after (s b r : str) :
  skip_ws s = b -> consumed b r -> consumed s r.
Proof. intros <-. apply consumed_skip_ws. Qed.

Lemma is_digit_not_space (c : char) : is_digit c = true -> isspace c = false.
Proof.
  intros H.
  assert (A : c < 128).
  { unfold is_digit in H. apply andb_true_iff in H. destruct H as [_ H].
    apply N.leb_le in H. change (ch "9") with 57 in H. lia. }
  assert (E : implb (is_digit c) (negb (isspace c)) = true).
  { revert c A H. intros c A _. revert c A. apply ascii_check.
    vm_compute. reflexivity. }
  rewrite H in E. simpl in E. now apply negb_true_iff.
Qed.

Lemma digits_consumed (s a b : str) :
  digits s = (a, b) -> (a = [] /\ b = s) \/ consumed s b.
Proof.
  unfold digits. revert a b. induction s as [|c t IH]; intros a b; simpl.
  - intros [= <- <-]. now left.
  - destruct (is_digit c) eqn:D; simpl.
    + destruct (break_at (fun c0 => negb (is_digit c0)) t) as [a' b'].
      intros [= <- <-]. right.
      destruct (IH _ _ eq_refl) as [[_ ->]|H].
      * apply consumed_last. now apply is_digit_not_space.
      * now apply consumed_cons.
    + intros [= <- <-]. now left.
Qed.

Lemma take_sign_app (s a b : str) : take_sign s = (a, b) -> s = a ++ b.
Proof.
  unfold take_sign. destruct s as [|c t]; [now intros [= <- <-]|].
  destruct (c =? ch "-"); now intros [= <- <-].
Qed.

Lemma take_int_consumed (s a b : str) :
  take_int s = Some (a, b) -> consumed s b.
Proof.
  unfold take_int. destruct s as [|d t]; [discriminate|].
  destruct (is_digit d) eqn:D; [|discriminate].
  apply is_digit_not_space in D.
  destruct (d =? ch "0").
  - intros [= <- <-]. now apply consumed_last.
  - destruct (digits t) as [ds r] eqn:E. intros [= <- <-].
    destruct (digits_consumed _ _ _ E) as [[_ ->]|H].
    + now apply consumed_last.
    + now apply consumed_cons.
Qed.

Lemma take_frac_consumed (s a b : str) :
  take_frac s = (a, b) -> b = s \/ consumed s b.
Proof.
  unfold take_frac. destruct s as [|p [|f r]]; try (intros [= <- <-]; now left).
  destruct ((p =? ch ".") && is_digit f) eqn:C; [|intros [= <- <-]; now left].
  apply andb_true_iff in C. destruct C as [_ D].
  apply is_digit_not_space in D.
  destruct (digits r) as [ds r'] eqn:E. intros [= <- <-]. right.
  apply consumed_cons.
  destruct (digits_consumed _ _ _ E) as [[_ ->]|H].
  - now apply consumed_last.
  - now apply consumed_cons.
Qed.

Lemma take_exp_consumed (s a b : str) :
  take_exp s = (a, b) -> b = s \/ consumed s b.
Proof.
  unfold take_exp. destruct s as [|e r]; [intros [= <- <-]; now left|].
  destruct ((e =? ch "e") || (e =? ch "E")); [|intros [= <- <-]; now left].
  assert (P : forall esign r1, (exists p, r = p ++ r1) ->
            match digits r1 with
            | ([], _) => ([], e :: r)
            | (ds, r2) => (e :: esign ++ ds, r2)
            end = (a, b) -> b = e :: r \/ consumed (e :: r) b).
  { intros esign r1 [p ->]. destruct (digits r1) as [ds r2] eqn:E.
    destruct (digits_consumed _ _ _ E) as [[-> ->]|H].
    - intros [= <- <-]. now left.
    - destruct ds as [|d0 ds]; intros [= <- <-]; [now left|]. right.
      apply consumed_cons. now apply consumed_app. }
  destruct r as [|sg r'].
  - apply (P [] []). now exists [].
  - destruct ((sg =? ch "-") || (sg =? ch "+")).
    + apply (P [sg] r'). now exists [sg].
    + apply (P [] (sg :: r')). now exists [].
Qed.

Lemma match_number_consumed (s : str) (v : result value) (r : str) :
  match_number s = Some (v, r) -> consumed s r.
Proof.
  unfold match_number.
  destruct (take_sign s) as [sign s1] eqn:E1.
  destruct (take_int s1) as [[int_digits s2]|] eqn:E2; [|discriminate].
  destruct (take_frac s2) as [frac s3] eqn:E3.
  destruct (take_exp s3) as [exp s4] eqn:E4.
  intros H.
  assert (R : r = s4).
  { destruct frac; destruct exp;
      try destruct (INT_MAX_STR_DIGITS <? List.length int_digits)%nat;
      congruence. }
  subst r. clear H.
  rewrite (take_sign_app _ _ _ E1). apply consumed_app.
  apply take_int_consumed in E2.
  apply take_frac_consumed in E3. apply take_exp_consumed in E4.
  destruct E3 as [->|E3]; destruct E4 as [->|E4]; eauto using consumed_trans.
Qed.

Lemma strip_prefix_consumed (p s r : str) :
  strip_prefix p s = Some r -> p <> [] -> isspace (last p 0) = false ->
  consumed s r.
Proof.
  revert s. induction p as [|a p IH]; intros s; [contradiction|].
  destruct s as [|b s]; [discriminate|]. cbn [strip_prefix].
  destruct (N.eqb_spec a b) as [<-|]; [|discriminate].
  destruct p as [|a' p].
  - cbn [strip_prefix last]. intros [= <-] _ Hz. now apply consumed_last.
  - intros H _ Hz. apply consumed_cons. apply IH; [exact H | discriminate|].
    exact Hz.
Qed.

Lemma scan_atom_consumed (s : str) (v : value) (r : str) :
  scan_atom s = Ok (v, r) -> consumed s r.
Proof.
  unfold scan_atom.
  assert (P : forall l r0, strip_prefix (lit l) s = Some r0 ->
            lit l <> [] -> isspace (last (lit l) 0) = false -> consumed s r0).
  { intros l r0. apply strip_prefix_consumed. }
  destruct (strip_prefix (lit "null") s) eqn:E1.
  { intros [= <- <-]. apply (P _ _ E1); [discriminate | reflexivity]. }
  destruct (strip_prefix (lit "true") s) eqn:E2.
  { intros [= <- <-]. apply (P _ _ E2); [discriminate | reflexivity]. }
  destruct (strip_prefix (lit "false") s) eqn:E3.
  { intros [= <- <-]. apply (P _ _ E3); [discriminate | reflexivity]. }
  destruct (match_number s) as [[x r0]|] eqn:E4.
  { apply match_number_consumed in E4. unfold bind.
    destruct x; [|discriminate]. now intros [= <- <-]. }
  destruct (strip_prefix (lit "NaN") s) eqn:E5.
  { intros [= <- <-]. apply (P _ _ E5); [discriminate | reflexivity]. }
  destruct (strip_prefix (lit "Infinity") s) eqn:E6.
  { intros [= <- <-]. apply (P _ _ E6); [discriminate | reflexivity]. }
  destruct (strip_prefix (lit "-Infinity") s) eqn:E7.
  { intros [= <- <-]. apply (P _ _ E7); [discriminate | reflexivity]. }
  discriminate.
Qed.

Lemma scanstring_consumed (n : nat) :
  forall s k r, (List.length s <= n)%nat ->
    scanstring s = Ok (k, r) -> consumed s r.
Proof.
  induction n as [|n IH]; intros s k r Hn.
  - destruct s; [discriminate | simpl in Hn; lia].
  - assert (Hc : forall c t, (List.length t <= n)%nat ->
               cons_char c (scanstring t) = Ok (k, r) -> consumed t r).
    { intros c t Ht. unfold cons_char, bind.
      destruct (scanstring t) as [[k0 r0]|e] eqn:E; [|discriminate].
      cbn [fst snd]. intros [= _ <-]. exact (IH _ _ _ Ht E). }
    destruct s as [|c t]; [discriminate|]. cbn [scanstring].
    simpl in Hn.
    repeat match goal with
           | |- context [if ?c then _ else _] => destruct c eqn:?
           | |- context [match ?x with
                         | [] => _
                         | _ :: _ => _
                         end] => destruct x eqn:?
           | |- context [match ?x with
                         | Some _ => _
                         | None => _
                         end] => destruct x eqn:?
           end;
      subst; simpl List.length in *; try discriminate;
      try (intros H; apply Hc in H; [|simpl; lia];
           repeat (first [exact H | apply consumed_cons])).
    intros [= <- <-]. apply consumed_last.
    match goal with H : (c =? DQUOTE) = true |- _ =>
      apply N.eqb_eq in H; rewrite H end.
    reflexivity.
Qed.

(** What the decoder leaves is what follows a text that ends with a
    character that [str.strip] keeps. *)
Lemma scan_consumed (f : nat) :
  (forall room s v r, scan_once f room s = Ok (v, r) -> consumed s r)
  /\ (forall room pairs s v r,
        parse_members f room pairs s = Ok (v, r) -> consumed s r)
  /\ (forall room items s v r,
        parse_elements f room items s = Ok (v, r) -> consumed s r).
Proof.
  induction f as [|f [IHs [IHm IHe]]].
  { repeat split; intros; discriminate. }
  assert (Hone : forall d z r, (d =? z) = true -> isspace z = false ->
             consumed (d :: r) r).
  { intros d z r E Hz. apply N.eqb_eq in E. subst d. now apply consumed_last. }
  split; [|split].
  - intros room s v r. cbn [scan_once]. destruct s as [|c t]; [discriminate|].
    destruct (c =? DQUOTE).
    { unfold bind. destruct (scanstring t) as [[k rk]|] eqn:E; [|discriminate].
      cbn [fst snd]. intros [= <- <-]. apply consumed_cons.
      exact (scanstring_consumed _ _ _ _ (le_n _) E). }
    destruct (c =? ch "{").
    { destruct room as [|room']; [discriminate|].
      destruct (skip_ws t) as [|c' t'] eqn:W.
      - intros H. apply consumed_cons. apply (consumed_after _ _ _ W).
        exact (IHm _ _ _ _ _ H).
      - destruct (c' =? ch "}") eqn:C.
        + intros [= <- <-]. apply consumed_cons. apply (consumed_after _ _ _ W).
          now apply (Hone _ _ _ C).
        + intros H. apply consumed_cons. apply (consumed_after _ _ _ W).
          exact (IHm _ _ _ _ _ H). }
    destruct (c =? ch "[").
    { destruct room as [|room']; [discriminate|].
      destruct (skip_ws t) as [|c' t'] eqn:W.
      - intros H. apply consumed_cons. apply (consumed_after _ _ _ W).
        exact (IHe _ _ _ _ _ H).
      - destruct (c' =? ch "]") eqn:C.
        + intros [= <- <-]. apply consumed_cons. apply (consumed_after _ _ _ W).
          now apply (Hone _ _ _ C).
        + intros H. apply consumed_cons. apply (consumed_after _ _ _ W).
          exact (IHe _ _ _ _ _ H). }
    apply scan_atom_consumed.
  - intros room pairs s v r. cbn [parse_members].
    destruct s as [|q t]; [discriminate|].
    destruct (q =? DQUOTE); [|discriminate].
    unfold bind. destruct (scanstring t) as [[k rk]|] eqn:E; [|discriminate].
    apply (scanstring_consumed _ _ _ _ (le_n _)) in E.
    cbn [fst snd]. destruct (skip_ws rk) as [|colon r1] eqn:W1; [discriminate|].
    destruct (colon =? ch ":"); [|discriminate].
    destruct (scan_once f room (skip_ws r1)) as [[v1 rv]|] eqn:Ev; [|discriminate].
    apply IHs in Ev. apply consumed_skip_ws in Ev.
    cbn [fst snd]. destruct (skip_ws rv) as [|d r2] eqn:W2; [discriminate|].
    assert (Hd : consumed r2 r -> consumed (q :: t) r).
    { intros H. apply consumed_cons. apply (consumed_trans _ _ _ E).
      apply (consumed_after _ _ _ W1). apply consumed_cons.
      apply (consumed_trans _ _ _ Ev).
      apply (consumed_after _ _ _ W2). now apply consumed_cons. }
    destruct (d =? ch "}") eqn:C.
    { intros [= <- <-]. apply consumed_cons. apply (consumed_trans _ _ _ E).
      apply (consumed_after _ _ _ W1). apply consumed_cons.
      apply (consumed_trans _ _ _ Ev).
      apply (consumed_after _ _ _ W2). now apply (Hone _ _ _ C). }
    destruct (d =? ch ","); [|discriminate].
    intros H. apply Hd. apply consumed_skip_ws. exact (IHm _ _ _ _ _ H).
  - intros room items s v r. cbn [parse_elements]. unfold bind.
    destruct (scan_once f room s) as [[v1 rv]|] eqn:Ev; [|discriminate].
    apply IHs in Ev. cbn [fst snd].
    destruct (skip_ws rv) as [|d r2] eqn:W2; [discriminate|].
    destruct (d =? ch "]") eqn:C.
    { intros [= <- <-]. apply (consumed_trans _ _ _ Ev).
      apply (consumed_after _ _ _ W2). now apply (Hone _ _ _ C). }
    destruct (d =? ch ","); [|discriminate].
    intros H. apply (consumed_trans _ _ _ Ev).
    apply (consumed_after _ _ _ W2). apply consumed_cons.
    apply consumed_skip_ws. exact (IHe _ _ _ _ _ H).
Qed.

(* ----------------------------------------------------------------- *)
(** *** What the decoder reads starts with a character that is kept *)

Lemma value_start_ascii (c : char) : value_start c = true -> c < 128.
Proof.
  unfold value_start. intros H. apply orb_true_iff in H. destruct H as [H|H].
  - apply char_in_In in H.
    assert (F : forallb (fun x => x <? 128) (lit "{[ntfNI-0123456789") = true)
      by (vm_compute; reflexivity).
    rewrite forallb_forall in F. apply N.ltb_lt. now apply F.
  - apply N.eqb_eq in H. subst c. reflexivity.
Qed.

Lemma value_start_kept (c : char) :
  value_start c = true ->
  isspace c = false /\ json_ws c = false /\ (c =? 0xFEFF) = false.
Proof.
  intros H.
  assert (E : implb (value_start c)
                (negb (isspace c) && negb (json_ws c) && negb (c =? 0xFEFF))
              = true).
  { apply value_start_ascii in H. revert c H. apply ascii_check.
    vm_compute. reflexivity. }
  rewrite H in E. cbn [implb] in E.
  apply andb_true_iff in E. destruct E as [E E3].
  apply andb_true_iff in E. destruct E as [E1 E2].
  repeat split; now apply negb_true_iff.
Qed.

Lemma is_digit_value_start (c : char) : is_digit c = true -> value_start c = true.
Proof.
  intros H.
  assert (A : c < 128).
  { unfold is_digit in H. apply andb_true_iff in H. destruct H as [_ H].
    apply N.leb_le in H. change (ch "9") with 57 in H. lia. }
  assert (E : implb (is_digit c) (value_start c) = true).
  { revert c A H. intros c A _. revert c A. apply ascii_check.
    vm_compute. reflexivity. }
  rewrite H in E. destruct (value_start c); [reflexivity | discriminate E].
Qed.

Lemma strip_prefix_hd (p s r : str) :
  strip_prefix p s = Some r -> p <> [] -> hd 0 s = hd 0 p.
Proof.
  destruct p as [|a p]; [contradiction|]. destruct s as [|b s]; [discriminate|].
  cbn [strip_prefix hd]. destruct (N.eqb_spec a b); [now intros|discriminate].
Qed.

Lemma match_number_value_start (c : char) (t : str) x :
  match_number (c :: t) = Some x -> value_start c = true.
Proof.
  unfold match_number, take_sign.
  destruct (c =? ch "-") eqn:C.
  { intros _. apply N.eqb_eq in C. subst c. reflexivity. }
  unfold take_int. destruct (is_digit c) eqn:D; [|discriminate].
  intros _. now apply is_digit_value_start.
Qed.

Lemma scan_atom_value_start (c : char) (t : str) x :
  scan_atom (c :: t) = Ok x -> value_start c = true.
Proof.
  unfold scan_atom.
  assert (P : forall l r0, strip_prefix (lit l) (c :: t) = Some r0 ->
            lit l <> [] -> value_start (hd 0 (lit l)) = true ->
            value_start c = true).
  { intros l r0 E Hne Hv. now rewrite <- (strip_prefix_hd _ _ _ E Hne) in Hv. }
  destruct (strip_prefix (lit "null") (c :: t)) eqn:E1.
  { intros _. apply (P _ _ E1); [discriminate | reflexivity]. }
  destruct (strip_prefix (lit "true") (c :: t)) eqn:E2.
  { intros _. apply (P _ _ E2); [discriminate | reflexivity]. }
  destruct (strip_prefix (lit "false") (c :: t)) eqn:E3.
  { intros _. apply (P _ _ E3); [discriminate | reflexivity]. }
  destruct (match_number (c :: t)) as [y|] eqn:E4.
  { intros _. exact (match_number_value_start _ _ _ E4). }
  destruct (strip_prefix (lit "NaN") (c :: t)) eqn:E5.
  { intros _. apply (P _ _ E5); [discriminate | reflexivity]. }
  destruct (strip_prefix (lit "Infinity") (c :: t)) eqn:E6.
  { intros _. apply (P _ _ E6); [discriminate | reflexivity]. }
  destruct (strip_prefix (lit "-Infinity") (c :: t)) eqn:E7.
  { intros _. apply (P _ _ E7); [discriminate | reflexivity]. }
  discriminate.
Qed.

Lemma scan_once_value_start (f room : nat) (c : char) (t : str) x :
  scan_once f room (c :: t) = Ok x -> value_start c = true.
Proof.
  destruct f as [|f]; [discriminate|]. cbn [scan_once].
  assert (Hone : forall z, (c =? z) = true -> value_start z = true ->
             value_start c = true).
  { intros z E Hz. apply N.eqb_eq in E. now subst c. }
  destruct (c =? DQUOTE) eqn:C1; [intros _; now apply (Hone _ C1)|].
  destruct (c =? ch "{") eqn:C2; [intros _; now apply (Hone _ C2)|].
  destruct (c =? ch "[") eqn:C3; [intros _; now apply (Hone _ C3)|].
  apply scan_atom_value_start.
Qed.

(* ----------------------------------------------------------------- *)
(** *** The fuel of [json_loads] is enough *)

Lemma consumed_shorter (s r : str) :
  consumed s r -> (List.length r < List.length s)%nat.
Proof.
  intros H. destruct (consumed_split _ _ H) as [c [z [-> _]]].
  rewrite length_app. simpl. lia.
Qed.

Lemma scanstring_shorter (s k r : str) :
  scanstring s = Ok (k, r) -> (List.length r < List.length s)%nat.
Proof.
  intros H. pose proof (scanstring_progress _ s (le_n _)) as P.
  now rewrite H in P.
Qed.

(** With twice the length of the text, and one or two more, a call of
    the decoder has all the fuel it can use: with more it gives the same
    result, value or exception. *)
Lemma scan_enough (f : nat) :
  (forall room s f', (2 * List.length s + 1 <= f)%nat -> (f <= f')%nat ->
     scan_once f' room s = scan_once f room s)
  /\ (forall room pairs s f',
        (2 * List.length s + 1 <= f)%nat -> (f <= f')%nat ->
        parse_members f' room pairs s = parse_members f room pairs s)
  /\ (forall room items s f',
        (2 * List.length s + 2 <= f)%nat -> (f <= f')%nat ->
        parse_elements f' room items s = parse_elements f room items s).
Proof.
  induction f as [|f [IHs [IHm IHe]]].
  { repeat split; intros; lia. }
  split; [|split].
  - intros room s f' Hb Hle. destruct f' as [|f']; [lia|].
    cbn [scan_once]. destruct s as [|c t]; [reflexivity|]. simpl in Hb.
    destruct (c =? DQUOTE); [reflexivity|].
    pose proof (skip_ws_length t) as Hw.
    destruct (c =? ch "{").
    { destruct room as [|room']; [reflexivity|].
      destruct (skip_ws t) as [|c' t'].
      - apply IHm; simpl; lia.
      - destruct (c' =? ch "}"); [reflexivity|]. apply IHm; simpl in *; lia. }
    destruct (c =? ch "[").
    { destruct room as [|room']; [reflexivity|].
      destruct (skip_ws t) as [|c' t'].
      - apply IHe; simpl; lia.
      - destruct (c' =? ch "]"); [reflexivity|]. apply IHe; simpl in *; lia. }
    reflexivity.
  - intros room pairs s f' Hb Hle. destruct f' as [|f']; [lia|].
    cbn [parse_members]. destruct s as [|q t]; [reflexivity|]. simpl in Hb.
    destruct (q =? DQUOTE); [|reflexivity].
    unfold bind. destruct (scanstring t) as [[k rk]|] eqn:Ek; [|reflexivity].
    apply scanstring_shorter in Ek. cbn [fst snd].
    pose proof (skip_ws_length rk) as Hw1.
    destruct (skip_ws rk) as [|colon r1]; [reflexivity|]. simpl in Hw1.
    destruct (colon =? ch ":"); [|reflexivity].
    pose proof (skip_ws_length r1) as Hw2.
    rewrite (IHs room (skip_ws r1) f') by lia.
    destruct (scan_once f room (skip_ws r1)) as [[v rv]|] eqn:Ev; [|reflexivity].
    apply (proj1 (scan_consumed f)) in Ev. apply consumed_shorter in Ev.
    cbn [fst snd]. pose proof (skip_ws_length rv) as Hw3.
    destruct (skip_ws rv) as [|d r2]; [reflexivity|]. simpl in Hw3.
    destruct (d =? ch "}"); [reflexivity|].
    destruct (d =? ch ","); [|reflexivity].
    pose proof (skip_ws_length r2) as Hw4. apply IHm; lia.
  - intros room items s f' Hb Hle. destruct f' as [|f']; [lia|].
    cbn [parse_elements]. unfold bind.
    rewrite (IHs room s f') by lia.
    destruct (scan_once f room s) as [[v rv]|] eqn:Ev; [|reflexivity].
    apply (proj1 (scan_consumed f)) in Ev. apply consumed_shorter in Ev.
    cbn [fst snd]. pose proof (skip_ws_length rv) as Hw.
    destruct (skip_ws rv) as [|d r]; [reflexivity|]. simpl in Hw.
    destruct (d =? ch "]"); [reflexivity|].
    destruct (d =? ch ","); [|reflexivity].
    pose proof (skip_ws_length r) as Hw2. apply IHe; lia.
Qed.

(** [json_loads] never runs out of fuel: what it returns or raises is
    what the decoder gives with any greater amount, so that a
    [RecursionError] comes from the recursion limit only. *)
Lemma json_loads_fuel (depth_limit : nat) (s : str) (f : nat) :
  (2 * List.length s + 2 <= f)%nat ->
  scan_once f depth_limit (skip_ws s)
  = scan_once (2 * List.length s + 2) depth_limit (skip_ws s).
Proof.
  intros H. pose proof (skip_ws_length s) as Hw.
  apply (proj1 (scan_enough _)); lia.
Qed.

(* ----------------------------------------------------------------- *)
(** *** [json.loads] on the text and on the text trimmed *)

Lemma skip_ws_nil (r : str) : skip_ws r = [] -> all_ws r.
Proof.
  unfold skip_ws, all_ws. induction r as [|a r IH]; simpl; [constructor|].
  destruct (json_ws a) eqn:E; [|discriminate].
  intros H. constructor; [exact E | now apply IH].
Qed.

Lemma lstrip_by_all (p : char -> bool) (w b : str) :
  Forall (fun c => p c = true) w -> lstrip_by p (w ++ b) = lstrip_by p b.
Proof.
  induction 1 as [|c w Hc _ IH]; simpl; [reflexivity|]. now rewrite Hc.
Qed.

Lemma all_ws_isspace (w : str) :
  all_ws w -> Forall (fun c => isspace c = true) w.
Proof.
  unfold all_ws. apply Forall_impl. intros c. apply json_ws_isspace.
Qed.

Lemma strip_core (w core r : str) :
  Forall (fun c => isspace c = true) w ->
  Forall (fun c => isspace c = true) r ->
  trimmed isspace core ->
  strip (w ++ core ++ r) = core.
Proof.
  intros Hw Hr [H1 H2]. unfold strip, strip_by, rstrip_by.
  rewrite (lstrip_by_all _ _ _ Hw).
  destruct core as [|h tl].
  - simpl. rewrite <- (app_nil_r r) at 1. rewrite (lstrip_by_all _ _ _ Hr).
    reflexivity.
  - rewrite (lstrip_by_head isspace ((h :: tl) ++ r)) by exact H1.
    rewrite rev_app_distr.
    rewrite lstrip_by_all by now apply Forall_rev.
    rewrite (lstrip_by_head isspace (rev (h :: tl)) H2).
    apply rev_involutive.
Qed.

(** A text that [json.loads] decodes is decoded to the same value once
    trimmed: the whitespace of JSON is whitespace for [str.strip], and a
    JSON text starts and ends with characters that are not. *)
Lemma json_loads_strip (depth_limit : nat) (s : str) (v : value) :
  json_loads depth_limit s = Ok v -> json_loads depth_limit (strip s) = Ok v.
Proof.
  unfold json_loads at 1.
  destruct (startswith [0xFEFF] s); [discriminate|].
  remember (2 * List.length s + 2)%nat as F eqn:HF. unfold bind.
  destruct (scan_once F depth_limit (skip_ws s)) as [[v0 r]|] eqn:E;
    [|discriminate].
  cbn [fst snd]. destruct (skip_ws r) eqn:W; [|discriminate].
  intros [= ->]. apply skip_ws_nil in W.
  destruct (consumed_split _ _ (proj1 (scan_consumed F) _ _ _ _ E))
    as [c [z [Hs Hz]]].
  destruct (lstrip_by_split json_ws s) as [pre [Hpre Fpre]].
  fold (skip_ws s) in Hpre.
  assert (Hcore : exists h tl, c ++ [z] = h :: tl).
  { destruct c as [|a c]; simpl; eauto. }
  destruct Hcore as [h [tl Hcore]].
  assert (Hs' : skip_ws s = (h :: tl) ++ r).
  { rewrite <- Hcore, <- app_assoc. exact Hs. }
  rewrite Hs' in E.
  destruct (value_start_kept h (scan_once_value_start _ _ _ _ _ E))
    as [K1 [K2 K3]].
  assert (St : strip s = h :: tl).
  { rewrite Hpre, Hs'. apply strip_core.
    - apply all_ws_isspace. apply Forall_forall. intros x Hx.
      rewrite forallb_forall in Fpre. now apply Fpre.
    - now apply all_ws_isspace.
    - split; [exact K1|]. rewrite <- Hcore, rev_app_distr. exact Hz. }
  rewrite St.
  assert (Hlen : (List.length (h :: tl) <= List.length s)%nat).
  { rewrite Hpre, Hs', !length_app. lia. }
  destruct (proj1 (scan_swapped r [] W (Forall_nil _) F) depth_limit
              ((h :: tl) ++ r) ((h :: tl) ++ []) v r) as [r' [E' [m [Hm ->]]]].
  { now exists (h :: tl). }
  { exact E. }
  assert (m = []) by (symmetry; now apply (app_inv_tail r [] m)).
  subst m. rewrite app_nil_r in E'. cbn [app] in E'.
  unfold json_loads, startswith. cbn [strip_prefix].
  rewrite N.eqb_sym, K3.
  rewrite (lstrip_by_head json_ws (h :: tl) K2 : skip_ws (h :: tl) = h :: tl).
  remember (2 * List.length (h :: tl) + 2)%nat as F' eqn:HF'.
  assert (Hle : (F' <= F)%nat) by lia.
  rewrite <- (proj1 (scan_enough F') depth_limit (h :: tl) F) by lia.
  rewrite E'. reflexivity.
Qed.

(* ================================================================= *)
(** ** The summarizer *)

Lemma keep_tweet_usable (t : value) :
  keep_tweet t = if usable_entry t then [trim_entry t] else [].
Proof.
  destruct t; simpl; try reflexivity. destruct (strip s); reflexivity.
Qed.

Lemma flat_map_keep_tweet (entries : list value) :
  flat_map keep_tweet entries = map trim_entry (filter usable_entry entries).
Proof.
  induction entries as [|t l IH]; simpl; [reflexivity|].
  rewrite keep_tweet_usable, IH. destruct (usable_entry t); reflexivity.
Qed.

(** What the [try] block leaves in [tweets]. *)
Lemma load_tweets_object (depth_limit : nat) (text : str) (d : dict value) :
  json_loads depth_limit text = Ok (PyDict d) ->
  load_tweets depth_limit text = match dict_get d (lit "tweets") with
                     | Some v => v
                     | None => PyList []
                     end.
Proof. intros H. unfold load_tweets, bind. now rewrite H. Qed.

Lemma load_tweets_fallback (depth_limit : nat) (text : str) :
  (exists e, json_loads depth_limit text = Raise e)
  \/ (exists v, json_loads depth_limit text = Ok v
                /\ has_key v (lit "tweets") = false) ->
  load_tweets depth_limit text = PyList [].
Proof.
  unfold load_tweets, bind. intros [[e H]|[v [H K]]]; rewrite H; [reflexivity|].
  destruct v; try reflexivity. unfold get. unfold has_key in K.
  destruct (dict_get d (lit "tweets")); [discriminate | reflexivity].
Qed.

(** The claim of C7 fails on a body that is JSON only once it is trimmed.
    Behind a no-break space [json.loads] refuses the text; the summarizer
    trims the body before it decodes it, and returns the tweet. *)
Lemma generate_3_tweets_trims_body :
  json_loads 100 (0xA0 :: json_text "{'tweets':['a']}") = Raise EXPECTING_VALUE
  /\ generate_3_tweets 100 (answering (0xA0 :: json_text "{'tweets':['a']}"))
       (lit "transcript") (lit "gpt-4.1-mini")
     = Ok [lit "a"].
Proof. vm_compute. split; reflexivity. Qed.

Section SummarizerProperties.

Variable depth_limit : nat.
Variable responses_create : str -> str -> result str.

Let summarize := generate_3_tweets depth_limit responses_create.

(** The summarizer decodes the body trimmed; a body that [json.loads]
    decodes as it is gives the same value. *)
Lemma trimmed_body (body : str) (v : value) :
  json_loads depth_limit body = Ok v
  \/ json_loads depth_limit (strip body) = Ok v ->
  json_loads depth_limit (strip body) = Ok v.
Proof. intros [H|H]; [now apply json_loads_strip | exact H]. Qed.

(** C6.  When [json.loads] decodes the response body (as it is, or
    trimmed as the summarizer decodes it) to a JSON object whose [tweets]
    is an array, the summarizer drops the entries that are not non-empty
    strings after trimming, trims the others and keeps the first three.
    The body is decoded under the recursion limit of the interpreter: a
    body nested deeper than [depth_limit] is not decoded, and is none of
    the bodies spoken of.  Where the limit leaves room for an array inside
    an object, four entries x y z w give x y z, and two blank entries
    before "valid one" give "valid one" alone. *)
Theorem generate_3_tweets_tweets_array :
  (forall transcript model body d entries,
      responses_create model (prompt transcript) = Ok body ->
      json_loads depth_limit body = Ok (PyDict d)
      \/ json_loads depth_limit (strip body) = Ok (PyDict d) ->
      dict_get d (lit "tweets") = Some (PyList entries) ->
      summarize transcript model = Ok (first_3_usable entries))
  /\ (forall transcript model,
         (2 <= depth_limit)%nat ->
         responses_create model (prompt transcript)
         = Ok (json_text "{'tweets':['x','y','z','w']}") ->
         summarize transcript model = Ok [lit "x"; lit "y"; lit "z"])
  /\ (forall transcript model,
         (2 <= depth_limit)%nat ->
         responses_create model (prompt transcript)
         = Ok (json_text "{'tweets':['', '  ', 'valid one']}") ->
         summarize transcript model = Ok [lit "valid one"]).
Proof.
  unfold summarize, generate_3_tweets, bind. repeat split.
  - intros transcript model body d entries Hr Hj Hk. rewrite Hr.
    apply trimmed_body in Hj.
    unfold tweets_of_output, bind.
    rewrite (load_tweets_object _ _ _ Hj), Hk.
    unfold first_3_usable. now rewrite <- flat_map_keep_tweet.
  - intros transcript model Hd Hr. rewrite Hr.
    destruct depth_limit as [|[|room]]; [lia | lia |].
    vm_compute. reflexivity.
  - intros transcript model Hd Hr. rewrite Hr.
    destruct depth_limit as [|[|room]]; [lia | lia |].
    vm_compute. reflexivity.
Qed.

(** C7, amended.  When the response body, trimmed, does not parse as
    JSON, or when the body (as it is, or trimmed) parses to something
    without a [tweets] key, the summarizer returns the empty list and
    raises nothing. *)
Theorem generate_3_tweets_soft_degrade (transcript model body : str) :
  responses_create model (prompt transcript) = Ok body ->
  (exists e, json_loads depth_limit (strip body) = Raise e)
  \/ (exists v, (json_loads depth_limit body = Ok v
                 \/ json_loads depth_limit (strip body) = Ok v)
                /\ has_key v (lit "tweets") = false) ->
  summarize transcript model = Ok [].
Proof.
  intros Hr H. unfold summarize, generate_3_tweets, bind. rewrite Hr.
  unfold tweets_of_output. rewrite load_tweets_fallback; [reflexivity|].
  destruct H as [H|[v [H K]]]; [now left|]. right. exists v.
  split; [now apply trimmed_body | exact K].
Qed.

(** C10.  The body [{"tweets": 5}] parses as a JSON object whose [tweets]
    is neither a list nor a string, and on it the summarizer raises
    [TypeError] instead of returning a list.  The object is one level of
    nesting: where the recursion limit leaves no room for it the body is
    not decoded, and the summarizer returns the empty list. *)
Theorem generate_3_tweets_not_iterable :
  ((1 <= depth_limit)%nat ->
   json_loads depth_limit (json_text "{'tweets': 5}")
   = Ok (PyDict [(lit "tweets", PyInt 5)]))
  /\ forall transcript model,
       responses_create model (prompt transcript)
       = Ok (json_text "{'tweets': 5}") ->
       ((1 <= depth_limit)%nat ->
        summarize transcript model
        = Raise (TypeError (lit "'int' object is not iterable")))
       /\ (depth_limit = 0%nat -> summarize transcript model = Ok []).
Proof.
  split.
  - intros Hd. destruct depth_limit as [|room]; [lia|].
    vm_compute. reflexivity.
  - intros transcript model Hr.
    unfold summarize, generate_3_tweets, bind. rewrite Hr. split.
    + intros Hd. destruct depth_limit as [|room]; [lia|].
      vm_compute. reflexivity.
    + intros ->. vm_compute. reflexivity.
Qed.

End SummarizerProperties.

(** After the service has answered, the summarizer can raise nothing but
    the [TypeError] of a [tweets] that is not iterable. *)
Lemma tweets_of_output_Raise (depth_limit : nat) (output_text : str) (e : exn) :
  tweets_of_output depth_limit output_text = Raise e ->
  exists msg, e = TypeError msg.
Proof.
  unfold tweets_of_output, bind.
  destruct (load_tweets depth_limit (strip output_text)); simpl; intros H;
    inversion H; eauto.
Qed.

Lemma generate_3_tweets_tweets_array_witness :
  let entries := [PyStr (lit " a "); PyInt 7; PyStr (lit "b"); PyNone;
                  PyStr (lit "c"); PyStr (lit "d")] in
  (generate_3_tweets 100
     (answering (json_text " {'tweets': [' a ', 7, 'b', null, 'c', 'd']} "))
     (lit "transcript") (lit "gpt-4.1-mini")
   = Ok (first_3_usable entries)
   /\ first_3_usable entries = [lit "a"; lit "b"; lit "c"])
  /\ generate_3_tweets 2 (answering (json_text "{'tweets':['x','y','z','w']}"))
       (lit "transcript") (lit "gpt-4.1-mini")
     = Ok [lit "x"; lit "y"; lit "z"]
  /\ generate_3_tweets 2
       (answering (json_text "{'tweets':['', '  ', 'valid one']}"))
       (lit "transcript") (lit "gpt-4.1-mini")
     = Ok [lit "valid one"].
Proof.
  intros entries. split; [split; [|vm_compute; reflexivity]|split].
  - apply (proj1 (generate_3_tweets_tweets_array 100 _) _ _
             (json_text " {'tweets': [' a ', 7, 'b', null, 'c', 'd']} ")
             [(lit "tweets", PyList entries)] entries);
      [reflexivity | left; vm_compute; reflexivity | reflexivity].
  - apply (proj1 (proj2 (generate_3_tweets_tweets_array 2
                           (answering (json_text "{'tweets':['x','y','z','w']}")))));
      [apply le_n | reflexivity].
  - apply (proj2 (proj2 (generate_3_tweets_tweets_array 2
                           (answering
                              (json_text "{'tweets':['', '  ', 'valid one']}")))));
      [apply le_n | reflexivity].
Defined.

Lemma generate_3_tweets_soft_degrade_witness :
  generate_3_tweets 100 (answering (lit "Sorry, I cannot help with that."))
    (lit "transcript") (lit "gpt-4.1-mini")
  = Ok [].
Proof.
  apply (generate_3_tweets_soft_degrade 100
           (answering (lit "Sorry, I cannot help with that."))
           (lit "transcript") (lit "gpt-4.1-mini")
           (lit "Sorry, I cannot help with that.")).
  - reflexivity.
  - left. eexists. vm_compute. reflexivity.
Defined.

Lemma generate_3_tweets_not_iterable_witness :
  json_loads 1 (json_text "{'tweets': 5}")
  = Ok (PyDict [(lit "tweets", PyInt 5)])
  /\ generate_3_tweets 1 (answering (json_text "{'tweets': 5}"))
       (lit "transcript") (lit "gpt-5")
     = Raise (TypeError (lit "'int' object is not iterable"))
  /\ generate_3_tweets 0 (answering (json_text "{'tweets': 5}"))
       (lit "transcript") (lit "gpt-5")
     = Ok [].
Proof.
  destruct (generate_3_tweets_not_iterable 1
              (answering (json_text "{'tweets': 5}"))) as [H1 H2].
  destruct (H2 (lit "transcript") (lit "gpt-5") eq_refl) as [H3 _].
  destruct (proj2 (generate_3_tweets_not_iterable 0
                     (answering (json_text "{'tweets': 5}")))
              (lit "transcript") (lit "gpt-5") eq_refl) as [_ H4].
  split; [exact (H1 (le_n 1))|]. split; [exact (H3 (le_n 1)) | exact (H4 eq_refl)].
Defined.

(* ================================================================= *)
(** ** UTF-8 and percent-encoding *)

Lemma ltb_true (a b : N) : a < b -> (a <? b) = true.
Proof. apply N.ltb_lt. Qed.

Lemma ltb_false (a b : N) : b <= a -> (a <? b) = false.
Proof. apply N.ltb_ge. Qed.

Lemma is_continuation_true (b : N) : 0x80 <= b <= 0xBF -> is_continuation b = true.
Proof.
  intros [H1 H2]. unfold is_continuation.
  apply andb_true_iff. split; now apply N.leb_le.
Qed.

(** The decoder on a well-formed sequence of one, two, three and four
    bytes. *)
Lemma decode_1 (b1 : N) (t : list N) :
  b1 < 0x80 ->
  utf8_decode_replace (b1 :: t) = b1 :: utf8_decode_replace t.
Proof.
  intros H. cbn [utf8_decode_replace]. now rewrite ltb_true.
Qed.

Lemma decode_2 (b1 b2 : N) (t : list N) :
  0xC2 <= b1 < 0xE0 -> 0x80 <= b2 <= 0xBF ->
  utf8_decode_replace (b1 :: b2 :: t)
  = ((b1 - 0xC0) * 64 + (b2 - 0x80)) :: utf8_decode_replace t.
Proof.
  intros H1 H2. cbn [utf8_decode_replace].
  rewrite !ltb_false by lia. rewrite ltb_true by lia.
  now rewrite is_continuation_true.
Qed.

Lemma decode_3 (b1 b2 b3 : N) (t : list N) :
  0xE0 <= b1 < 0xF0 -> 0x80 <= b2 <= 0xBF -> 0x80 <= b3 <= 0xBF ->
  (b1 = 0xE0 -> 0xA0 <= b2) -> (b1 = 0xED -> b2 < 0xA0) ->
  utf8_decode_replace (b1 :: b2 :: b3 :: t)
  = ((b1 - 0xE0) * 4096 + (b2 - 0x80) * 64 + (b3 - 0x80))
      :: utf8_decode_replace t.
Proof.
  intros H1 H2 H3 Hlow Hsur. cbn [utf8_decode_replace].
  rewrite !ltb_false by lia. rewrite ltb_true by lia.
  rewrite !is_continuation_true by assumption. cbn [negb orb].
  assert (E : (if b2 <? 0xA0 then b1 =? 0xE0 else b1 =? 0xED) = false).
  { destruct (N.ltb_spec b2 0xA0); apply N.eqb_neq; lia. }
  now rewrite E.
Qed.

Lemma decode_4 (b1 b2 b3 b4 : N) (t : list N) :
  0xF0 <= b1 < 0xF5 -> 0x80 <= b2 <= 0xBF -> 0x80 <= b3 <= 0xBF ->
  0x80 <= b4 <= 0xBF ->
  (b1 = 0xF0 -> 0x90 <= b2) -> (b1 = 0xF4 -> b2 < 0x90) ->
  utf8_decode_replace (b1 :: b2 :: b3 :: b4 :: t)
  = ((b1 - 0xF0) * 262144 + (b2 - 0x80) * 4096 + (b3 - 0x80) * 64
     + (b4 - 0x80)) :: utf8_decode_replace t.
Proof.
  intros H1 H2 H3 H4 Hlow Hmax. cbn [utf8_decode_replace].
  rewrite !ltb_false by lia. rewrite ltb_true by lia.
  rewrite !is_continuation_true by assumption. cbn [negb orb].
  assert (E : (if b2 <? 0x90 then b1 =? 0xF0 else b1 =? 0xF4) = false).
  { destruct (N.ltb_spec b2 0x90); apply N.eqb_neq; lia. }
  now rewrite E.
Qed.

(** A Unicode scalar value: a code point that is no surrogate. *)
Lemma is_surrogate_false (c : char) :
  is_surrogate c = false <-> c < 0xD800 \/ 0xDFFF < c.
Proof.
  unfold is_surrogate. rewrite andb_false_iff, N.leb_gt, N.leb_gt. tauto.
Qed.

Local Opaque N.add N.sub N.mul N.div N.modulo.

(** Quotients and remainders become variables, known by the facts in the
    context. *)
Ltac hide_divmod :=
  repeat match goal with
         | |- context [N.div ?a ?b] => generalize dependent (N.div a b); intros
         | |- context [N.modulo ?a ?b] => generalize dependent (N.modulo a b); intros
         | H : context [N.div ?a ?b] |- _ => generalize dependent (N.div a b); intros
         | H : context [N.modulo ?a ?b] |- _ => generalize dependent (N.modulo a b); intros
         end.

(** Decoding the bytes of one character gives the character back. *)
Lemma decode_encode_char (c : char) (bs rest : list N) :
  utf8_encode_char c = Some bs ->
  utf8_decode_replace (bs ++ rest) = c :: utf8_decode_replace rest.
Proof.
  unfold utf8_encode_char.
  destruct (N.ltb_spec c 0x80) as [H1|H1].
  { intros [= <-]. cbn [app]. now apply decode_1. }
  destruct (N.ltb_spec c 0x800) as [H2|H2].
  { intros [= <-]. cbn [app].
    pose proof (N.div_mod c 64 ltac:(lia)) as D.
    pose proof (N.mod_lt c 64 ltac:(lia)) as M.
    rewrite decode_2 by (hide_divmod; lia). f_equal. hide_divmod; lia. }
  destruct (N.ltb_spec c 0x10000) as [H3|H3].
  { destruct (is_surrogate c) eqn:Hs; [discriminate|].
    apply is_surrogate_false in Hs.
    intros [= <-]. cbn [app].
    pose proof (N.div_mod c 64 ltac:(lia)) as D.
    pose proof (N.mod_lt c 64 ltac:(lia)) as M.
    pose proof (N.div_mod (c / 64) 64 ltac:(lia)) as D2.
    pose proof (N.mod_lt (c / 64) 64 ltac:(lia)) as M2.
    assert (Q : c / 4096 = c / 64 / 64)
      by (now rewrite N.Div0.div_div).
    rewrite Q.
    rewrite decode_3 by (hide_divmod; lia). f_equal. hide_divmod; lia. }
  destruct (N.ltb_spec c 0x110000) as [H4|H4]; [|discriminate].
  intros [= <-]. cbn [app].
  pose proof (N.div_mod c 64 ltac:(lia)) as D.
  pose proof (N.mod_lt c 64 ltac:(lia)) as M.
  pose proof (N.div_mod (c / 64) 64 ltac:(lia)) as D2.
  pose proof (N.mod_lt (c / 64) 64 ltac:(lia)) as M2.
  pose proof (N.div_mod (c / 64 / 64) 64 ltac:(lia)) as D3.
  pose proof (N.mod_lt (c / 64 / 64) 64 ltac:(lia)) as M3.
  assert (Q : c / 4096 = c / 64 / 64) by (now rewrite N.Div0.div_div).
  assert (Q2 : c / 262144 = c / 64 / 64 / 64)
    by (now rewrite !N.Div0.div_div).
  rewrite Q2, Q.
  rewrite decode_4 by (hide_divmod; lia). f_equal. hide_divmod; lia.
Qed.


Lemma utf8_encode_char_bytes (c : char) (bs : list N) :
  utf8_encode_char c = Some bs -> Forall (fun b => b < 256) bs.
Proof.
  unfold utf8_encode_char.
  destruct (N.ltb_spec c 0x80); [intros [= <-]; repeat (apply Forall_cons; [lia|]); apply Forall_nil|].
  pose proof (N.mod_lt c 64 ltac:(lia)).
  pose proof (N.mod_lt (c / 64) 64 ltac:(lia)).
  pose proof (N.mod_lt (c / 4096) 64 ltac:(lia)).
  destruct (N.ltb_spec c 0x800).
  { assert (c / 64 < 32) by (apply N.Div0.div_lt_upper_bound; lia).
    intros [= <-]; repeat (apply Forall_cons; [hide_divmod; lia|]); apply Forall_nil. }
  destruct (N.ltb_spec c 0x10000).
  { destruct (is_surrogate c); [discriminate|].
    assert (c / 4096 < 16) by (apply N.Div0.div_lt_upper_bound; lia).
    intros [= <-]; repeat (apply Forall_cons; [hide_divmod; lia|]); apply Forall_nil. }
  destruct (N.ltb_spec c 0x110000); [|discriminate].
  assert (c / 262144 < 8) by (apply N.Div0.div_lt_upper_bound; lia).
  intros [= <-]; repeat (apply Forall_cons; [hide_divmod; lia|]); apply Forall_nil.
Qed.

Lemma utf8_encode_char_Some (c : char) :
  scalar_value c = true <-> exists bs, utf8_encode_char c = Some bs.
Proof.
  unfold scalar_value, utf8_encode_char, is_surrogate.
  destruct (N.ltb_spec c 0x80); [split; [eauto|] |].
  { intros _. apply andb_true_iff. split; [apply N.ltb_lt; lia|].
    apply negb_true_iff, andb_false_iff. left. apply N.leb_gt. lia. }
  destruct (N.ltb_spec c 0x800); [split; [eauto|] |].
  { intros _. apply andb_true_iff. split; [apply N.ltb_lt; lia|].
    apply negb_true_iff, andb_false_iff. left. apply N.leb_gt. lia. }
  destruct (N.ltb_spec c 0x10000).
  { replace (c <? 0x110000) with true by (symmetry; apply N.ltb_lt; lia).
    destruct ((0xD800 <=? c) && (c <=? 0xDFFF)); simpl; split; eauto;
      try discriminate. intros [? ?]; discriminate. }
  destruct (N.ltb_spec c 0x110000).
  - replace (0xD800 <=? c) with true by (symmetry; apply N.leb_le; lia).
    replace (c <=? 0xDFFF) with false by (symmetry; apply N.leb_gt; lia).
    simpl. split; eauto.
  - simpl. split; [discriminate | intros [? ?]; discriminate].
Qed.

(** The strict encoder succeeds exactly on valid text, and decoding its
    bytes gives the text back. *)
Lemma utf8_encode_from_Ok (s : str) :
  forall i bs, utf8_encode_from i s = Ok bs ->
    utf8_decode_replace bs = s /\ Forall (fun b => b < 256) bs.
Proof.
  induction s as [|c t IH]; intros i bs; simpl.
  - intros [= <-]. split; [reflexivity | constructor].
  - destruct (utf8_encode_char c) as [cs|] eqn:Hc; [|discriminate].
    destruct (utf8_encode_from (S i) t) as [r|] eqn:Ht; [|discriminate].
    intros [= <-]. destruct (IH _ _ Ht) as [Hd Hb]. split.
    + rewrite (decode_encode_char _ _ _ Hc). now rewrite Hd.
    + apply Forall_app. split; [|exact Hb].
      eapply utf8_encode_char_bytes; eauto.
Qed.

Lemma utf8_encode_from_valid (s : str) :
  valid_text s -> forall i, exists bs, utf8_encode_from i s = Ok bs.
Proof.
  induction 1 as [|c t Hc Ht IH]; intros i; simpl; [eauto|].
  apply utf8_encode_char_Some in Hc. destruct Hc as [cs ->].
  destruct (IH (S i)) as [r ->]. eauto.
Qed.

Lemma utf8_encode_from_invalid (s : str) :
  forall i e, utf8_encode_from i s = Raise e ->
    ~ valid_text s /\ exists k, e = UnicodeEncodeError k.
Proof.
  induction s as [|c t IH]; intros i e; simpl; [discriminate|].
  destruct (utf8_encode_char c) as [cs|] eqn:Hc.
  - destruct (utf8_encode_from (S i) t) as [r|e'] eqn:Ht; [discriminate|].
    intros [= <-]. destruct (IH _ _ Ht) as [Hv Hk]. split; [|exact Hk].
    intros Hs. inversion Hs; subst. contradiction.
  - intros [= <-]. split; [|eauto]. intros Hs. inversion Hs; subst.
    apply utf8_encode_char_Some in H1. destruct H1 as [bs Hbs]. congruence.
Qed.

Local Transparent N.add N.sub N.mul N.div N.modulo.

(** A property of the bytes is checked by running through them. *)
Lemma byte_check (P : N -> bool) :
  forallb (fun n => P (N.of_nat n)) (seq 0 256) = true ->
  forall b, b < 256 -> P b = true.
Proof.
  intros H b Hb. rewrite forallb_forall in H.
  rewrite <- (N2Nat.id b). apply H. apply in_seq. lia.
Qed.

Lemma quote_byte_ok_all (b : N) : b < 256 -> quote_byte_ok b = true.
Proof. revert b. apply byte_check. vm_compute. reflexivity. Qed.

Ltac split_andb :=
  repeat match goal with
         | H : _ && _ = true |- _ => apply andb_true_iff in H; destruct H
         end.

Lemma unquote_quote_byte (b : N) (rest : str) :
  b < 256 ->
  unquote_to_bytes (quote_byte b ++ rest) = b :: unquote_to_bytes rest.
Proof.
  intros Hb. pose proof (quote_byte_ok_all b Hb) as H.
  unfold quote_byte_ok in H.
  destruct (quote_byte b) as [|c [|h1 [|h2 [|]]]]; try discriminate;
    split_andb; cbn [app unquote_to_bytes].
  - match goal with H : (c =? b) = true |- _ => apply N.eqb_eq in H; subst c end.
    match goal with H : negb _ = true |- _ => apply negb_true_iff in H; rewrite H end.
    reflexivity.
  - match goal with H : (c =? ch "%") = true |- _ => rewrite H end.
    match goal with H : is_hexdig h1 = true |- _ => rewrite H end.
    match goal with H : is_hexdig h2 = true |- _ => rewrite H end.
    match goal with H : (_ =? b) = true |- _ => apply N.eqb_eq in H; rewrite H end.
    reflexivity.
Qed.

Lemma quote_byte_chars (b : N) :
  b < 256 ->
  Forall (fun c => quoted_char c = true /\ is_ascii c = true) (quote_byte b).
Proof.
  intros Hb. pose proof (quote_byte_ok_all b Hb) as H.
  unfold quote_byte_ok in H.
  destruct (quote_byte b) as [|c [|h1 [|h2 [|]]]]; try discriminate;
    split_andb; repeat (apply Forall_cons; [split|]); try apply Forall_nil;
    try assumption;
    match goal with H : (c =? ch "%") = true |- _ => apply N.eqb_eq in H; subst c end;
    vm_compute; reflexivity.
Qed.

Lemma unquote_to_bytes_quoted (bs : list N) :
  Forall (fun b => b < 256) bs ->
  unquote_to_bytes (flat_map quote_byte bs) = bs
  /\ Forall (fun c => quoted_char c = true /\ is_ascii c = true)
            (flat_map quote_byte bs).
Proof.
  induction 1 as [|b t Hb Ht [IH1 IH2]]; simpl.
  - split; [reflexivity | constructor].
  - split.
    + rewrite unquote_quote_byte by assumption. now rewrite IH1.
    + apply Forall_app. split; [now apply quote_byte_chars | exact IH2].
Qed.

(** [unquote] on ASCII text: the bytes of [unquote_to_bytes], decoded. *)
Lemma unquote_runs_ascii (s : str) :
  forall run, Forall (fun c => is_ascii c = true) s ->
    unquote_runs run s = utf8_decode_replace (unquote_to_bytes (rev run ++ s)).
Proof.
  induction s as [|c t IH]; intros run H; simpl.
  - now rewrite app_nil_r.
  - inversion H; subst. rewrite H2. rewrite IH by assumption.
    simpl. now rewrite <- app_assoc.
Qed.

Lemma utf8_decode_replace_ascii (s : str) :
  Forall (fun c => is_ascii c = true) s -> utf8_decode_replace s = s.
Proof.
  induction 1 as [|c t Hc Ht IH]; [reflexivity|].
  rewrite decode_1 by (now apply N.ltb_lt). now rewrite IH.
Qed.

Lemma unquote_to_bytes_no_percent (s : str) :
  char_in s (ch "%") = false -> unquote_to_bytes s = s.
Proof.
  unfold char_in. induction s as [|c t IH]; [reflexivity|].
  cbn [existsb]. intros H. apply orb_false_iff in H. destruct H as [Hc Ht].
  cbn [unquote_to_bytes]. rewrite N.eqb_sym in Hc. rewrite Hc.
  now rewrite IH.
Qed.

Lemma unquote_ascii (s : str) :
  Forall (fun c => is_ascii c = true) s ->
  unquote s = utf8_decode_replace (unquote_to_bytes s).
Proof.
  intros H. unfold unquote. destruct (char_in s (ch "%")) eqn:Hp.
  - now rewrite unquote_runs_ascii.
  - rewrite unquote_to_bytes_no_percent by assumption.
    now rewrite utf8_decode_replace_ascii.
Qed.

(** [unquote] undoes [quote]. *)
Lemma unquote_quote (s encoded : str) :
  quote s = Ok encoded ->
  unquote encoded = s /\ Forall (fun c => quoted_char c = true) encoded.
Proof.
  unfold quote, utf8_encode, bind.
  destruct (utf8_encode_from 0 s) as [bs|] eqn:He; [|discriminate].
  intros [= <-]. destruct (utf8_encode_from_Ok _ _ _ He) as [Hd Hb].
  destruct (unquote_to_bytes_quoted bs Hb) as [Hu Hq]. split.
  - rewrite unquote_ascii.
    + now rewrite Hu.
    + eapply Forall_impl; [|exact Hq]. now intros c [_ ?].
  - eapply Forall_impl; [|exact Hq]. now intros c [? _].
Qed.

Lemma utf8_encode_from_Ok_valid (s : str) :
  forall i bs, utf8_encode_from i s = Ok bs -> valid_text s.
Proof.
  unfold valid_text.
  induction s as [|c t IH]; intros i bs H; [apply Forall_nil|].
  simpl in H.
  destruct (utf8_encode_char c) as [cs|] eqn:Hc; [|discriminate].
  destruct (utf8_encode_from (S i) t) as [r|] eqn:Ht; [|discriminate].
  apply Forall_cons; [apply utf8_encode_char_Some; eauto | eauto].
Qed.

(** [quote] returns a value exactly on valid text. *)
Lemma quote_valid_text (s : str) :
  valid_text s <-> exists encoded, quote s = Ok encoded.
Proof.
  unfold quote, utf8_encode, bind. split.
  - intros H. destruct (utf8_encode_from_valid s H 0%nat) as [bs ->]. eauto.
  - intros [encoded H].
    destruct (utf8_encode_from 0 s) as [bs|e] eqn:He; [|discriminate].
    eapply utf8_encode_from_Ok_valid; eauto.
Qed.

(* ================================================================= *)
(** ** The share-link builder *)

(* ================================================================= *)
(** ** The share link, parsed back *)

Lemma quoted_char_ascii (c : char) : quoted_char c = true -> c < 128.
Proof.
  unfold quoted_char, quote_safe, is_upper, is_lower, is_digit, char_in, ch.
  simpl. intros H.
  repeat (apply orb_true_iff in H; destruct H as [H|H]);
    try (apply andb_true_iff in H; destruct H as [_ H]; apply N.leb_le in H);
    try apply N.eqb_eq in H; try discriminate; lia.
Qed.

Lemma quoted_char_delimiter_free (c : char) :
  quoted_char c = true -> delimiter_free c = true.
Proof.
  intros H.
  assert (E : implb (quoted_char c) (delimiter_free c) = true).
  { apply quoted_char_ascii in H. revert c H. apply ascii_check.
    vm_compute. reflexivity. }
  now rewrite H in E.
Qed.

Lemma replace_absent (old : char) (new s : str) :
  Forall (fun c => c <> old) s -> replace old new s = s.
Proof.
  unfold replace. induction 1 as [|c t Hc Ht IH]; simpl; [reflexivity|].
  apply N.eqb_neq in Hc. now rewrite Hc, IH.
Qed.

Lemma split1_absent (sep : char) (s : str) :
  Forall (fun c => c <> sep) s -> split1 sep s = (s, None).
Proof.
  induction 1 as [|c t Hc Ht IH]; simpl; [reflexivity|].
  apply N.eqb_neq in Hc. now rewrite Hc, IH.
Qed.

Lemma split_absent (sep : char) (s : str) :
  Forall (fun c => c <> sep) s -> split sep s = [s].
Proof.
  induction 1 as [|c t Hc Ht IH]; simpl; [reflexivity|].
  apply N.eqb_neq in Hc. now rewrite Hc, IH.
Qed.

Lemma delimiter_free_neq (c d : char) :
  delimiter_free c = true ->
  (d <=? 0x20) || char_in (lit "#?&=+;") d = true -> c <> d.
Proof.
  unfold delimiter_free. intros H Hd ->.
  apply andb_true_iff in H. destruct H as [H H2].
  apply andb_true_iff in H. destruct H as [_ H1].
  apply negb_true_iff in H1, H2. rewrite H1, H2 in Hd. discriminate.
Qed.

Lemma quoted_absent (e : str) (d : char) :
  Forall (fun c => quoted_char c = true) e ->
  (d <=? 0x20) || char_in (lit "#?&=+;") d = true ->
  Forall (fun c => c <> d) e.
Proof.
  intros H Hd. eapply Forall_impl; [|exact H]. intros c Hc.
  eapply delimiter_free_neq; eauto. now apply quoted_char_delimiter_free.
Qed.

Section ShareLinkParsed.

Variable check_bracketed_netloc : str -> option str.
Variable nfkc_has_delimiter : str -> bool.

(** Parsing the share link gives back its parts: the encoded text is the
    value of [text] in the query component. *)
Lemma urlparse_intent_url (e : str) :
  Forall (fun c => quoted_char c = true) e ->
  urlparse check_bracketed_netloc nfkc_has_delimiter (INTENT_PREFIX ++ e)
  = Ok (mkParseResult (lit "https") (lit "twitter.com") (lit "/intent/tweet")
          [] (lit "text=" ++ e) []).
Proof.
  intros He.
  pose proof (quoted_absent e 0x09 He eq_refl) as H9.
  pose proof (quoted_absent e 0x0D He eq_refl) as H13.
  pose proof (quoted_absent e 0x0A He eq_refl) as H10.
  pose proof (quoted_absent e 35 He eq_refl) as Hhash.
  pose proof (quoted_absent e 63 He eq_refl) as Hq.
  pose proof (quoted_absent e 59 He eq_refl) as Hsemi.
  unfold urlparse, urlsplit.
  let l := eval vm_compute in INTENT_PREFIX in change INTENT_PREFIX with l.
  cbn [app lstrip_by N.leb N.compare Pos.compare Pos.compare_cont].
  unfold replace at 3. cbn [flat_map app N.eqb Pos.eqb].
  change (flat_map _ e) with (replace 0x09 [] e). rewrite (replace_absent _ _ _ H9).
  unfold replace at 2. cbn [flat_map app N.eqb Pos.eqb].
  change (flat_map _ e) with (replace 0x0D [] e). rewrite (replace_absent _ _ _ H13).
  unfold replace at 1. cbn [flat_map app N.eqb Pos.eqb].
  change (flat_map _ e) with (replace 0x0A [] e). rewrite (replace_absent _ _ _ H10).
  unfold split_scheme. cbn.
  unfold split_at. cbn [split1 N.eqb Pos.eqb].
  rewrite (split1_absent _ _ Hhash). cbn [split1 N.eqb Pos.eqb].
  cbn. reflexivity.
Qed.

(** Reading the query of the share link with [parse_qs] gives the text. *)
Lemma parse_qs_text (e : str) :
  Forall (fun c => quoted_char c = true) e -> e <> [] ->
  parse_qs (lit "text=" ++ e) = [(lit "text", [unquote e])].
Proof.
  intros He Hne.
  pose proof (quoted_absent e 38 He eq_refl) as Hamp.
  pose proof (quoted_absent e 61 He eq_refl) as Heq.
  pose proof (quoted_absent e 43 He eq_refl) as Hplus.
  unfold parse_qs, parse_qsl.
  let l := eval vm_compute in (lit "text=") in change (lit "text=") with l.
  cbn [app]. rewrite split_absent.
  2: { repeat (apply Forall_cons; [discriminate|]). exact Hamp. }
  cbn. rewrite (replace_absent _ _ _ Hplus).
  destruct e as [|c t]; [contradiction | reflexivity].
Qed.

(** C8.  For every text (a sequence of Unicode scalar values, the valid
    text input of the builder), the share link is the fixed
    compose-intent URL followed by the percent-encoded text; the URL
    parses with [text=] and the encoded text as its query component, and
    percent-decoding the encoded text gives the text back.  So it is for
    "a b&c". *)
Theorem x_intent_url_round_trip :
  (forall text, valid_text text ->
     exists encoded u,
       x_intent_url text = Ok (INTENT_PREFIX ++ encoded)
       /\ quote text = Ok encoded
       /\ Forall (fun c => quoted_char c = true) encoded
       /\ urlparse check_bracketed_netloc nfkc_has_delimiter
            (INTENT_PREFIX ++ encoded) = Ok u
       /\ query u = lit "text=" ++ encoded
       /\ unquote encoded = text)
  /\ x_intent_url (lit "a b&c")
     = Ok (lit "https://twitter.com/intent/tweet?text=a%20b%26c")
  /\ unquote (lit "a%20b%26c") = lit "a b&c".
Proof.
  split; [|split; vm_compute; reflexivity].
  intros text Hv. apply quote_valid_text in Hv. destruct Hv as [encoded Hq].
  destruct (unquote_quote _ _ Hq) as [Hu Hc].
  exists encoded.
  exists (mkParseResult (lit "https") (lit "twitter.com") (lit "/intent/tweet")
            [] (lit "text=" ++ encoded) []).
  unfold x_intent_url, bind. rewrite Hq.
  repeat split; try assumption. now apply urlparse_intent_url.
Qed.

(** The whole way round: the link is built, parsed, and the query read
    with [parse_qs]; the parameter [text] holds the original text. *)
Lemma x_intent_url_parse_qs (text url : str) :
  text <> [] -> x_intent_url text = Ok url ->
  exists u,
    urlparse check_bracketed_netloc nfkc_has_delimiter url = Ok u
    /\ dict_get (parse_qs (query u)) (lit "text") = Some [text].
Proof.
  intros Hne. unfold x_intent_url, bind.
  destruct (quote text) as [encoded|] eqn:Hq; [|discriminate].
  intros E. assert (Eu : url = INTENT_PREFIX ++ encoded) by congruence.
  subst url. clear E. destruct (unquote_quote _ _ Hq) as [Hu Hc].
  rewrite (urlparse_intent_url _ Hc). eexists. split; [reflexivity|].
  cbn [query]. rewrite parse_qs_text; [|assumption|].
  - rewrite Hu. reflexivity.
  - intros ->. apply Hne. rewrite <- Hu. reflexivity.
Qed.

End ShareLinkParsed.

Lemma x_intent_url_round_trip_witness :
  exists encoded,
    x_intent_url (lit "Yapay zekâ: %100 yerli mi?")
    = Ok (INTENT_PREFIX ++ encoded)
    /\ unquote encoded = lit "Yapay zekâ: %100 yerli mi?".
Proof.
  destruct (proj1 (x_intent_url_round_trip accept_bracketed no_nfkc_delimiter)
              (lit "Yapay zekâ: %100 yerli mi?"))
    as [encoded [u [H1 [_ [_ [_ [_ H2]]]]]]].
  - apply Forall_forall. intros c Hc.
    assert (F : forallb scalar_value (lit "Yapay zekâ: %100 yerli mi?") = true)
      by (vm_compute; reflexivity).
    rewrite forallb_forall in F. now apply F.
  - exists encoded. split; assumption.
Defined.

(* ================================================================= *)
(** * Further properties of the program *)

(** ** Trimming *)

Lemma forallb_Forall_true (p : char -> bool) (s : str) :
  forallb p s = true -> Forall (fun c => p c = true) s.
Proof.
  intros H. apply Forall_forall. intros x Hx.
  rewrite forallb_forall in H. now apply H.
Qed.

(** A text is whitespace, then the text trimmed, then whitespace. *)
Lemma strip_by_split (p : char -> bool) (s : str) :
  exists pre post,
    s = pre ++ strip_by p s ++ post
    /\ Forall (fun c => p c = true) pre /\ Forall (fun c => p c = true) post.
Proof.
  unfold strip_by, rstrip_by.
  destruct (lstrip_by_split p s) as [pre [E F]].
  destruct (lstrip_by_split p (rev (lstrip_by p s))) as [pre2 [E2 F2]].
  exists pre, (rev pre2). repeat split.
  - rewrite <- rev_app_distr, <- E2, rev_involutive. exact E.
  - now apply forallb_Forall_true.
  - apply Forall_rev. now apply forallb_Forall_true.
Qed.

Lemma strip_pad (a s b : str) :
  blank a -> blank b -> strip (a ++ s ++ b) = strip s.
Proof.
  intros Ha Hb. destruct (strip_by_split isspace s) as [pre [post [E [Hp Hq]]]].
  fold (strip s) in E. rewrite E at 1.
  replace (a ++ (pre ++ strip s ++ post) ++ b)
    with ((a ++ pre) ++ strip s ++ (post ++ b))
    by (now rewrite <- !app_assoc).
  apply strip_core.
  - apply Forall_app. now split.
  - apply Forall_app. now split.
  - apply strip_by_trimmed.
Qed.

Lemma strip_strip (s : str) : strip (strip s) = strip s.
Proof. apply strip_by_fixed. apply strip_by_trimmed. Qed.

Lemma strip_blank (s : str) : strip s = [] <-> blank s.
Proof.
  split.
  - intros H. destruct (strip_by_split isspace s) as [pre [post [E [Hp Hq]]]].
    fold (strip s) in E. rewrite H in E. rewrite E. apply Forall_app. now split.
  - intros H. rewrite <- (app_nil_r s), <- (app_nil_l (s ++ [])).
    replace ([] ++ s ++ []) with (s ++ [] ++ []) by now rewrite !app_nil_r.
    rewrite (strip_pad s [] []); [reflexivity | exact H | constructor].
Qed.

(** ** Parsing a URL made of known parts *)

Lemma class_absent (P : char -> bool) (d : char) :
  (forall c, P c = true -> c < 128) ->
  forallb (fun n => implb (P (N.of_nat n)) (negb (N.of_nat n =? d))) (seq 0 128)
  = true ->
  forall s, Forall (fun c => P c = true) s -> Forall (fun c => c <> d) s.
Proof.
  intros Hlt Hall s. apply Forall_impl. intros c Hc.
  pose proof (ascii_check (fun c => implb (P c) (negb (c =? d))) Hall c (Hlt c Hc))
    as E.
  cbn beta in E. rewrite Hc in E. cbn [implb] in E.
  apply negb_true_iff in E. now apply N.eqb_neq.
Qed.

Lemma host_char_ascii (c : char) : host_char c = true -> c < 128.
Proof.
  unfold host_char, is_upper, is_lower, is_digit, ch. simpl. intros H.
  repeat (apply orb_true_iff in H; destruct H as [H|H]);
    try (apply andb_true_iff in H; destruct H as [_ H]; apply N.leb_le in H);
    try apply N.eqb_eq in H; lia.
Qed.

Lemma url_text_ascii (c : char) : url_text c = true -> c < 128.
Proof.
  unfold url_text. intros H. apply andb_true_iff in H. destruct H as [H _].
  apply andb_true_iff in H. destruct H as [_ H]. apply N.ltb_lt in H. lia.
Qed.

Lemma path_text_url_text (c : char) : path_text c = true -> url_text c = true.
Proof.
  unfold path_text. intros H. apply andb_true_iff in H. destruct H as [H _].
  apply andb_true_iff in H. now destruct H.
Qed.

Lemma path_text_ascii (c : char) : path_text c = true -> c < 128.
Proof. intros H. now apply url_text_ascii, path_text_url_text. Qed.

Lemma host_absent (d : char) (s : str) :
  host_char d = false -> Forall (fun c => host_char c = true) s ->
  Forall (fun c => c <> d) s.
Proof.
  intros Hd. apply Forall_impl. intros c Hc ->. congruence.
Qed.

Lemma url_text_absent (d : char) (s : str) :
  url_text d = false -> Forall (fun c => url_text c = true) s ->
  Forall (fun c => c <> d) s.
Proof.
  intros Hd. apply Forall_impl. intros c Hc ->. congruence.
Qed.

Lemma path_text_absent (d : char) (s : str) :
  path_text d = false -> Forall (fun c => path_text c = true) s ->
  Forall (fun c => c <> d) s.
Proof.
  intros Hd. apply Forall_impl. intros c Hc ->. congruence.
Qed.

Lemma break_at_app (p : char -> bool) (a b : str) :
  Forall (fun c => p c = false) a ->
  match b with [] => True | c :: _ => p c = true end ->
  break_at p (a ++ b) = (a, b).
Proof.
  intros Ha Hb. induction Ha as [|c a Hc _ IH]; simpl.
  - destruct b as [|c b]; [reflexivity|]. simpl. now rewrite Hb.
  - now rewrite Hc, IH.
Qed.

Lemma split1_app (sep : char) (a b : str) :
  Forall (fun c => c <> sep) a ->
  split1 sep (a ++ sep :: b) = (a, Some b).
Proof.
  induction 1 as [|c a Hc _ IH]; simpl.
  - now rewrite N.eqb_refl.
  - apply N.eqb_neq in Hc. now rewrite Hc, IH.
Qed.

Lemma replace_app (old : char) (new a b : str) :
  replace old new (a ++ b) = replace old new a ++ replace old new b.
Proof. unfold replace. apply flat_map_app. Qed.

Lemma char_in_absent (s : str) (d : char) :
  Forall (fun c => c <> d) s -> char_in s d = false.
Proof.
  unfold char_in. induction 1 as [|c s Hc _ IH]; simpl; [reflexivity|].
  rewrite IH, orb_false_r. apply N.eqb_neq. congruence.
Qed.

Lemma above_space_absent (d : char) (s : str) :
  d <= 0x20 -> Forall (fun c => (0x20 <? c) = true) s ->
  Forall (fun c => c <> d) s.
Proof.
  intros Hd. apply Forall_impl. intros c Hc ->. apply N.ltb_lt in Hc. lia.
Qed.

Lemma host_char_above_space (c : char) :
  host_char c = true -> (0x20 <? c) = true.
Proof.
  intros H.
  assert (E : implb (host_char c) (0x20 <? c) = true).
  { apply host_char_ascii in H. revert c H. apply ascii_check.
    vm_compute. reflexivity. }
  rewrite H in E. exact E.
Qed.

Lemma url_text_above_space (c : char) :
  url_text c = true -> (0x20 <? c) = true.
Proof.
  unfold url_text. intros H. apply andb_true_iff in H. destruct H as [H _].
  apply andb_true_iff in H. now destruct H.
Qed.

Section UrlOfParts.

Variable check_bracketed_netloc : str -> option str.
Variable nfkc_has_delimiter : str -> bool.

Let parse := urlparse check_bracketed_netloc nfkc_has_delimiter.
Let split_url := urlsplit check_bracketed_netloc nfkc_has_delimiter.

(** On a text of characters above the space, [urlsplit] has nothing to
    remove before it reads the parts. *)
Lemma urlsplit_above_space (url : str) :
  Forall (fun c => (0x20 <? c) = true) url ->
  split_url url
  = (let '(scheme, url) := split_scheme url in
     r <- split_netloc check_bracketed_netloc url ;;
     let '(netloc, url) := r in
     let '(url, fragment) := split_at (ch "#") url in
     let '(url, query) := split_at (ch "?") url in
     _ <- _checknetloc nfkc_has_delimiter netloc ;;
     Ok (mkParseResult scheme netloc url [] query fragment)).
Proof.
  intros H. unfold split_url, urlsplit.
  rewrite (lstrip_by_head (fun c => c <=? 0x20) url).
  2: { destruct H as [|c t Hc _]; [exact I|]. apply N.ltb_lt in Hc.
       apply N.leb_gt. exact Hc. }
  rewrite (replace_absent 0x09 [] url) by (apply above_space_absent; [lia | exact H]).
  rewrite (replace_absent 0x0D [] url) by (apply above_space_absent; [lia | exact H]).
  rewrite (replace_absent 0x0A [] url) by (apply above_space_absent; [lia | exact H]).
  reflexivity.
Qed.

Lemma split_netloc_host (host rest : str) :
  Forall (fun c => host_char c = true) host ->
  match rest with [] => True | c :: _ => char_in (lit "/?#") c = true end ->
  split_netloc check_bracketed_netloc (lit "//" ++ host ++ rest)
  = Ok (host, rest).
Proof.
  intros Hh Hr. unfold split_netloc.
  change (lit "//" ++ host ++ rest) with (ch "/" :: ch "/" :: host ++ rest).
  cbv iota. rewrite N.eqb_refl. cbn [andb].
  rewrite break_at_app.
  - rewrite (char_in_absent host (ch "[")), (char_in_absent host (ch "]"));
      [reflexivity | |]; apply host_absent; (reflexivity || assumption).
  - revert Hh. apply Forall_impl. intros c Hc.
    assert (E : implb (host_char c) (negb (char_in (lit "/?#") c)) = true).
    { apply host_char_ascii in Hc. revert c Hc. apply ascii_check.
      vm_compute. reflexivity. }
    rewrite Hc in E. cbn [implb] in E. now apply negb_true_iff.
  - exact Hr.
Qed.

Lemma _checknetloc_host (host : str) :
  Forall (fun c => host_char c = true) host ->
  _checknetloc nfkc_has_delimiter host = Ok tt.
Proof.
  intros H. unfold _checknetloc. destruct host as [|c t]; [reflexivity|].
  replace (forallb is_ascii (c :: t)) with true; [reflexivity|].
  symmetry. apply forallb_forall. intros x Hx.
  rewrite Forall_forall in H. apply N.ltb_lt. apply host_char_ascii. now apply H.
Qed.

(** The parts of [https://host path ? query]. *)
Lemma urlparse_https_query (host pth qry : str) :
  Forall (fun c => host_char c = true) host ->
  Forall (fun c => path_text c = true) pth -> rooted pth ->
  Forall (fun c => url_text c = true) qry ->
  parse (lit "https://" ++ host ++ pth ++ ch "?" :: qry)
  = Ok (mkParseResult (lit "https") host pth [] qry []).
Proof.
  intros Hh Hp Hr Hq. unfold parse, urlparse.
  fold split_url. rewrite urlsplit_above_space.
  2: { apply Forall_app. split; [apply forallb_Forall_true; vm_compute; reflexivity|].
       apply Forall_app. split.
       { revert Hh. apply Forall_impl. apply host_char_above_space. }
       apply Forall_app. split.
       { revert Hp. apply Forall_impl. intros c Hc.
         now apply url_text_above_space, path_text_url_text. }
       constructor; [reflexivity|].
       revert Hq. apply Forall_impl. apply url_text_above_space. }
  assert (Es : split_scheme (lit "https://" ++ host ++ pth ++ ch "?" :: qry)
               = (lit "https", lit "//" ++ host ++ pth ++ ch "?" :: qry)).
  { reflexivity. }
  rewrite Es.
  rewrite (split_netloc_host host (pth ++ ch "?" :: qry) Hh).
  2: { destruct pth as [|c t]; [reflexivity|]. simpl in Hr. subst c. reflexivity. }
  cbn [bind].
  assert (Ef : split_at (ch "#") (pth ++ ch "?" :: qry)
               = (pth ++ ch "?" :: qry, [])).
  { unfold split_at. rewrite split1_absent; [reflexivity|].
    apply Forall_app. split.
    - apply path_text_absent; [reflexivity | exact Hp].
    - constructor; [discriminate|]. apply url_text_absent; [reflexivity | exact Hq]. }
  rewrite Ef.
  assert (Eq : split_at (ch "?") (pth ++ ch "?" :: qry) = (pth, qry)).
  { unfold split_at. rewrite split1_app; [reflexivity|].
    apply path_text_absent; [reflexivity | exact Hp]. }
  rewrite Eq. rewrite (_checknetloc_host host Hh). cbn [bind scheme path].
  rewrite (char_in_absent pth (ch ";")), andb_false_r; [reflexivity|].
  apply path_text_absent; [reflexivity | exact Hp].
Qed.

(** The parts of [https://host path]. *)
Lemma urlparse_https_path (host pth : str) :
  Forall (fun c => host_char c = true) host ->
  Forall (fun c => path_text c = true) pth -> rooted pth ->
  parse (lit "https://" ++ host ++ pth)
  = Ok (mkParseResult (lit "https") host pth [] [] []).
Proof.
  intros Hh Hp Hr. unfold parse, urlparse.
  fold split_url. rewrite urlsplit_above_space.
  2: { apply Forall_app. split; [apply forallb_Forall_true; vm_compute; reflexivity|].
       apply Forall_app. split.
       { revert Hh. apply Forall_impl. apply host_char_above_space. }
       revert Hp. apply Forall_impl. intros c Hc.
       now apply url_text_above_space, path_text_url_text. }
  assert (Es : split_scheme (lit "https://" ++ host ++ pth)
               = (lit "https", lit "//" ++ host ++ pth)).
  { reflexivity. }
  rewrite Es.
  rewrite (split_netloc_host host pth Hh).
  2: { destruct pth as [|c t]; [reflexivity|]. simpl in Hr. subst c. reflexivity. }
  cbn [bind].
  assert (Ef : split_at (ch "#") pth = (pth, [])).
  { unfold split_at. rewrite split1_absent; [reflexivity|].
    apply path_text_absent; [reflexivity | exact Hp]. }
  rewrite Ef.
  assert (Eq : split_at (ch "?") pth = (pth, [])).
  { unfold split_at. rewrite split1_absent; [reflexivity|].
    apply path_text_absent; [reflexivity | exact Hp]. }
  rewrite Eq. rewrite (_checknetloc_host host Hh). cbn [bind scheme path].
  rewrite (char_in_absent pth (ch ";")), andb_false_r; [reflexivity|].
  apply path_text_absent; [reflexivity | exact Hp].
Qed.

End UrlOfParts.

(** ** The first segment of a path, the parameter [v] of a query *)

Lemma lstrip_by_app_stop (p : char -> bool) (x y : str) :
  match y with [] => True | c :: _ => p c = false end ->
  lstrip_by p (x ++ y) = lstrip_by p x ++ y.
Proof.
  intros Hy. induction x as [|c x IH]; simpl.
  - now apply lstrip_by_head.
  - destruct (p c); [exact IH | reflexivity].
Qed.

Lemma rstrip_by_app_keep (p : char -> bool) (a : str) (z : char) (b : str) :
  p z = false ->
  rstrip_by p ((a ++ [z]) ++ b) = (a ++ [z]) ++ rstrip_by p b.
Proof.
  intros Hz. unfold rstrip_by. rewrite rev_app_distr.
  rewrite lstrip_by_app_stop.
  - now rewrite rev_app_distr, rev_involutive.
  - rewrite rev_app_distr. exact Hz.
Qed.

Lemma rstrip_by_prefix (p : char -> bool) (s : str) :
  exists post, s = rstrip_by p s ++ post.
Proof.
  unfold rstrip_by. destruct (lstrip_by_split p (rev s)) as [pre [E _]].
  exists (rev pre). rewrite <- rev_app_distr, <- E. now rewrite rev_involutive.
Qed.

Lemma split_app_sep (sep : char) (a b : str) :
  Forall (fun c => c <> sep) a ->
  split sep (a ++ sep :: b) = a :: split sep b.
Proof.
  induction 1 as [|c a Hc _ IH]; simpl.
  - now rewrite N.eqb_refl.
  - apply N.eqb_neq in Hc. now rewrite Hc, IH.
Qed.

(** The first segment of [/seg rest], when [rest] is empty or starts a
    further segment. *)
Lemma first_segment_head (seg rest : str) :
  seg <> [] -> Forall (fun c => c <> ch "/") seg -> rooted rest ->
  first_segment (ch "/" :: seg ++ rest) = seg.
Proof.
  intros Hne Hs Hr. unfold first_segment, strip_chars, strip_by.
  destruct (exists_last Hne) as [a [z E]]. subst seg.
  assert (Hz : char_in (lit "/") z = false).
  { apply Forall_app in Hs. destruct Hs as [_ Hs].
    inversion Hs as [|? ? Hz _]; subst. unfold char_in. cbn.
    rewrite orb_false_r. now apply N.eqb_neq. }
  assert (Hl : lstrip_by (char_in (lit "/")) (ch "/" :: (a ++ [z]) ++ rest)
               = (a ++ [z]) ++ rest).
  { cbn [lstrip_by]. replace (char_in (lit "/") (ch "/")) with true by reflexivity.
    apply lstrip_by_head. destruct a as [|c a]; cbn [app].
    - exact Hz.
    - inversion Hs as [|? ? Hc _]; subst. unfold char_in. cbn.
      rewrite orb_false_r. now apply N.eqb_neq. }
  rewrite Hl, (rstrip_by_app_keep _ _ _ _ Hz).
  destruct (rstrip_by_prefix (char_in (lit "/")) rest) as [post Ep].
  destruct (rstrip_by (char_in (lit "/")) rest) as [|c r].
  - rewrite app_nil_r, split_absent; [reflexivity | exact Hs].
  - rewrite Ep in Hr. simpl in Hr. subst c.
    rewrite split_app_sep; [reflexivity | exact Hs].
Qed.

Lemma id_char_absent (d : char) (s : str) :
  id_char d = false -> Forall (fun c => id_char c = true) s ->
  Forall (fun c => c <> d) s.
Proof.
  intros Hd. apply Forall_impl. intros c Hc ->. congruence.
Qed.

Lemma valid_id_id_chars (id : str) :
  valid_id id -> Forall (fun c => id_char c = true) id.
Proof.
  intros [_ H]. revert H. apply Forall_impl. intros c. apply id_char_alphabet.
Qed.

Lemma unquote_id_chars (s : str) :
  Forall (fun c => id_char c = true) s -> unquote s = s.
Proof.
  intros H. unfold unquote.
  now rewrite (char_in_absent s (ch "%") (id_char_absent (ch "%") s eq_refl H)).
Qed.

Lemma parse_qsl_fields (qs : str) :
  parse_qsl qs = flat_map parse_field (split (ch "&") qs).
Proof. destruct qs; reflexivity. Qed.

Lemma parse_qsl_app (a b : str) :
  Forall (fun c => c <> ch "&") a ->
  parse_qsl (a ++ ch "&" :: b) = parse_field a ++ parse_qsl b.
Proof.
  intros H. rewrite !parse_qsl_fields, split_app_sep by exact H. reflexivity.
Qed.

(** One field [v=value] of a query, as [parse_qsl] reads it. *)
Lemma parse_field_v (v : str) :
  Forall (fun c => id_char c = true) v ->
  parse_field (lit "v=" ++ v)
  = match v with [] => [] | _ => [(lit "v", v)] end.
Proof.
  intros H. unfold parse_field.
  change (lit "v=" ++ v) with (ch "v" :: ch "=" :: v).
  cbn [split1]. replace (ch "v" =? ch "=") with false by reflexivity.
  rewrite N.eqb_refl.
  destruct v as [|c t]; [reflexivity|].
  rewrite (replace_absent (ch "+") _ (c :: t)) by (now apply id_char_absent).
  rewrite (unquote_id_chars _ H). reflexivity.
Qed.

Lemma dict_get_set_same {V} (d : dict V) (k : str) (v : V) :
  dict_get (dict_set d k v) k = Some v.
Proof.
  induction d as [|[k' v'] d IH]; simpl.
  - now rewrite (proj2 (str_eqb_eq k k) eq_refl).
  - destruct (str_eqb k' k) eqn:E; simpl; rewrite E; [reflexivity | exact IH].
Qed.

Lemma dict_get_set_other {V} (d : dict V) (k k0 : str) (v : V) :
  k <> k0 -> dict_get (dict_set d k v) k0 = dict_get d k0.
Proof.
  intros Hk. induction d as [|[k' v'] d IH]; simpl.
  - destruct (str_eqb k k0) eqn:E; [|reflexivity].
    apply str_eqb_eq in E. contradiction.
  - destruct (str_eqb k' k) eqn:E; simpl.
    + apply str_eqb_eq in E. subst k'.
      destruct (str_eqb k k0) eqn:E0; [|reflexivity].
      apply str_eqb_eq in E0. contradiction.
    + destruct (str_eqb k' k0); [reflexivity | exact IH].
Qed.

(** Once a name has a first value, [parse_qs] keeps it first. *)
Lemma parse_qs_fold_first (pairs : list (str * str)) :
  forall (d : dict (list str)) (k v : str) (vs : list str),
    dict_get d k = Some (v :: vs) ->
    exists vs',
      dict_get
        (fold_left
           (fun parsed_result '(name, value) =>
              match dict_get parsed_result name with
              | Some values => dict_set parsed_result name (values ++ [value])
              | None => dict_set parsed_result name [value]
              end) pairs d) k
      = Some (v :: vs').
Proof.
  induction pairs as [|[name value] pairs IH]; intros d k v vs Hd; simpl.
  - eauto.
  - destruct (list_eq_dec N.eq_dec name k) as [->|Hne].
    + rewrite Hd. eapply IH. rewrite dict_get_set_same. reflexivity.
    + destruct (dict_get d name) as [values|];
        (eapply IH; rewrite dict_get_set_other by exact Hne; exact Hd).
Qed.

(** The parameter [v] of a query that starts with [v=id]: the identifier,
    whatever follows the next [&]. *)
Lemma query_v_first (id rest : str) :
  id <> [] -> Forall (fun c => id_char c = true) id ->
  query_v (lit "v=" ++ id ++ ch "&" :: rest) = id.
Proof.
  intros Hne Hid. unfold query_v, parse_qs.
  rewrite app_assoc, parse_qsl_app.
  2: { apply Forall_app. split; [|now apply id_char_absent].
       repeat (constructor; [discriminate|]). constructor. }
  rewrite (parse_field_v id Hid).
  destruct id as [|c t]; [contradiction|]. cbn [app fold_left].
  match goal with
  | |- context [fold_left ?f ?l ?d] =>
    destruct (parse_qs_fold_first l d (lit "v") (c :: t) []) as [vs' E]
  end.
  { reflexivity. }
  rewrite E. reflexivity.
Qed.

Lemma query_v_only (v : str) :
  Forall (fun c => id_char c = true) v ->
  query_v (lit "v=" ++ v) = v.
Proof.
  intros Hv. unfold query_v, parse_qs.
  rewrite parse_qsl_fields, split_absent.
  2: { apply Forall_app. split; [|now apply id_char_absent].
       repeat (constructor; [discriminate|]). constructor. }
  cbn [flat_map]. rewrite app_nil_r, (parse_field_v v Hv).
  destruct v as [|c t]; reflexivity.
Qed.

(** ** The extractor on URLs made of known parts *)

Lemma strip_no_space (s : str) :
  Forall (fun c => isspace c = false) s -> strip s = s.
Proof.
  intros H. apply strip_by_none. apply forallb_forall. intros c Hc.
  rewrite Forall_forall in H. apply negb_true_iff. now apply H.
Qed.

Lemma host_char_not_space (c : char) : host_char c = true -> isspace c = false.
Proof.
  intros H.
  assert (E : implb (host_char c) (negb (isspace c)) = true).
  { apply host_char_ascii in H. revert c H. apply ascii_check.
    vm_compute. reflexivity. }
  rewrite H in E. cbn [implb] in E. now apply negb_true_iff.
Qed.

Lemma url_text_not_space (c : char) : url_text c = true -> isspace c = false.
Proof.
  intros H.
  assert (E : implb (url_text c) (negb (isspace c)) = true).
  { apply url_text_ascii in H. revert c H. apply ascii_check.
    vm_compute. reflexivity. }
  rewrite H in E. cbn [implb] in E. now apply negb_true_iff.
Qed.

Lemma id_char_path_text (c : char) : id_char c = true -> path_text c = true.
Proof.
  intros H.
  assert (E : implb (id_char c) (path_text c) = true).
  { apply id_char_ascii in H. revert c H. apply ascii_check.
    vm_compute. reflexivity. }
  rewrite H in E. destruct (path_text c); [reflexivity | discriminate E].
Qed.

Lemma id_char_url_text (c : char) : id_char c = true -> url_text c = true.
Proof. intros H. now apply path_text_url_text, id_char_path_text. Qed.

Lemma search_at_start (p : pattern) (s m r : str) :
  match_at p s = Some (m, r) -> search p s = Some m.
Proof. intros H. destruct s; simpl; now rewrite H. Qed.

Lemma search_SHORTS_RE_start (id tail : str) :
  valid_id id ->
  search SHORTS_RE (lit "/shorts/" ++ id ++ tail) = Some (lit "/shorts/" ++ id).
Proof.
  intros H. apply (search_at_start _ _ _ tail).
  rewrite app_assoc. apply match_at_complete.
  unfold SHORTS_RE. apply Forall2_app.
  - unfold literal. induction (lit "/shorts/") as [|c l IH]; simpl; constructor;
      [apply N.eqb_refl | exact IH].
  - now apply Forall2_ID_RE.
Qed.

(** A path with one [/] holds no [/shorts/]. *)
Lemma search_SHORTS_RE_one_segment (seg : str) :
  Forall (fun c => c <> ch "/") seg ->
  search SHORTS_RE (ch "/" :: seg) = None.
Proof.
  intros H. destruct (search SHORTS_RE (ch "/" :: seg)) eqn:E; [|reflexivity].
  exfalso.
  assert (N : search SHORTS_RE (ch "/" :: seg) <> None) by (rewrite E; discriminate).
  apply search_SHORTS_RE_iff in N. destruct N as [pre [id [post [Ep _]]]].
  assert (Hin : In (ch "/") seg).
  { destruct pre as [|c pre].
    - assert (El : lit "/shorts/" ++ id ++ post
                   = ch "/" :: lit "shorts" ++ ch "/" :: id ++ post)
        by reflexivity.
      rewrite El in Ep. cbn [app] in Ep. injection Ep as Ep. rewrite Ep.
      first [apply in_elt | cbn [In]; repeat (first [left; reflexivity | right])].
    - assert (El : lit "/shorts/" ++ id ++ post
                   = [] ++ ch "/" :: lit "shorts/" ++ id ++ post)
        by reflexivity.
      rewrite El in Ep. cbn [app] in Ep. injection Ep as _ Ep. rewrite Ep.
      first [apply in_elt | cbn [In]; repeat (first [left; reflexivity | right])]. }
  rewrite Forall_forall in H. now apply (H _ Hin).
Qed.

Section ExtractorOnUrls.

Variable check_bracketed_netloc : str -> option str.
Variable nfkc_has_delimiter : str -> bool.

Let parse := urlparse check_bracketed_netloc nfkc_has_delimiter.
Let extract := extract_video_id check_bracketed_netloc nfkc_has_delimiter.

(** The decisions of the extractor, once the reference is parsed. *)
Lemma extract_video_id_parsed (url : str) (u : ParseResult) :
  fullmatch ID_RE (strip url) = false ->
  parse (strip url) = Ok u ->
  extract url
  = if existsb (str_eqb (netloc u)) SHORT_LINK_HOSTS
       && fullmatch ID_RE (first_segment (path u))
    then Ok (first_segment (path u))
    else if str_eqb (path u) (lit "/watch")
            && fullmatch ID_RE (query_v (query u))
    then Ok (query_v (query u))
    else match search SHORTS_RE (path u) with
         | Some m => Ok (SHORTS_group1 m)
         | None => Raise EXTRACT_ERROR
         end.
Proof.
  intros Hb Hp. unfold extract, extract_video_id. cbv zeta.
  rewrite Hb. fold parse. rewrite Hp. cbn [bind].
  rewrite watch_vid_query_v. reflexivity.
Qed.

(** The result of the extractor is an identifier, as the pattern has
    it. *)
Lemma extract_video_id_fullmatch (url vid : str) :
  extract url = Ok vid -> fullmatch ID_RE vid = true.
Proof.
  unfold extract, extract_video_id, bind. cbv zeta.
  destruct (fullmatch ID_RE (strip url)) eqn:Hbare.
  { now intros [= <-]. }
  destruct (urlparse _ _ (strip url)) as [u|e]; [|discriminate].
  destruct (existsb _ _ && fullmatch ID_RE _) eqn:Hshort.
  { intros [= <-]. now apply andb_true_iff in Hshort. }
  destruct (str_eqb (path u) _ && fullmatch ID_RE _) eqn:Hwatch.
  { intros [= <-]. now apply andb_true_iff in Hwatch. }
  destruct (search SHORTS_RE (path u)) as [m|] eqn:Hs; [|discriminate].
  intros [= <-]. apply fullmatch_ID_RE. now apply (search_SHORTS_RE (path u)).
Qed.

End ExtractorOnUrls.

Section ExtractorFamilies.

Variable check_bracketed_netloc : str -> option str.
Variable nfkc_has_delimiter : str -> bool.

Let parse := urlparse check_bracketed_netloc nfkc_has_delimiter.
Let extract := extract_video_id check_bracketed_netloc nfkc_has_delimiter.

(** X1.  Whitespace around the reference never matters: the extractor
    gives the same result, value or error, with and without it. *)
Theorem extract_video_id_surrounding_whitespace (a url b : str) :
  blank a -> blank b -> extract (a ++ url ++ b) = extract url.
Proof.
  intros Ha Hb. unfold extract, extract_video_id.
  now rewrite (strip_pad a url b Ha Hb).
Qed.

(** X2.  The extractor is idempotent: an identifier it has returned is a
    reference it returns unchanged. *)
Theorem extract_video_id_idempotent (url vid : str) :
  extract url = Ok vid -> extract vid = Ok vid.
Proof.
  intros H. apply extract_video_id_fullmatch in H.
  unfold extract, extract_video_id. cbv zeta.
  rewrite (strip_valid_id vid) by now apply fullmatch_ID_RE.
  now rewrite H.
Qed.

(** A URL [https://host rest] is not a bare identifier, and trimming
    leaves it as it is. *)
Lemma https_not_bare (host rest : str) :
  Forall (fun c => host_char c = true) host ->
  Forall (fun c => url_text c = true) rest ->
  strip (lit "https://" ++ host ++ rest) = lit "https://" ++ host ++ rest
  /\ fullmatch ID_RE (lit "https://" ++ host ++ rest) = false.
Proof.
  intros Hh Hr. split; [|reflexivity].
  apply strip_no_space. apply Forall_app. split.
  - apply Forall_forall. intros c Hc.
    assert (F : forallb (fun c => negb (isspace c)) (lit "https://") = true)
      by (vm_compute; reflexivity).
    rewrite forallb_forall in F. apply negb_true_iff. now apply F.
  - apply Forall_app. split.
    + revert Hh. apply Forall_impl. apply host_char_not_space.
    + revert Hr. apply Forall_impl. apply url_text_not_space.
Qed.

Lemma extract_video_id_https (host rest : str) (u : ParseResult) :
  Forall (fun c => host_char c = true) host ->
  Forall (fun c => url_text c = true) rest ->
  parse (lit "https://" ++ host ++ rest) = Ok u ->
  extract (lit "https://" ++ host ++ rest)
  = if existsb (str_eqb (netloc u)) SHORT_LINK_HOSTS
       && fullmatch ID_RE (first_segment (path u))
    then Ok (first_segment (path u))
    else if str_eqb (path u) (lit "/watch")
            && fullmatch ID_RE (query_v (query u))
    then Ok (query_v (query u))
    else match search SHORTS_RE (path u) with
         | Some m => Ok (SHORTS_group1 m)
         | None => Raise EXTRACT_ERROR
         end.
Proof.
  intros Hh Hr Hp. destruct (https_not_bare host rest Hh Hr) as [Es Eb].
  apply extract_video_id_parsed; rewrite Es; assumption.
Qed.

Lemma first_segment_one (seg : str) :
  Forall (fun c => id_char c = true) seg ->
  first_segment (ch "/" :: seg) = seg.
Proof.
  intros H. destruct seg as [|c t]; [reflexivity|].
  rewrite <- (app_nil_r (c :: t)) at 1.
  apply first_segment_head; [discriminate | | exact I].
  now apply id_char_absent.
Qed.

Lemma In_SHORT_LINK_HOSTS (host : str) :
  existsb (str_eqb host) SHORT_LINK_HOSTS = true <-> In host SHORT_LINK_HOSTS.
Proof.
  rewrite existsb_exists. split.
  - intros [x [Hx E]]. apply str_eqb_eq in E. now subst.
  - intros H. exists host. split; [exact H | now apply str_eqb_eq].
Qed.

(** X3.  On a URL [https://host/segment] the segment is returned exactly
    when the host is spelled [youtu.be] or [www.youtu.be] and the segment
    is an identifier; with any other host, or a segment that is shorter
    or longer, the extractor raises its [ValueError]. *)
Theorem extract_video_id_single_segment (host seg : str) :
  Forall (fun c => host_char c = true) host ->
  Forall (fun c => id_char c = true) seg ->
  (In host SHORT_LINK_HOSTS /\ valid_id seg ->
   extract (lit "https://" ++ host ++ ch "/" :: seg) = Ok seg)
  /\ (~ (In host SHORT_LINK_HOSTS /\ valid_id seg) ->
      extract (lit "https://" ++ host ++ ch "/" :: seg) = Raise EXTRACT_ERROR).
Proof.
  intros Hh Hs.
  assert (Hp : Forall (fun c => path_text c = true) (ch "/" :: seg)).
  { constructor; [reflexivity|]. revert Hs. apply Forall_impl.
    apply id_char_path_text. }
  assert (E : extract (lit "https://" ++ host ++ ch "/" :: seg)
              = if existsb (str_eqb host) SHORT_LINK_HOSTS && fullmatch ID_RE seg
                then Ok seg else Raise EXTRACT_ERROR).
  { rewrite (extract_video_id_https host (ch "/" :: seg)
               (mkParseResult (lit "https") host (ch "/" :: seg) [] [] [])).
    - cbn [netloc path query]. rewrite (first_segment_one seg Hs).
      destruct (existsb _ _ && fullmatch ID_RE seg); [reflexivity|].
      replace (fullmatch ID_RE (query_v [])) with false by reflexivity.
      rewrite andb_false_r.
      rewrite search_SHORTS_RE_one_segment; [reflexivity|].
      now apply id_char_absent.
    - exact Hh.
    - revert Hp. apply Forall_impl. apply path_text_url_text.
    - apply urlparse_https_path; [exact Hh | exact Hp | reflexivity]. }
  rewrite E. split.
  - intros [H1 H2]. apply In_SHORT_LINK_HOSTS in H1. apply fullmatch_ID_RE in H2.
    now rewrite H1, H2.
  - intros N. destruct (existsb _ _ && fullmatch ID_RE seg) eqn:C; [|reflexivity].
    exfalso. apply N. apply andb_true_iff in C. destruct C as [C1 C2]. split.
    + now apply In_SHORT_LINK_HOSTS.
    + now apply fullmatch_ID_RE.
Qed.


Lemma str_eqb_neq (a b : str) : a <> b -> str_eqb a b = false.
Proof.
  intros H. destruct (str_eqb a b) eqn:E; [|reflexivity].
  apply str_eqb_eq in E. contradiction.
Qed.

(** X4.  On a URL [https://host/watch?v=value] the host is not looked at:
    with any host the value is returned when it is an identifier, also
    when further parameters follow it, and the extractor raises its
    [ValueError] when the value is shorter or longer. *)
Theorem extract_video_id_watch (host v rest : str) :
  Forall (fun c => host_char c = true) host ->
  Forall (fun c => id_char c = true) v ->
  Forall (fun c => url_text c = true) rest ->
  (valid_id v ->
   extract (lit "https://" ++ host ++ lit "/watch?v=" ++ v) = Ok v
   /\ extract (lit "https://" ++ host ++ lit "/watch?v=" ++ v ++ ch "&" :: rest)
      = Ok v)
  /\ (~ valid_id v ->
      extract (lit "https://" ++ host ++ lit "/watch?v=" ++ v)
      = Raise EXTRACT_ERROR).
Proof.
  intros Hh Hv Hr.
  assert (Hw : Forall (fun c => path_text c = true) (lit "/watch")).
  { apply forallb_Forall_true. vm_compute. reflexivity. }
  assert (Hq : forall q, Forall (fun c => url_text c = true) q ->
            extract (lit "https://" ++ host ++ lit "/watch" ++ ch "?" :: q)
            = if fullmatch ID_RE (query_v q) then Ok (query_v q)
              else Raise EXTRACT_ERROR).
  { intros q Hq.
    rewrite (extract_video_id_https host (lit "/watch" ++ ch "?" :: q)
               (mkParseResult (lit "https") host (lit "/watch") [] q [])).
    - cbn [netloc path query].
      replace (fullmatch ID_RE (first_segment (lit "/watch"))) with false
        by (vm_compute; reflexivity).
      rewrite andb_false_r.
      replace (str_eqb (lit "/watch") (lit "/watch")) with true
        by (vm_compute; reflexivity).
      cbn [andb]. destruct (fullmatch ID_RE (query_v q)); reflexivity.
    - exact Hh.
    - apply Forall_app. split.
      + revert Hw. apply Forall_impl. apply path_text_url_text.
      + constructor; [reflexivity | exact Hq].
    - apply urlparse_https_query; [exact Hh | exact Hw | reflexivity | exact Hq]. }
  assert (Hv' : Forall (fun c => url_text c = true) (lit "v=" ++ v)).
  { apply Forall_app. split.
    - apply forallb_Forall_true. vm_compute. reflexivity.
    - revert Hv. apply Forall_impl. apply id_char_url_text. }
  split.
  - intros Hid. split.
    + change (lit "/watch?v=" ++ v) with (lit "/watch" ++ ch "?" :: lit "v=" ++ v).
      rewrite (Hq _ Hv'), (query_v_only v Hv).
      apply fullmatch_ID_RE in Hid. now rewrite Hid.
    + change (lit "/watch?v=" ++ v ++ ch "&" :: rest)
        with (lit "/watch" ++ ch "?" :: lit "v=" ++ v ++ ch "&" :: rest).
      rewrite Hq.
      * rewrite (query_v_first v rest); [|destruct Hid as [L _]; now destruct v|exact Hv].
        apply fullmatch_ID_RE in Hid. now rewrite Hid.
      * apply Forall_app. split; [apply forallb_Forall_true; vm_compute; reflexivity|].
        apply Forall_app. split.
        { revert Hv. apply Forall_impl. apply id_char_url_text. }
        constructor; [reflexivity | exact Hr].
  - intros N.
    change (lit "/watch?v=" ++ v) with (lit "/watch" ++ ch "?" :: lit "v=" ++ v).
    rewrite (Hq _ Hv'), (query_v_only v Hv).
    destruct (fullmatch ID_RE v) eqn:E; [|reflexivity].
    apply fullmatch_ID_RE in E. contradiction.
Qed.


Lemma shorts_path_decisions (id tail : str) :
  valid_id id ->
  fullmatch ID_RE (first_segment (lit "/shorts/" ++ id ++ tail)) = false
  /\ str_eqb (lit "/shorts/" ++ id ++ tail) (lit "/watch") = false
  /\ search SHORTS_RE (lit "/shorts/" ++ id ++ tail)
     = Some (lit "/shorts/" ++ id).
Proof.
  intros Hid. split; [|split].
  - change (lit "/shorts/" ++ id ++ tail)
      with (ch "/" :: lit "shorts" ++ ch "/" :: id ++ tail).
    rewrite first_segment_head; [reflexivity | discriminate | | reflexivity].
    apply Forall_forall. intros c Hc.
    assert (F : forallb (fun c => negb (c =? ch "/")) (lit "shorts") = true)
      by (vm_compute; reflexivity).
    rewrite forallb_forall in F. apply N.eqb_neq, negb_true_iff. now apply F.
  - apply str_eqb_neq. intros E.
    apply (f_equal (fun l => nth 1 l 0)) in E. vm_compute in E. discriminate.
  - now apply search_SHORTS_RE_start.
Qed.

(** X5.  On a URL [https://host/shorts/...] the host is not looked at,
    and the eleven characters after [/shorts/] are returned whatever
    follows them: further characters of the segment, further segments, a
    query. *)
Theorem extract_video_id_shorts (host id tail qry : str) :
  Forall (fun c => host_char c = true) host ->
  valid_id id ->
  Forall (fun c => path_text c = true) tail ->
  Forall (fun c => url_text c = true) qry ->
  extract (lit "https://" ++ host ++ lit "/shorts/" ++ id ++ tail) = Ok id
  /\ extract (lit "https://" ++ host ++ (lit "/shorts/" ++ id ++ tail)
                ++ ch "?" :: qry) = Ok id.
Proof.
  intros Hh Hid Ht Hq.
  destruct (shorts_path_decisions id tail Hid) as [D1 [D2 D3]].
  assert (Hp : Forall (fun c => path_text c = true) (lit "/shorts/" ++ id ++ tail)).
  { apply Forall_app. split; [apply forallb_Forall_true; vm_compute; reflexivity|].
    apply Forall_app. split; [|exact Ht].
    apply valid_id_id_chars in Hid. revert Hid. apply Forall_impl.
    apply id_char_path_text. }
  assert (Hpu : Forall (fun c => url_text c = true) (lit "/shorts/" ++ id ++ tail)).
  { revert Hp. apply Forall_impl. apply path_text_url_text. }
  split.
  - rewrite (extract_video_id_https host (lit "/shorts/" ++ id ++ tail)
               (mkParseResult (lit "https") host (lit "/shorts/" ++ id ++ tail)
                  [] [] [])).
    + cbn [netloc path query]. rewrite D1, andb_false_r, D2. cbn [andb].
      rewrite D3. reflexivity.
    + exact Hh.
    + exact Hpu.
    + apply urlparse_https_path; [exact Hh | exact Hp | reflexivity].
  - rewrite (extract_video_id_https host
               ((lit "/shorts/" ++ id ++ tail) ++ ch "?" :: qry)
               (mkParseResult (lit "https") host (lit "/shorts/" ++ id ++ tail)
                  [] qry [])).
    + cbn [netloc path query]. rewrite D1, andb_false_r, D2. cbn [andb].
      rewrite D3. reflexivity.
    + exact Hh.
    + apply Forall_app. split; [exact Hpu|]. constructor; [reflexivity | exact Hq].
    + apply urlparse_https_query; [exact Hh | exact Hp | reflexivity | exact Hq].
Qed.

Lemma SHORT_LINK_HOSTS_host_chars (host : str) :
  In host SHORT_LINK_HOSTS -> Forall (fun c => host_char c = true) host.
Proof.
  intros [<-|[<-|[]]]; apply forallb_Forall_true; vm_compute; reflexivity.
Qed.

(** X6.  On a short link, [https://youtu.be/id...] or with [www.], only
    the first segment of the path counts: the identifier is returned
    whatever further segments and whatever query follow it. *)
Theorem extract_video_id_short_link (host id tail qry : str) :
  In host SHORT_LINK_HOSTS ->
  valid_id id ->
  Forall (fun c => path_text c = true) tail -> rooted tail ->
  Forall (fun c => url_text c = true) qry ->
  extract (lit "https://" ++ host ++ ch "/" :: id ++ tail) = Ok id
  /\ extract (lit "https://" ++ host ++ (ch "/" :: id ++ tail) ++ ch "?" :: qry)
     = Ok id.
Proof.
  intros Hin Hid Ht Hr Hq.
  pose proof (SHORT_LINK_HOSTS_host_chars host Hin) as Hh.
  pose proof (valid_id_id_chars id Hid) as Hc.
  assert (Hp : Forall (fun c => path_text c = true) (ch "/" :: id ++ tail)).
  { constructor; [reflexivity|]. apply Forall_app. split; [|exact Ht].
    revert Hc. apply Forall_impl. apply id_char_path_text. }
  assert (Hpu : Forall (fun c => url_text c = true) (ch "/" :: id ++ tail)).
  { revert Hp. apply Forall_impl. apply path_text_url_text. }
  assert (D : first_segment (ch "/" :: id ++ tail) = id).
  { apply first_segment_head; [|now apply id_char_absent|exact Hr].
    destruct Hid as [L _]. now destruct id. }
  apply In_SHORT_LINK_HOSTS in Hin. apply fullmatch_ID_RE in Hid.
  split.
  - rewrite (extract_video_id_https host (ch "/" :: id ++ tail)
               (mkParseResult (lit "https") host (ch "/" :: id ++ tail) [] [] [])).
    + cbn [netloc path query]. now rewrite D, Hin, Hid.
    + exact Hh.
    + exact Hpu.
    + apply urlparse_https_path; [exact Hh | exact Hp | reflexivity].
  - rewrite (extract_video_id_https host ((ch "/" :: id ++ tail) ++ ch "?" :: qry)
               (mkParseResult (lit "https") host (ch "/" :: id ++ tail) [] qry [])).
    + cbn [netloc path query]. now rewrite D, Hin, Hid.
    + exact Hh.
    + apply Forall_app. split; [exact Hpu|]. constructor; [reflexivity | exact Hq].
    + apply urlparse_https_query; [exact Hh | exact Hp | reflexivity | exact Hq].
Qed.

(** The decision of the extractor on [https://host/watch?query]. *)
Lemma extract_video_id_watch_query (host q : str) :
  Forall (fun c => host_char c = true) host ->
  Forall (fun c => url_text c = true) q ->
  extract (lit "https://" ++ host ++ lit "/watch" ++ ch "?" :: q)
  = if fullmatch ID_RE (query_v q) then Ok (query_v q)
    else Raise EXTRACT_ERROR.
Proof.
  intros Hh Hq.
  assert (Hw : Forall (fun c => path_text c = true) (lit "/watch")).
  { apply forallb_Forall_true. vm_compute. reflexivity. }
  rewrite (extract_video_id_https host (lit "/watch" ++ ch "?" :: q)
             (mkParseResult (lit "https") host (lit "/watch") [] q [])).
  - cbn [netloc path query].
    replace (fullmatch ID_RE (first_segment (lit "/watch"))) with false
      by (vm_compute; reflexivity).
    rewrite andb_false_r.
    replace (str_eqb (lit "/watch") (lit "/watch")) with true
      by (vm_compute; reflexivity).
    cbn [andb]. destruct (fullmatch ID_RE (query_v q)); reflexivity.
  - exact Hh.
  - apply Forall_app. split.
    + revert Hw. apply Forall_impl. apply path_text_url_text.
    + constructor; [reflexivity | exact Hq].
  - apply urlparse_https_query; [exact Hh | exact Hw | reflexivity | exact Hq].
Qed.

(** C3.  The three recognized shapes of a URL give the identifier they
    embed, whatever the identifier: the short link [https://youtu.be/id]
    (or with [www.]), the watch form [https://host/watch?v=id], with or
    without further parameters, and the shorts form
    [https://host/shorts/id], for any host name.  So it is for
    dQw4w9WgXcQ in the three URLs of the specification. *)
Theorem extract_video_id_url_shapes :
  (forall host vid,
      Forall (fun c => host_char c = true) host ->
      valid_id vid ->
      (In host SHORT_LINK_HOSTS ->
       extract (lit "https://" ++ host ++ lit "/" ++ vid) = Ok vid)
      /\ extract (lit "https://" ++ host ++ lit "/watch?v=" ++ vid) = Ok vid
      /\ (forall rest,
             Forall (fun c => url_text c = true) rest ->
             extract (lit "https://" ++ host ++ lit "/watch?v=" ++ vid
                        ++ lit "&" ++ rest) = Ok vid)
      /\ extract (lit "https://" ++ host ++ lit "/shorts/" ++ vid) = Ok vid)
  /\ extract (lit "https://youtu.be/dQw4w9WgXcQ") = Ok (lit "dQw4w9WgXcQ")
  /\ extract (lit "https://www.youtube.com/watch?v=dQw4w9WgXcQ&t=10s")
     = Ok (lit "dQw4w9WgXcQ")
  /\ extract (lit "https://www.youtube.com/shorts/dQw4w9WgXcQ")
     = Ok (lit "dQw4w9WgXcQ").
Proof.
  split; [|exact (extract_video_id_url_examples _ _)].
  intros host vid Hh Hid.
  pose proof (valid_id_id_chars vid Hid) as Hc.
  pose proof (proj2 (fullmatch_ID_RE vid) Hid) as Hm.
  assert (Hcu : Forall (fun c => url_text c = true) vid).
  { revert Hc. apply Forall_impl. apply id_char_url_text. }
  assert (Hcp : Forall (fun c => path_text c = true) vid).
  { revert Hc. apply Forall_impl. apply id_char_path_text. }
  split; [|split; [|split]].
  - intros Hin. apply In_SHORT_LINK_HOSTS in Hin.
    change (lit "/" ++ vid) with (ch "/" :: vid).
    rewrite (extract_video_id_https host (ch "/" :: vid)
               (mkParseResult (lit "https") host (ch "/" :: vid) [] [] [])).
    + cbn [netloc path query]. rewrite (first_segment_one vid Hc).
      now rewrite Hin, Hm.
    + exact Hh.
    + constructor; [reflexivity | exact Hcu].
    + apply urlparse_https_path; [exact Hh | | reflexivity].
      constructor; [reflexivity | exact Hcp].
  - change (lit "/watch?v=" ++ vid) with (lit "/watch" ++ ch "?" :: lit "v=" ++ vid).
    rewrite extract_video_id_watch_query; [|exact Hh|].
    + now rewrite (query_v_only vid Hc), Hm.
    + apply Forall_app. split; [|exact Hcu].
      apply forallb_Forall_true. vm_compute. reflexivity.
  - intros rest Hr.
    change (lit "/watch?v=" ++ vid ++ lit "&" ++ rest)
      with (lit "/watch" ++ ch "?" :: lit "v=" ++ vid ++ ch "&" :: rest).
    rewrite extract_video_id_watch_query; [|exact Hh|].
    + rewrite (query_v_first vid rest);
        [|destruct Hid as [L _]; now destruct vid|exact Hc].
      now rewrite Hm.
    + apply Forall_app. split; [apply forallb_Forall_true; vm_compute; reflexivity|].
      apply Forall_app. split; [exact Hcu|].
      constructor; [reflexivity | exact Hr].
  - destruct (shorts_path_decisions vid [] Hid) as [D1 [D2 D3]].
    rewrite app_nil_r in D1, D2, D3.
    rewrite (extract_video_id_https host (lit "/shorts/" ++ vid)
               (mkParseResult (lit "https") host (lit "/shorts/" ++ vid)
                  [] [] [])).
    + cbn [netloc path query]. rewrite D1, andb_false_r, D2. cbn [andb].
      rewrite D3. reflexivity.
    + exact Hh.
    + apply Forall_app. split; [|exact Hcu].
      apply forallb_Forall_true. vm_compute. reflexivity.
    + apply urlparse_https_path; [exact Hh | | reflexivity].
      apply Forall_app. split; [|exact Hcp].
      apply forallb_Forall_true. vm_compute. reflexivity.
Qed.

End ExtractorFamilies.

(** ** References without a scheme, references the parser refuses *)

Lemma match_at_SHORTS_RE_head (c : char) (t : str) :
  c <> ch "/" -> match_at SHORTS_RE (c :: t) = None.
Proof.
  intros H. unfold SHORTS_RE.
  change (literal (lit "/shorts/") ++ ID_RE)
    with ((fun x => x =? ch "/") :: literal (lit "shorts/") ++ ID_RE).
  cbn [match_at]. apply N.eqb_neq in H. now rewrite H.
Qed.

Lemma search_SHORTS_RE_skip (pre s : str) :
  Forall (fun c => c <> ch "/") pre ->
  search SHORTS_RE (pre ++ s) = search SHORTS_RE s.
Proof.
  induction 1 as [|c pre Hc _ IH]; [reflexivity|].
  cbn [app search]. now rewrite (match_at_SHORTS_RE_head c _ Hc).
Qed.

(** A path with fewer than two [/] holds no [/shorts/]. *)
Lemma search_SHORTS_RE_few_slashes (pre post : str) :
  Forall (fun c => c <> ch "/") pre -> Forall (fun c => c <> ch "/") post ->
  search SHORTS_RE (pre ++ ch "/" :: post) = None.
Proof.
  intros Hpre Hpost. rewrite (search_SHORTS_RE_skip _ _ Hpre).
  now apply search_SHORTS_RE_one_segment.
Qed.

Lemma slash_not_bare (pre post : str) :
  fullmatch ID_RE (pre ++ ch "/" :: post) = false.
Proof.
  destruct (fullmatch ID_RE (pre ++ ch "/" :: post)) eqn:E; [|reflexivity].
  apply fullmatch_ID_RE in E. destruct E as [_ E].
  rewrite Forall_forall in E. specialize (E (ch "/") (in_elt _ _ _)).
  apply id_char_alphabet in E. discriminate E.
Qed.

Section NoScheme.

Variable check_bracketed_netloc : str -> option str.
Variable nfkc_has_delimiter : str -> bool.

Let parse := urlparse check_bracketed_netloc nfkc_has_delimiter.
Let extract := extract_video_id check_bracketed_netloc nfkc_has_delimiter.

Lemma split_netloc_no_slashes (c : char) (t : str) :
  c <> ch "/" ->
  split_netloc check_bracketed_netloc (c :: t) = Ok ([], c :: t).
Proof.
  intros H. unfold split_netloc. destruct t as [|c2 t]; [reflexivity|].
  apply N.eqb_neq in H. now rewrite H.
Qed.

(** The parts of [host path ? query], without a scheme: all of it before
    the [?] is the path. *)
Lemma urlparse_no_scheme (c : char) (pth qry : str) :
  host_char c = true ->
  Forall (fun c => path_text c = true) pth ->
  Forall (fun c => c <> ch ":") pth ->
  Forall (fun c => url_text c = true) qry ->
  Forall (fun c => c <> ch ":") qry ->
  parse (c :: pth) = Ok (mkParseResult [] [] (c :: pth) [] [] [])
  /\ parse ((c :: pth) ++ ch "?" :: qry)
     = Ok (mkParseResult [] [] (c :: pth) [] qry []).
Proof.
  intros Hc Hp Hpc Hq Hqc.
  assert (Hcp : path_text c = true).
  { assert (E : implb (host_char c) (path_text c) = true).
    { apply host_char_ascii in Hc. revert c Hc. apply ascii_check.
      vm_compute. reflexivity. }
    rewrite Hc in E. destruct (path_text c); [reflexivity | discriminate E]. }
  assert (Hcc : c <> ch ":") by (intros ->; discriminate Hc).
  assert (Hcs : c <> ch "/") by (intros ->; discriminate Hc).
  assert (Hp' : Forall (fun c => path_text c = true) (c :: pth))
    by now constructor.
  assert (Hpc' : Forall (fun c => c <> ch ":") (c :: pth)) by now constructor.
  assert (Ha : Forall (fun c => (0x20 <? c) = true) (c :: pth)).
  { revert Hp'. apply Forall_impl. intros x Hx.
    now apply url_text_above_space, path_text_url_text. }
  assert (Hsemi : char_in (c :: pth) (ch ";") = false).
  { apply char_in_absent. apply path_text_absent; [reflexivity | exact Hp']. }
  split.
  - unfold parse, urlparse. rewrite urlsplit_above_space by exact Ha.
    unfold split_scheme. rewrite (split1_absent _ _ Hpc').
    rewrite (split_netloc_no_slashes c pth Hcs). cbn [bind].
    unfold split_at.
    rewrite (split1_absent (ch "#")) by (apply path_text_absent; [reflexivity | exact Hp']).
    rewrite (split1_absent (ch "?")) by (apply path_text_absent; [reflexivity | exact Hp']).
    cbn [_checknetloc bind scheme path]. rewrite Hsemi, andb_false_r. reflexivity.
  - unfold parse, urlparse. rewrite urlsplit_above_space.
    2: { apply Forall_app. split; [exact Ha|]. constructor; [reflexivity|].
         revert Hq. apply Forall_impl. apply url_text_above_space. }
    unfold split_scheme. rewrite split1_absent.
    2: { apply Forall_app. split; [exact Hpc'|]. constructor; [discriminate | exact Hqc]. }
    cbn [app]. rewrite (split_netloc_no_slashes c _ Hcs). cbn [bind].
    unfold split_at. rewrite (split1_absent (ch "#")).
    2: { rewrite app_comm_cons. apply Forall_app. split.
         - apply path_text_absent; [reflexivity | exact Hp'].
         - constructor; [discriminate|].
           apply url_text_absent; [reflexivity | exact Hq]. }
    rewrite app_comm_cons, (split1_app (ch "?")).
    2: { apply path_text_absent; [reflexivity | exact Hp']. }
    cbn [_checknetloc bind scheme path]. rewrite Hsemi, andb_false_r. reflexivity.
Qed.


Lemma host_char_path_text (c : char) : host_char c = true -> path_text c = true.
Proof.
  intros Hc.
  assert (E : implb (host_char c) (path_text c) = true).
  { apply host_char_ascii in Hc. revert c Hc. apply ascii_check.
    vm_compute. reflexivity. }
  rewrite Hc in E. destruct (path_text c); [reflexivity | discriminate E].
Qed.

(** The decisions of the extractor on [host/rest] and [host/rest?query],
    without a scheme: there is no network location, and the path starts
    with the host. *)
Lemma extract_video_id_no_scheme (c : char) (h rest : str) (qry : option str) :
  Forall (fun c => host_char c = true) (c :: h) ->
  Forall (fun c => id_char c = true \/ c = ch "/") rest ->
  match qry with
  | Some q => Forall (fun c => id_char c = true \/ c = ch "=") q
  | None => True
  end ->
  extract ((c :: h) ++ ch "/" :: rest
             ++ match qry with Some q => ch "?" :: q | None => [] end)
  = match search SHORTS_RE ((c :: h) ++ ch "/" :: rest) with
    | Some m => Ok (SHORTS_group1 m)
    | None => Raise EXTRACT_ERROR
    end.
Proof.
  intros Hh Hr Hq.
  assert (Hc : host_char c = true) by now inversion Hh.
  assert (Hp : Forall (fun c => path_text c = true) (h ++ ch "/" :: rest)).
  { apply Forall_app. split.
    - inversion Hh; subst. revert H2. apply Forall_impl. apply host_char_path_text.
    - constructor; [reflexivity|]. revert Hr. apply Forall_impl.
      intros x [Hx| ->]; [now apply id_char_path_text | reflexivity]. }
  assert (Hpc : Forall (fun c => c <> ch ":") (h ++ ch "/" :: rest)).
  { apply Forall_app. split.
    - inversion Hh; subst. apply host_absent; [reflexivity | assumption].
    - constructor; [discriminate|]. revert Hr. apply Forall_impl.
      intros x [Hx| ->]; [|discriminate]. intros ->. discriminate Hx. }
  set (q := match qry with Some q => q | None => [] end).
  assert (Hqu : Forall (fun c => url_text c = true) q).
  { subst q. destruct qry as [q|]; [|constructor]. revert Hq. apply Forall_impl.
    intros x [Hx| ->]; [now apply id_char_url_text | reflexivity]. }
  assert (Hqc : Forall (fun c => c <> ch ":") q).
  { subst q. destruct qry as [q|]; [|constructor]. revert Hq. apply Forall_impl.
    intros x [Hx| ->]; [|discriminate]. intros ->. discriminate Hx. }
  destruct (urlparse_no_scheme c (h ++ ch "/" :: rest) q Hc Hp Hpc Hqu Hqc)
    as [P1 P2].
  set (url := (c :: h) ++ ch "/" :: rest
                ++ match qry with Some q => ch "?" :: q | None => [] end).
  assert (Es : strip url = url).
  { apply strip_no_space. subst url. apply Forall_app. split.
    - revert Hh. apply Forall_impl. apply host_char_not_space.
    - constructor; [reflexivity|]. apply Forall_app. split.
      + revert Hr. apply Forall_impl.
        intros x [Hx| ->]; [now apply id_char_not_space | reflexivity].
      + destruct qry as [q0|]; [|constructor]. constructor; [reflexivity|].
        revert Hqu. apply Forall_impl. apply url_text_not_space. }
  assert (Eb : fullmatch ID_RE url = false) by apply slash_not_bare.
  assert (Ew : str_eqb (c :: h ++ ch "/" :: rest) (lit "/watch") = false).
  { apply str_eqb_neq. intros E. injection E as E _. subst c. discriminate Hc. }
  assert (Ep : exists qq,
             parse url = Ok (mkParseResult [] [] (c :: h ++ ch "/" :: rest)
                               [] qq [])).
  { subst url q. destruct qry as [q0|].
    - exists q0. rewrite <- P2. f_equal. cbn [app]. now rewrite <- app_assoc.
    - exists []. rewrite <- P1. f_equal. cbn [app]. now rewrite app_nil_r. }
  destruct Ep as [qq Ep]. unfold extract. fold url.
  rewrite (extract_video_id_parsed check_bracketed_netloc nfkc_has_delimiter
             url (mkParseResult [] [] (c :: h ++ ch "/" :: rest) [] qq []));
    [|rewrite Es; exact Eb|rewrite Es; exact Ep].
  cbn [netloc path query].
  replace (existsb (str_eqb []) SHORT_LINK_HOSTS) with false by reflexivity.
  cbn [andb]. rewrite Ew. cbn [andb]. reflexivity.
Qed.

(** X7.  Without [https://] in front, a reference [host/...] is read as a
    path only.  A short link and a watch link are then refused with the
    extractor's [ValueError], whatever the host; a shorts link is
    accepted. *)
Theorem extract_video_id_without_scheme (host id : str) :
  host <> [] ->
  Forall (fun c => host_char c = true) host ->
  valid_id id ->
  extract (host ++ ch "/" :: id) = Raise EXTRACT_ERROR
  /\ extract (host ++ lit "/watch?v=" ++ id) = Raise EXTRACT_ERROR
  /\ extract (host ++ lit "/shorts/" ++ id) = Ok id.
Proof.
  intros Hne Hh Hid. destruct host as [|c h]; [contradiction|].
  pose proof (valid_id_id_chars id Hid) as Hc.
  assert (Hhs : Forall (fun c => c <> ch "/") (c :: h))
    by (apply host_absent; [reflexivity | exact Hh]).
  split; [|split].
  - rewrite <- (app_nil_r id) at 1.
    rewrite (extract_video_id_no_scheme c h id None Hh); [|
      revert Hc; apply Forall_impl; intros x Hx; now left | exact I].
    rewrite search_SHORTS_RE_few_slashes; [reflexivity | exact Hhs|].
    now apply id_char_absent.
  - change (lit "/watch?v=" ++ id)
      with (ch "/" :: lit "watch" ++ ch "?" :: lit "v=" ++ id).
    rewrite (extract_video_id_no_scheme c h (lit "watch") (Some (lit "v=" ++ id)) Hh).
    + rewrite search_SHORTS_RE_few_slashes; [reflexivity | exact Hhs|].
      apply Forall_forall. intros x Hx.
      assert (F : forallb (fun c => negb (c =? ch "/")) (lit "watch") = true)
        by (vm_compute; reflexivity).
      rewrite forallb_forall in F. apply N.eqb_neq, negb_true_iff. now apply F.
    + apply Forall_forall. intros x Hx. left.
      assert (F : forallb id_char (lit "watch") = true) by (vm_compute; reflexivity).
      rewrite forallb_forall in F. now apply F.
    + apply Forall_app. split.
      * constructor; [now left|]. constructor; [now right | constructor].
      * revert Hc. apply Forall_impl. intros x Hx. now left.
  - replace (lit "/shorts/" ++ id) with (ch "/" :: (lit "shorts/" ++ id) ++ [])
      by (now rewrite app_nil_r).
    rewrite (extract_video_id_no_scheme c h (lit "shorts/" ++ id) None Hh).
    + rewrite (search_SHORTS_RE_skip (c :: h) (ch "/" :: lit "shorts/" ++ id) Hhs).
      pose proof (search_SHORTS_RE_start id [] Hid) as S.
      rewrite app_nil_r in S.
      change (ch "/" :: lit "shorts/" ++ id) with (lit "/shorts/" ++ id).
      rewrite S. reflexivity.
    + apply Forall_app. split.
      * apply Forall_forall. intros x Hx.
        assert (F : forallb (fun c => id_char c || (c =? ch "/")) (lit "shorts/")
                    = true) by (vm_compute; reflexivity).
        rewrite forallb_forall in F. specialize (F x Hx).
        apply orb_true_iff in F. destruct F as [F|F]; [now left|].
        right. now apply N.eqb_eq.
      * revert Hc. apply Forall_impl. intros x Hx. now left.
    + exact I.
Qed.

End NoScheme.

Section ParserErrors.

Variable check_bracketed_netloc : str -> option str.
Variable nfkc_has_delimiter : str -> bool.

Let parse := urlparse check_bracketed_netloc nfkc_has_delimiter.
Let extract := extract_video_id check_bracketed_netloc nfkc_has_delimiter.

Lemma urlparse_open_bracket (host : str) :
  Forall (fun c => host_char c = true) host ->
  parse (lit "https://[" ++ host) = Raise (ValueError (lit "Invalid IPv6 URL")).
Proof.
  intros Hh. unfold parse, urlparse. rewrite urlsplit_above_space.
  2: { apply Forall_app. split; [apply forallb_Forall_true; vm_compute; reflexivity|].
       revert Hh. apply Forall_impl. apply host_char_above_space. }
  assert (Es : split_scheme (lit "https://[" ++ host)
               = (lit "https", ch "/" :: ch "/" :: ch "[" :: host)) by reflexivity.
  rewrite Es. unfold split_netloc. cbv iota. rewrite N.eqb_refl. cbn [andb].
  rewrite <- (app_nil_r (ch "[" :: host)), break_at_app; [| |exact I].
  2: { constructor; [reflexivity|]. revert Hh. apply Forall_impl. intros c Hc.
       assert (E : implb (host_char c) (negb (char_in (lit "/?#") c)) = true).
       { apply host_char_ascii in Hc. revert c Hc. apply ascii_check.
         vm_compute. reflexivity. }
       rewrite Hc in E. cbn [implb] in E. now apply negb_true_iff. }
  assert (Eo : char_in (ch "[" :: host) (ch "[") = true) by reflexivity.
  assert (Ec : char_in (ch "[" :: host) (ch "]") = false).
  { apply char_in_absent. constructor; [discriminate|].
    apply host_absent; [reflexivity | exact Hh]. }
  rewrite Eo, Ec. reflexivity.
Qed.

(** X8.  The extractor raises its own [ValueError], or lets through,
    unchanged, the [ValueError] of [urlparse] on the trimmed reference;
    so a reference [https://[host] with no closing bracket is refused
    with the parser's message, not the extractor's. *)
Theorem extract_video_id_errors :
  (forall url e,
      extract url = Raise e ->
      parse (strip url) = Raise e \/ e = EXTRACT_ERROR)
  /\ (forall host,
         Forall (fun c => host_char c = true) host ->
         extract (lit "https://[" ++ host)
         = Raise (ValueError (lit "Invalid IPv6 URL"))).
Proof.
  split.
  - intros url e. unfold extract, extract_video_id, bind. cbv zeta.
    destruct (fullmatch ID_RE (strip url)); [discriminate|].
    fold parse. destruct (parse (strip url)) as [u|e0]; [|intros [= <-]; now left].
    destruct (existsb _ _ && fullmatch ID_RE _); [discriminate|].
    destruct (str_eqb (path u) _ && fullmatch ID_RE _); [discriminate|].
    destruct (search SHORTS_RE (path u)); [discriminate|].
    intros [= <-]. now right.
  - intros host Hh. unfold extract, extract_video_id, bind. cbv zeta.
    rewrite strip_no_space.
    2: { apply Forall_app. split.
         - apply Forall_forall. intros c Hc.
           assert (F : forallb (fun c => negb (isspace c)) (lit "https://[") = true)
             by (vm_compute; reflexivity).
           rewrite forallb_forall in F. apply negb_true_iff. now apply F.
         - revert Hh. apply Forall_impl. apply host_char_not_space. }
    replace (fullmatch ID_RE (lit "https://[" ++ host)) with false by reflexivity.
    fold parse. now rewrite (urlparse_open_bracket host Hh).
Qed.

End ParserErrors.

(* ================================================================= *)
(** ** Further properties of the transcript fetcher *)

Lemma blank_app (a b : str) : blank (a ++ b) <-> blank a /\ blank b.
Proof. apply Forall_app. Qed.

Lemma blank_join (l : list str) :
  blank (join (lit " ") l) <-> Forall blank l.
Proof.
  induction l as [|p rest IH]; [split; constructor|].
  destruct rest as [|q rest].
  - cbn [join]. split; [intros H; now constructor | intros H; now inversion H].
  - change (join (lit " ") (p :: q :: rest))
      with (p ++ lit " " ++ join (lit " ") (q :: rest)).
    rewrite !blank_app, IH. split.
    + intros [Hp [_ Hr]]. now constructor.
    + intros H. inversion H; subst. repeat split; try assumption.
      repeat constructor.
Qed.

Lemma blank_strip (s : str) : blank (strip s) <-> blank s.
Proof. now rewrite <- !strip_blank, strip_strip. Qed.

Lemma join_snippets_empty (snippets : list FetchedTranscriptSnippet) :
  join_snippets snippets = [] <-> forall s, In s snippets -> blank (text s).
Proof.
  unfold join_snippets. rewrite strip_blank, blank_join, Forall_forall. split.
  - intros H s Hs. destruct (text s) as [|c t] eqn:E; [constructor|].
    rewrite <- E. apply blank_strip. apply H. apply in_map_iff. exists s.
    split; [reflexivity|]. apply filter_In. split; [exact Hs | now rewrite E].
  - intros H x Hx. apply in_map_iff in Hx. destruct Hx as [s [<- Hs]].
    apply filter_In in Hs. apply blank_strip. apply H. now destruct Hs.
Qed.

Section FetcherMore.

Variable ytt_fetch : str -> list str -> result (list FetchedTranscriptSnippet).

Let fetch := fetch_transcript_text ytt_fetch.

(** X9.  A transcript the fetcher returns has whitespace neither at its
    start nor at its end. *)
Theorem fetch_transcript_text_trimmed (video_id transcript : str) :
  fetch video_id = Ok transcript -> trimmed isspace transcript.
Proof.
  unfold fetch, fetch_transcript_text, fetch_transcript_text_in, bind.
  destruct (ytt_fetch video_id DEFAULT_LANGUAGES) as [snippets|];
    [|discriminate].
  intros [= <-]. unfold join_snippets. apply strip_by_trimmed.
Qed.

(** X10.  The fetcher can succeed with an empty transcript: it returns
    the empty string exactly when every fragment the provider gave is
    empty or whitespace only, and so when there is no fragment. *)
Theorem fetch_transcript_text_empty (video_id : str) snippets :
  ytt_fetch video_id DEFAULT_LANGUAGES = Ok snippets ->
  (fetch video_id = Ok [] <-> forall s, In s snippets -> blank (text s)).
Proof.
  intros H. unfold fetch, fetch_transcript_text, fetch_transcript_text_in, bind.
  rewrite H. rewrite <- join_snippets_empty. split.
  - now intros [= ->].
  - now intros ->.
Qed.

(** The fetcher asks the provider for the languages tr, tr-TR and en, in
    that order, and has no error of its own: it raises exactly when the
    provider does, and the same exception. *)
Lemma fetch_transcript_text_raises (video_id : str) (e : exn) :
  fetch video_id = Raise e
  <-> ytt_fetch video_id [lit "tr"; lit "tr-TR"; lit "en"] = Raise e.
Proof.
  unfold fetch, fetch_transcript_text, fetch_transcript_text_in, bind.
  change DEFAULT_LANGUAGES with [lit "tr"; lit "tr-TR"; lit "en"].
  destruct (ytt_fetch video_id _) as [snippets|e0]; split;
    (discriminate || now intros [= ->]).
Qed.

End FetcherMore.

(* ================================================================= *)
(** ** Further properties of the summarizer *)

Lemma keep_tweet_kept (t : value) (x : str) :
  In x (keep_tweet t) -> x <> [] /\ trimmed isspace x.
Proof.
  destruct t; simpl; try contradiction.
  destruct (strip s) as [|c r] eqn:E; simpl; [contradiction|].
  intros [<-|[]]. split; [discriminate|]. rewrite <- E. apply strip_by_trimmed.
Qed.

Lemma In_firstn {A} (n : nat) (l : list A) (x : A) : In x (firstn n l) -> In x l.
Proof.
  revert l. induction n as [|n IH]; intros [|a l]; simpl; try contradiction.
  intros [->|H]; [now left | right; now apply IH].
Qed.

Lemma keep_tweet_char (c : char) :
  keep_tweet (PyStr [c]) = if isspace c then [] else [[c]].
Proof.
  unfold keep_tweet, strip, strip_by, rstrip_by. simpl.
  destruct (isspace c) eqn:E; simpl; [reflexivity|]. now rewrite E.
Qed.

Lemma flat_map_keep_tweet_chars (s : str) :
  flat_map keep_tweet (map (fun c => PyStr [c]) s) = visible_chars s.
Proof.
  unfold visible_chars. induction s as [|c s IH]; [reflexivity|].
  cbn [map flat_map filter]. rewrite keep_tweet_char, IH.
  destruct (isspace c); reflexivity.
Qed.

Lemma iter_Raise (v : value) (e : exn) :
  iter v = Raise e -> not_iterable v = true /\ exists msg, e = TypeError msg.
Proof. destruct v; simpl; intros [= <-]; eauto. Qed.

Lemma iter_not_iterable (v : value) :
  not_iterable v = true -> exists msg, iter v = Raise (TypeError msg).
Proof. destruct v; simpl; try discriminate; eauto. Qed.

(** What the [try] block leaves in [tweets] is the empty list or the
    value of the key [tweets] of the object decoded. *)
Lemma load_tweets_cases (depth_limit : nat) (text : str) :
  load_tweets depth_limit text = PyList []
  \/ exists d v, json_loads depth_limit text = Ok (PyDict d)
                 /\ dict_get d (lit "tweets") = Some v
                 /\ load_tweets depth_limit text = v.
Proof.
  unfold load_tweets, bind.
  destruct (json_loads depth_limit text) as [obj|]; [|now left].
  destruct obj; simpl; try (now left).
  destruct (dict_get d (lit "tweets")) as [v|] eqn:E; [|now left].
  right. exists d, v. repeat split; assumption.
Qed.

(** ** Nesting deeper than the recursion limit *)

Lemma scan_once_too_deep (room : nat) :
  forall f rest,
    scan_once f room (repeat (ch "[") (S room) ++ rest) = Raise RecursionError.
Proof.
  induction room as [|room IH]; intros f rest.
  - destruct f as [|f]; reflexivity.
  - destruct f as [|f]; [reflexivity|].
    change (repeat (ch "[") (S (S room)) ++ rest)
      with (ch "[" :: ch "[" :: (repeat (ch "[") room ++ rest)).
    cbn [scan_once].
    replace (ch "[" =? DQUOTE) with false by reflexivity.
    replace (ch "[" =? ch "{") with false by reflexivity.
    replace (ch "[" =? ch "[") with true by reflexivity.
    change (skip_ws (ch "[" :: repeat (ch "[") room ++ rest))
      with (ch "[" :: repeat (ch "[") room ++ rest).
    replace (ch "[" =? ch "]") with false by reflexivity.
    destruct f as [|f]; [reflexivity|]. cbn [parse_elements].
    change (ch "[" :: repeat (ch "[") room ++ rest)
      with (repeat (ch "[") (S room) ++ rest).
    now rewrite IH.
Qed.

(** An array nested deeper than the limit is not decoded, whatever
    follows the brackets that open it. *)
Lemma json_loads_too_deep (depth_limit : nat) (rest : str) :
  json_loads depth_limit (repeat (ch "[") (S depth_limit) ++ rest)
  = Raise RecursionError.
Proof.
  unfold json_loads.
  change (repeat (ch "[") (S depth_limit) ++ rest)
    with (ch "[" :: (repeat (ch "[") depth_limit ++ rest)).
  replace (startswith [0xFEFF] (ch "[" :: repeat (ch "[") depth_limit ++ rest))
    with false by reflexivity.
  change (skip_ws (ch "[" :: repeat (ch "[") depth_limit ++ rest))
    with (repeat (ch "[") (S depth_limit) ++ rest).
  now rewrite scan_once_too_deep.
Qed.

(** So it is for an array inside an object: the object takes one level
    of the room. *)
Lemma scan_once_too_deep_member (room : nat) (tail : str) :
  (forall f, scan_once f room (ch "[" :: tail) = Raise RecursionError) ->
  forall f,
    scan_once f (S room) (json_text "{'tweets': 5, 'd': " ++ ch "[" :: tail)
    = Raise RecursionError.
Proof.
  intros D f.
  let p := eval vm_compute in (json_text "{'tweets': 5, 'd': ") in
  change (json_text "{'tweets': 5, 'd': ") with p.
  cbn [app].
  destruct f as [|[|[|f]]]; [reflexivity | reflexivity | reflexivity |].
  specialize (D f). simpl.
  match goal with
  | |- context [scan_once f room ?x] =>
    replace (scan_once f room x) with (@Raise (value * str) RecursionError)
      by (symmetry; exact D)
  end.
  reflexivity.
Qed.

Lemma json_loads_scan (depth_limit : nat) (c : char) (t : str) (e : exn) :
  (c =? 0xFEFF) = false -> json_ws c = false ->
  (forall f, scan_once f depth_limit (c :: t) = Raise e) ->
  json_loads depth_limit (c :: t) = Raise e.
Proof.
  intros H1 H2 H. unfold json_loads, startswith. cbn [strip_prefix].
  rewrite N.eqb_sym, H1. unfold skip_ws. cbn [lstrip_by]. rewrite H2, H.
  reflexivity.
Qed.

Lemma json_loads_too_deep_member (depth_limit : nat) (rest : str) :
  json_loads depth_limit
    (json_text "{'tweets': 5, 'd': " ++ repeat (ch "[") depth_limit ++ rest)
  = Raise RecursionError.
Proof.
  destruct depth_limit as [|room].
  - let p := eval vm_compute in (json_text "{'tweets': 5, 'd': ") in
    change (json_text "{'tweets': 5, 'd': ") with p.
    cbn [app repeat].
    apply json_loads_scan; [reflexivity | reflexivity |].
    intros f. destruct f; reflexivity.
  - pose proof (scan_once_too_deep_member room
                  (repeat (ch "[") room ++ rest)
                  (fun f => scan_once_too_deep room f rest)) as D.
    revert D.
    let p := eval vm_compute in (json_text "{'tweets': 5, 'd': ") in
    change (json_text "{'tweets': 5, 'd': ") with p.
    cbn [app repeat]. intros D.
    apply json_loads_scan; [reflexivity | reflexivity | exact D].
Qed.

Section SummarizerMore.

Variable depth_limit : nat.
Variable responses_create : str -> str -> result str.

Let summarize := generate_3_tweets depth_limit responses_create.

(** X11.  Whatever the service answers, a list the summarizer returns
    has at most three tweets, none of them empty and none with
    whitespace at its start or end. *)
Theorem generate_3_tweets_result (transcript model : str) (tweets : list str) :
  summarize transcript model = Ok tweets ->
  (List.length tweets <= 3)%nat
  /\ Forall (fun t => t <> [] /\ trimmed isspace t) tweets.
Proof.
  unfold summarize, generate_3_tweets, tweets_of_output, bind.
  destruct (responses_create model (prompt transcript)) as [body|]; [|discriminate].
  destruct (iter (load_tweets depth_limit (strip body))) as [items|];
    [|discriminate].
  intros E.
  assert (Et : tweets = firstn 3 (flat_map keep_tweet items)) by congruence.
  rewrite Et. clear E Et. split.
  - rewrite length_firstn. lia.
  - apply Forall_forall. intros x Hx. apply In_firstn in Hx.
    apply in_flat_map in Hx. destruct Hx as [t [_ Hx]].
    now apply (keep_tweet_kept t).
Qed.

(** X12.  The summarizer raises in two cases only.  An exception of the
    service is not caught and comes out as it is; and after an answer,
    it raises, a [TypeError], exactly when [json.loads] decodes the
    answer trimmed to an object whose [tweets] is [null], a boolean or a
    number.  An answer nested deeper than the recursion limit allows is
    not decoded: the [RecursionError] is caught and the summarizer
    returns the empty list, also when the [tweets] of the answer is a
    number. *)
Theorem generate_3_tweets_raises (transcript model : str) :
  (forall e,
      responses_create model (prompt transcript) = Raise e ->
      summarize transcript model = Raise e)
  /\ (forall body,
         responses_create model (prompt transcript) = Ok body ->
         ((exists e, summarize transcript model = Raise e)
          <-> exists d v, json_loads depth_limit (strip body) = Ok (PyDict d)
                          /\ dict_get d (lit "tweets") = Some v
                          /\ not_iterable v = true)
         /\ forall e, summarize transcript model = Raise e ->
                      exists msg, e = TypeError msg)
  /\ (forall body rest,
         responses_create model (prompt transcript) = Ok body ->
         strip body
         = json_text "{'tweets': 5, 'd': "
             ++ repeat (ch "[") depth_limit ++ rest ->
         summarize transcript model = Ok []).
Proof.
  unfold summarize, generate_3_tweets, bind. split; [|split].
  - intros e H. now rewrite H.
  - intros body H. rewrite H. unfold tweets_of_output, bind. split; [split|].
    + intros [e He].
      destruct (load_tweets_cases depth_limit (strip body))
        as [E|[d [v [Hj [Hk E]]]]];
        rewrite E in He; [discriminate|].
      exists d, v. repeat split; try assumption.
      destruct (iter v) eqn:Hi; [discriminate|]. now apply iter_Raise in Hi.
    + intros [d [v [Hj [Hk Hn]]]].
      rewrite (load_tweets_object _ _ _ Hj), Hk.
      destruct (iter_not_iterable v Hn) as [msg Hi]. rewrite Hi. eauto.
    + intros e.
      destruct (iter (load_tweets depth_limit (strip body))) eqn:Hi;
        [discriminate|].
      intros [= <-]. apply iter_Raise in Hi. now destruct Hi.
  - intros body rest H Hs. rewrite H. unfold tweets_of_output.
    rewrite load_tweets_fallback; [reflexivity|]. left.
    rewrite Hs, json_loads_too_deep_member. eauto.
Qed.

(** X13.  When [json.loads] decodes the answer trimmed to an object
    whose [tweets] is not an array but a string, its characters are taken
    for the entries: the summarizer returns the first three that are not
    whitespace, each as a tweet of one character.  When it is an object,
    its keys are the entries. *)
Theorem generate_3_tweets_string_or_object (transcript model body : str) d :
  responses_create model (prompt transcript) = Ok body ->
  json_loads depth_limit (strip body) = Ok (PyDict d) ->
  (forall s, dict_get d (lit "tweets") = Some (PyStr s) ->
             summarize transcript model = Ok (firstn 3 (visible_chars s)))
  /\ (forall o, dict_get d (lit "tweets") = Some (PyDict o) ->
                summarize transcript model
                = Ok (first_3_usable (map PyStr (dict_keys o)))).
Proof.
  intros Hr Hj. unfold summarize, generate_3_tweets, bind. rewrite Hr.
  unfold tweets_of_output, bind. rewrite (load_tweets_object _ _ _ Hj). split.
  - intros s Hk. rewrite Hk. cbn [iter]. now rewrite flat_map_keep_tweet_chars.
  - intros o Hk. rewrite Hk. cbn [iter]. unfold first_3_usable.
    now rewrite <- flat_map_keep_tweet.
Qed.

(** X14.  Whitespace around the answer of the service never matters:
    with and without it the summarizer gives the same result. *)
Theorem generate_3_tweets_surrounding_whitespace (a body b transcript model : str) :
  blank a -> blank b ->
  generate_3_tweets depth_limit (answering (a ++ body ++ b)) transcript model
  = generate_3_tweets depth_limit (answering body) transcript model.
Proof.
  intros Ha Hb. unfold generate_3_tweets, answering, bind, tweets_of_output.
  now rewrite (strip_pad a body b Ha Hb).
Qed.

(** X15.  An answer whose first character, whitespace apart, is not one
    a JSON value starts with (a quote, a bracket, a brace, a digit, a
    minus sign, or the first letter of null, true, false, NaN,
    Infinity) gives the empty list: so it is for prose, and for JSON
    inside a Markdown code fence. *)
Theorem generate_3_tweets_not_json_start (transcript model body : str) c rest :
  responses_create model (prompt transcript) = Ok body ->
  strip body = c :: rest ->
  value_start c = false ->
  summarize transcript model = Ok [].
Proof.
  intros Hr Hs Hc. unfold summarize, generate_3_tweets, bind. rewrite Hr.
  unfold tweets_of_output. rewrite load_tweets_fallback; [reflexivity|].
  left. rewrite Hs. unfold json_loads.
  destruct (startswith [0xFEFF] (c :: rest)); [eauto|].
  assert (Hw : json_ws c = false).
  { pose proof (strip_by_trimmed isspace body) as [T _].
    fold (strip body) in T. rewrite Hs in T.
    destruct (json_ws c) eqn:W; [|reflexivity].
    apply json_ws_isspace in W. congruence. }
  rewrite (lstrip_by_head json_ws (c :: rest) Hw : skip_ws (c :: rest) = c :: rest).
  destruct (scan_once _ _ (c :: rest)) as [[v r]|e] eqn:E; [|cbn [bind]; eauto].
  apply scan_once_value_start in E. congruence.
Qed.

End SummarizerMore.

(** ** The prompt *)

Lemma rstrip_by_all (p : char -> bool) (s w : str) :
  Forall (fun c => p c = true) w -> rstrip_by p (s ++ w) = rstrip_by p s.
Proof.
  intros H. unfold rstrip_by. rewrite rev_app_distr, lstrip_by_all; [reflexivity|].
  now apply Forall_rev.
Qed.

Lemma lstrip_by_app_nonempty (p : char -> bool) (u v : str) :
  lstrip_by p u <> [] -> lstrip_by p (u ++ v) = lstrip_by p u ++ v.
Proof.
  induction u as [|c u IH]; simpl; [contradiction|].
  destruct (p c); [exact IH | reflexivity].
Qed.

Lemma rstrip_by_app_nonblank (p : char -> bool) (x b : str) :
  rstrip_by p b <> [] -> rstrip_by p (x ++ b) = x ++ rstrip_by p b.
Proof.
  unfold rstrip_by. intros H. rewrite rev_app_distr, lstrip_by_app_nonempty.
  - now rewrite rev_app_distr, rev_involutive.
  - intros E. apply H. now rewrite E.
Qed.

Lemma join_cons2 (sep p q : str) (rest : list str) :
  join sep (p :: q :: rest) = p ++ sep ++ join sep (q :: rest).
Proof. reflexivity. Qed.

Lemma join_one (sep p : str) : join sep [p] = p.
Proof. reflexivity. Qed.

Lemma lit_empty : lit "" = [].
Proof. reflexivity. Qed.

Lemma rstrip_by_app_keep_last (p : char -> bool) (a b : str) :
  a <> [] -> p (last a 0) = false ->
  rstrip_by p (a ++ b) = a ++ rstrip_by p b.
Proof.
  intros Hne. destruct (exists_last Hne) as [a' [z ->]].
  rewrite last_last. apply rstrip_by_app_keep.
Qed.

Lemma prompt_text (transcript : str) :
  join NEWLINE
    [ lit "";
      lit "Aşağıdaki YouTube transkriptinden videonun en önemli 3 konusunu çıkar.";
      lit "Her konu için Türkçe tek bir tweet yaz.";
      lit "";
      lit "Kurallar:";
      lit "- Tam olarak 3 tweet döndür.";
      lit "- Her tweet tek paragraf olsun.";
      lit "- Konular birbirinden farklı olsun.";
      lit "- Tweetlerde gereksiz emoji/hashtag kullanma.";
      lit "- Fazla genel konuşma: somut, videodaki ana iddiaları/başlıkları yakala.";
      lit "- Tweetleri bir haber kanalı üslubuyla oluştur.";
      lit "- Çıktıyı JSON olarak döndür: {" ++ quoted (lit "tweets") ++ lit ":["
        ++ quoted (lit "...") ++ lit "," ++ quoted (lit "...") ++ lit ","
        ++ quoted (lit "...") ++ lit "]}";
      lit "";
      lit "TRANSKRIPT:";
      transcript;
      lit "" ]
  = NEWLINE ++ PROMPT_HEAD ++ (NEWLINE ++ transcript) ++ NEWLINE.
Proof.
  unfold PROMPT_HEAD. rewrite !join_cons2, !join_one, !lit_empty.
  rewrite <- !app_assoc, !app_nil_r, !app_nil_l.
  repeat (apply (f_equal2 (@app char)); [reflexivity|]). reflexivity.
Qed.

(** X16.  No limit is applied to the transcript.  The text given to the
    service is the fixed instructions followed, on a new line, by the
    whole transcript, less the whitespace at its end only. *)
Theorem generate_3_tweets_prompt (depth_limit : nat)
    (responses_create : str -> str -> result str) (transcript model : str) :
  prompt transcript = PROMPT_HEAD ++ rstrip_by isspace (NEWLINE ++ transcript)
  /\ (rstrip_by isspace transcript <> [] ->
      prompt transcript
      = PROMPT_HEAD ++ NEWLINE ++ rstrip_by isspace transcript)
  /\ generate_3_tweets depth_limit responses_create transcript model
     = (output_text <- responses_create model
                         (PROMPT_HEAD
                            ++ rstrip_by isspace (NEWLINE ++ transcript)) ;;
        tweets_of_output depth_limit output_text).
Proof.
  assert (E : prompt transcript
              = PROMPT_HEAD ++ rstrip_by isspace (NEWLINE ++ transcript)).
  { unfold prompt. rewrite prompt_text. unfold strip, strip_by.
    rewrite lstrip_by_all by (repeat constructor).
    rewrite lstrip_by_head by (vm_compute; reflexivity).
    rewrite app_assoc, rstrip_by_all by (repeat constructor).
    apply rstrip_by_app_keep_last; [vm_compute; discriminate|].
    vm_compute. reflexivity. }
  split; [exact E|]. split.
  - intros H. rewrite E. f_equal. now apply rstrip_by_app_nonblank.
  - unfold generate_3_tweets. now rewrite E.
Qed.

(* ================================================================= *)
(** ** Further properties of the share link *)

Lemma utf8_encode_from_Raise (s : str) :
  forall i e,
    utf8_encode_from i s = Raise e
    <-> exists k c,
          e = UnicodeEncodeError (i + k)
          /\ nth_error s k = Some c
          /\ scalar_value c = false
          /\ valid_text (firstn k s).
Proof.
  induction s as [|c s IH]; intros i e.
  - split; [discriminate|]. intros [k [c [_ [H _]]]]. destruct k; discriminate.
  - cbn [utf8_encode_from].
    destruct (utf8_encode_char c) as [bs|] eqn:E.
    + assert (Hc : scalar_value c = true)
        by (apply utf8_encode_char_Some; eauto).
      split.
      * destruct (utf8_encode_from (S i) s) as [r|e0] eqn:Er; [discriminate|].
        intros [= <-]. apply IH in Er.
        destruct Er as [k [c0 [-> [Hn [Hs Hv]]]]].
        exists (S k), c0. repeat split; try assumption.
        -- f_equal. lia.
        -- cbn [firstn]. now constructor.
      * intros [k [c0 [-> [Hn [Hs Hv]]]]]. destruct k as [|k].
        -- cbn in Hn. injection Hn as ->. congruence.
        -- cbn [nth_error firstn] in Hn, Hv. inversion Hv; subst.
           assert (Er : utf8_encode_from (S i) s
                        = Raise (UnicodeEncodeError (S i + k))).
           { apply IH. exists k, c0. repeat split; assumption. }
           rewrite Er. f_equal. f_equal. lia.
    + assert (Hc : scalar_value c = false).
      { destruct (scalar_value c) eqn:S; [|reflexivity].
        apply utf8_encode_char_Some in S. destruct S as [bs S]. congruence. }
      split.
      * intros [= <-]. exists 0%nat, c. repeat split.
        -- f_equal. lia.
        -- exact Hc.
        -- constructor.
      * intros [k [c0 [-> [Hn [Hs Hv]]]]]. destruct k as [|k].
        -- f_equal. f_equal. lia.
        -- cbn [firstn] in Hv. inversion Hv; subst. congruence.
Qed.

(** X17.  The share link is refused exactly for a text that holds a
    character [utf-8] cannot encode (a lone surrogate): the builder then
    raises [UnicodeEncodeError] with the position of the first one, and
    builds a link in every other case. *)
Theorem x_intent_url_raises (text : str) (e : exn) :
  x_intent_url text = Raise e
  <-> exists k c,
        e = UnicodeEncodeError k
        /\ nth_error text k = Some c
        /\ scalar_value c = false
        /\ valid_text (firstn k text).
Proof.
  unfold x_intent_url, quote, utf8_encode, bind.
  rewrite <- (utf8_encode_from_Raise text 0 e).
  destruct (utf8_encode_from 0 text); split; intros H;
    (discriminate || exact H).
Qed.

Lemma link_char_prefix : Forall (fun c => link_char c = true) INTENT_PREFIX.
Proof. apply forallb_Forall_true. vm_compute. reflexivity. Qed.

(** X18.  Every character of a share link is a letter, a digit or one of
    [_.-~/%:?=].  So the link holds no double quote, no quote, no angle
    bracket, no ampersand and no space, and can stand in an [href]
    attribute as it is. *)
Theorem x_intent_url_characters (text url : str) :
  x_intent_url text = Ok url ->
  Forall (fun c => link_char c = true) url
  /\ ~ In DQUOTE url
  /\ Forall (fun d => ~ In d url) (lit "'<>& ").
Proof.
  unfold x_intent_url, bind.
  destruct (quote text) as [encoded|] eqn:Hq; [|discriminate].
  intros E. assert (Eu : url = INTENT_PREFIX ++ encoded) by congruence.
  subst url. clear E.
  assert (F : Forall (fun c => link_char c = true) (INTENT_PREFIX ++ encoded)).
  { apply Forall_app. split; [exact link_char_prefix|].
    destruct (unquote_quote _ _ Hq) as [_ Hc]. revert Hc. apply Forall_impl.
    intros c Hc. unfold link_char. now rewrite Hc. }
  assert (N : forall d, link_char d = false -> ~ In d (INTENT_PREFIX ++ encoded)).
  { intros d Hd Hin. rewrite Forall_forall in F. apply F in Hin. congruence. }
  split; [exact F|]. split; [now apply N|].
  apply Forall_forall. intros d Hd. apply N.
  assert (G : forallb (fun d => negb (link_char d)) (lit "'<>& ") = true)
    by (vm_compute; reflexivity).
  rewrite forallb_forall in G. apply negb_true_iff. now apply G.
Qed.

Lemma quote_safe_ascii (c : char) : quote_safe c = true -> c < 128.
Proof.
  intros H. destruct (N.ltb_spec c 128) as [L|L]; [exact L|]. exfalso.
  assert (Q : quoted_char c = true) by (unfold quoted_char; now rewrite H).
  apply quoted_char_ascii in Q. lia.
Qed.

Lemma quote_unreserved (s : str) :
  Forall (fun c => quote_safe c = true) s ->
  forall i, utf8_encode_from i s = Ok s /\ flat_map quote_byte s = s.
Proof.
  induction 1 as [|c s Hc _ IH]; intros i; [split; reflexivity|].
  destruct (IH (S i)) as [E1 E2]. cbn [utf8_encode_from flat_map].
  assert (L : (c <? 0x80) = true)
    by (apply N.ltb_lt; now apply quote_safe_ascii).
  unfold utf8_encode_char. rewrite L, E1, E2. unfold quote_byte.
  rewrite Hc. split; reflexivity.
Qed.

(** X19.  A text of letters, digits and the characters [_.-~/] is put in
    the link as it is: nothing is encoded, the slash neither. *)
Theorem x_intent_url_unreserved (text : str) :
  Forall (fun c => quote_safe c = true) text ->
  x_intent_url text = Ok (INTENT_PREFIX ++ text).
Proof.
  intros H. destruct (quote_unreserved text H 0) as [E1 E2].
  unfold x_intent_url, quote, utf8_encode, bind. now rewrite E1, E2.
Qed.

(** X20.  Two texts never share a link: the link determines the text. *)
Theorem x_intent_url_injective (a b url : str) :
  x_intent_url a = Ok url -> x_intent_url b = Ok url -> a = b.
Proof.
  unfold x_intent_url, bind.
  destruct (quote a) as [ea|] eqn:Ha; [|discriminate].
  destruct (quote b) as [eb|] eqn:Hb; [|discriminate].
  intros E1 E2.
  assert (E : INTENT_PREFIX ++ ea = INTENT_PREFIX ++ eb) by congruence.
  apply app_inv_head in E. subst eb.
  destruct (unquote_quote _ _ Ha) as [<- _].
  destruct (unquote_quote _ _ Hb) as [<- _]. reflexivity.
Qed.

Lemma utf8_encode_char_length (c : char) (bs : list N) :
  utf8_encode_char c = Some bs ->
  (1 <= List.length bs <= 4)%nat.
Proof.
  unfold utf8_encode_char.
  repeat match goal with
         | |- context [if ?b then _ else _] => destruct b
         end; intros [= <-]; simpl; lia.
Qed.

Lemma quote_byte_length (b : N) : (1 <= List.length (quote_byte b) <= 3)%nat.
Proof. unfold quote_byte. destruct (quote_safe b); simpl; lia. Qed.

Lemma flat_map_quote_byte_length (bs : list N) :
  (List.length bs <= List.length (flat_map quote_byte bs)
   <= 3 * List.length bs)%nat.
Proof.
  induction bs as [|b bs IH]; [simpl; lia|].
  cbn [flat_map]. rewrite length_app. pose proof (quote_byte_length b).
  simpl List.length. lia.
Qed.

Lemma utf8_encode_from_length (s : str) :
  forall i bs, utf8_encode_from i s = Ok bs ->
    (List.length s <= List.length bs <= 4 * List.length s)%nat.
Proof.
  induction s as [|c s IH]; intros i bs.
  - intros [= <-]. simpl. lia.
  - cbn [utf8_encode_from].
    destruct (utf8_encode_char c) as [cs|] eqn:E; [|discriminate].
    destruct (utf8_encode_from (S i) s) as [r|] eqn:Er; [|discriminate].
    intros [= <-]. rewrite length_app.
    pose proof (utf8_encode_char_length _ _ E). pose proof (IH _ _ Er).
    simpl List.length. lia.
Qed.

(** X21.  A share link is at least as long as its fixed part (38
    characters) and the text, and at most the fixed part and twelve
    characters for each character of the text. *)
Theorem x_intent_url_length (text url : str) :
  x_intent_url text = Ok url ->
  (38 + List.length text <= List.length url <= 38 + 12 * List.length text)%nat.
Proof.
  unfold x_intent_url, quote, utf8_encode, bind.
  destruct (utf8_encode_from 0 text) as [bs|] eqn:E; [|discriminate].
  intros H.
  assert (Eu : url = INTENT_PREFIX ++ flat_map quote_byte bs) by congruence.
  subst url. clear H. rewrite length_app.
  replace (List.length INTENT_PREFIX) with 38%nat by (vm_compute; reflexivity).
  pose proof (utf8_encode_from_length _ _ _ E).
  pose proof (flat_map_quote_byte_length bs). lia.
Qed.

Section ShareLinkParameter.

Variable check_bracketed_netloc : str -> option str.
Variable nfkc_has_delimiter : str -> bool.

(** X22.  Reading a share link back with [urlparse] and [parse_qs] gives
    the text as the one value of the parameter [text]; for the empty
    text the link has an empty value, and [parse_qs] finds no parameter
    at all. *)
Theorem x_intent_url_text_parameter (text url : str) :
  x_intent_url text = Ok url ->
  exists u,
    urlparse check_bracketed_netloc nfkc_has_delimiter url = Ok u
    /\ dict_get (parse_qs (query u)) (lit "text")
       = match text with [] => None | _ => Some [text] end.
Proof.
  intros H. destruct text as [|c t].
  - unfold x_intent_url, quote, utf8_encode, bind in H.
    cbn [utf8_encode_from flat_map] in H. rewrite app_nil_r in H.
    assert (E : url = INTENT_PREFIX) by congruence.
    subst url. eexists. split; [vm_compute; reflexivity|].
    vm_compute. reflexivity.
  - apply (x_intent_url_parse_qs check_bracketed_netloc nfkc_has_delimiter
             (c :: t) url); [discriminate | exact H].
Qed.

End ShareLinkParameter.

(* ================================================================= *)
(** ** Further properties of the preview *)

(** X23.  The preview never has more than 2003 characters, and it is
    longer than the transcript itself exactly for a transcript of 2001
    or 2002 characters. *)
Theorem transcript_preview_length (transcript : str) :
  (List.length (transcript_preview transcript) <= 2003)%nat
  /\ ((List.length transcript < List.length (transcript_preview transcript))%nat
      <-> (2000 < List.length transcript < 2003)%nat).
Proof.
  unfold transcript_preview. rewrite length_app, length_firstn.
  destruct (Nat.ltb_spec 2000 (List.length transcript)) as [H|H].
  - replace (List.length (lit "...")) with 3%nat by reflexivity. lia.
  - replace (List.length (lit "")) with 0%nat by reflexivity. lia.
Qed.

Lemma transcript_preview_cases (transcript : str) :
  preview_of transcript (transcript_preview transcript).
Proof.
  unfold preview_of, transcript_preview, PREVIEW_LIMIT, TRUNCATION_MARKER.
  split; intros H.
  - apply Nat.ltb_lt in H. now rewrite H.
  - assert (E : (2000 <? List.length transcript)%nat = false)
      by (apply Nat.ltb_ge; exact H).
    rewrite E. change (lit "") with (@nil char). rewrite app_nil_r.
    now apply firstn_all2.
Qed.

(* ================================================================= *)
(** ** Texts that Streamlit can show *)

Lemma encodable_valid_text (s : str) : encodable s = true <-> valid_text s.
Proof.
  unfold encodable, valid_text. rewrite forallb_forall, Forall_forall.
  reflexivity.
Qed.

Lemma encodable_false (s : str) : encodable s = false <-> ~ valid_text s.
Proof.
  rewrite <- encodable_valid_text. destruct (encodable s); split; intros H;
    [discriminate | exfalso; now apply H | discriminate | reflexivity].
Qed.

Lemma encodable_app (a b : str) :
  encodable (a ++ b) = encodable a && encodable b.
Proof. apply forallb_app. Qed.

Lemma valid_text_app (a b : str) :
  valid_text (a ++ b) <-> valid_text a /\ valid_text b.
Proof. apply Forall_app. Qed.

Lemma valid_text_firstn (n : nat) (s : str) :
  valid_text s -> valid_text (firstn n s).
Proof.
  unfold valid_text. rewrite !Forall_forall. intros H c Hc.
  apply H. now apply (In_firstn n).
Qed.

Lemma scalar_value_ascii (c : char) : c < 128 -> scalar_value c = true.
Proof.
  intros H. unfold scalar_value, is_surrogate.
  assert (L1 : (c <? 0x110000) = true) by (apply N.ltb_lt; lia).
  assert (L2 : (0xD800 <=? c) = false) by (apply N.leb_gt; lia).
  now rewrite L1, L2.
Qed.

Lemma valid_text_ascii (s : str) :
  Forall (fun c => c < 128) s -> valid_text s.
Proof. apply Forall_impl. apply scalar_value_ascii. Qed.

(** The preview of a transcript can be shown when the transcript can. *)
Lemma valid_text_preview (transcript : str) :
  valid_text transcript -> valid_text (transcript_preview transcript).
Proof.
  intros H. unfold transcript_preview. apply valid_text_app. split.
  - now apply valid_text_firstn.
  - destruct (_ <? _)%nat; apply encodable_valid_text; vm_compute; reflexivity.
Qed.

(** The decimal digits of a number. *)
Lemma decimal_from_digits (fuel : nat) :
  forall i acc,
    Forall (fun c => c < 128) acc ->
    Forall (fun c => c < 128) (decimal_from fuel i acc).
Proof.
  induction fuel as [|fuel IH]; intros i acc H; [exact H|].
  cbn [decimal_from].
  assert (D : Forall (fun c => c < 128) ((ch "0" + i mod 10) :: acc)).
  { constructor; [|exact H].
    pose proof (N.mod_upper_bound i 10 ltac:(discriminate)) as B.
    change (ch "0") with 48. lia. }
  destruct (i <? 10); [exact D | now apply IH].
Qed.

Lemma tweet_heading_valid (i : N) : valid_text (tweet_heading i).
Proof.
  unfold tweet_heading. apply valid_text_app. split.
  - apply encodable_valid_text. vm_compute. reflexivity.
  - apply valid_text_app. split.
    + apply valid_text_ascii. apply decimal_from_digits. constructor.
    + apply encodable_valid_text. vm_compute. reflexivity.
Qed.

(** A share link is ASCII. *)
Lemma x_intent_url_ascii (t link : str) :
  x_intent_url t = Ok link -> Forall (fun c => c < 128) link.
Proof.
  unfold x_intent_url, bind.
  destruct (quote t) as [encoded|] eqn:Hq; [|discriminate].
  intros E. assert (El : link = INTENT_PREFIX ++ encoded) by congruence.
  subst link. apply Forall_app. split.
  - apply Forall_forall. intros c Hc.
    assert (F : forallb (fun c => c <? 128) INTENT_PREFIX = true)
      by (vm_compute; reflexivity).
    rewrite forallb_forall in F. apply N.ltb_lt. now apply F.
  - destruct (unquote_quote _ _ Hq) as [_ Hc]. revert Hc.
    apply Forall_impl. apply quoted_char_ascii.
Qed.

Lemma share_button_valid (link : str) :
  valid_text link -> valid_text (share_button link).
Proof.
  intros H. unfold share_button.
  rewrite !join_cons2, !join_one, !lit_empty.
  repeat (apply valid_text_app; split);
    try exact H;
    try (apply encodable_valid_text; vm_compute; reflexivity).
Qed.

(** The link of a text is built exactly when the text can be shown. *)
Lemma x_intent_url_valid_text (t : str) :
  valid_text t <-> exists link, x_intent_url t = Ok link.
Proof.
  rewrite quote_valid_text. unfold x_intent_url, bind. split.
  - intros [encoded ->]. eauto.
  - intros [link H]. destruct (quote t) as [encoded|]; [eauto | discriminate].
Qed.

(** The calls of the page that Streamlit carries out. *)
Lemma accepted_st_error (msg : str) :
  valid_text msg -> accepted (st_error msg) = true.
Proof.
  intros H. apply encodable_valid_text in H. unfold accepted. cbn [texts forallb].
  now rewrite H.
Qed.

Lemma accepted_st_write (t : str) :
  accepted (st_write t) = encodable t.
Proof. unfold accepted. cbn [texts forallb]. apply andb_true_r. Qed.

Lemma accepted_st_text_area (value : str) (height : N) :
  accepted (st_text_area (lit " ") value height) = encodable value.
Proof.
  unfold accepted. cbn [texts forallb].
  replace (encodable (lit " ")) with true by (vm_compute; reflexivity).
  cbn [andb]. apply andb_true_r.
Qed.

Lemma accepted_st_code (tweets : list str) :
  accepted (st_code (tweets_or_empty_notice tweets) (lit "text")) = true.
Proof. destruct tweets; vm_compute; reflexivity. Qed.

Lemma accepted_heading (i : N) :
  accepted (st_markdown (tweet_heading i) false) = true.
Proof.
  unfold accepted. cbn [texts forallb].
  pose proof (tweet_heading_valid i) as H. apply encodable_valid_text in H.
  now rewrite H.
Qed.

Lemma accepted_share_button (t link : str) :
  x_intent_url t = Ok link ->
  accepted (st_markdown (share_button link) true) = true.
Proof.
  intros H. unfold accepted. cbn [texts forallb].
  assert (V : valid_text (share_button link)).
  { apply share_button_valid. apply valid_text_ascii.
    now apply (x_intent_url_ascii t). }
  apply encodable_valid_text in V. now rewrite V.
Qed.

(* ================================================================= *)
(** ** Properties of the page *)

Lemma and_then_shown {A B} (shown : list element) (a : A) (k : A -> script B) :
  and_then (shown, inl a) k = after shown (k a).
Proof. unfold and_then, after. now destruct (k a). Qed.

Lemma and_then_halt {A B} (shown : list element) (h : halt) (k : A -> script B) :
  and_then (shown, inr h) k = (shown, inr h).
Proof. reflexivity. Qed.

Lemma after_pair {A} (shown shown' : list element) (r : A + halt) :
  after shown (shown', r) = (shown ++ shown', r).
Proof. reflexivity. Qed.

Lemma and_then_after {A B} (shown : list element) (m : script A)
    (k : A -> script B) :
  and_then (after shown m) k = after shown (and_then m k).
Proof.
  unfold after, and_then. destruct m as [shown' [a|h]]; cbn [fst snd].
  - destruct (k a) as [shown'' r]. cbn [fst snd]. now rewrite app_assoc.
  - reflexivity.
Qed.

Lemma after_after {A} (shown shown' : list element) (m : script A) :
  after shown (after shown' m) = after (shown ++ shown') m.
Proof. unfold after. cbn [fst snd]. now rewrite app_assoc. Qed.

Lemma after_nil {A} (m : script A) : after [] m = m.
Proof. now destruct m. Qed.

Lemma show_accepted (streamlit_error : element -> exn) (e : element) :
  accepted e = true -> show streamlit_error e = ([e], inl tt).
Proof. intros H. unfold show. now rewrite H. Qed.

Lemma show_refused (streamlit_error : element -> exn) (e : element) :
  accepted e = false ->
  show streamlit_error e = ([], inr (Uncaught (streamlit_error e))).
Proof. intros H. unfold show. now rewrite H. Qed.

(** Deciding that a call written in the script is carried out. *)
Ltac accepted_call :=
  lazymatch goal with
  | H : accepted ?e = true |- accepted ?e = true => exact H
  | |- accepted (st_code (tweets_or_empty_notice _) _) = true =>
    apply accepted_st_code
  | |- accepted (st_markdown (tweet_heading _) false) = true =>
    apply accepted_heading
  | |- _ => solve [vm_compute; reflexivity]
  end.

(** Running the script up to the next call that is not decided. *)
Ltac script_steps :=
  unfold ret, st_stop;
  repeat first
    [ rewrite show_accepted by accepted_call
    | rewrite and_then_halt
    | rewrite and_then_shown
    | rewrite and_then_after
    | rewrite after_after
    | rewrite after_pair
    | rewrite after_nil ];
  cbn [app].

Lemma show_all_page_head (streamlit_error : element -> exn) :
  show_all streamlit_error page_head = (page_head, inl tt).
Proof.
  unfold page_head. cbn [show_all]. script_steps. reflexivity.
Qed.

Lemma fst_and_then {A B} (m : script A) (k : A -> script B) :
  fst (and_then m k)
  = fst m ++ match snd m with
             | inl a => fst (k a)
             | inr _ => []
             end.
Proof.
  destruct m as [shown [a|h]]; cbn [and_then fst snd].
  - now destruct (k a).
  - now rewrite app_nil_r.
Qed.

Lemma snd_and_then {A B} (m : script A) (k : A -> script B) :
  snd (and_then m k)
  = match snd m with
    | inl a => snd (k a)
    | inr h => inr h
    end.
Proof.
  destruct m as [shown [a|h]]; cbn [and_then snd]; [|reflexivity].
  now destruct (k a).
Qed.

Lemma In_and_then {A B} (x : element) (m : script A) (k : A -> script B) :
  In x (fst (and_then m k)) ->
  In x (fst m) \/ exists a, In x (fst (k a)).
Proof.
  rewrite fst_and_then. intros H. apply in_app_or in H.
  destruct H as [H|H]; [now left|]. destruct (snd m) as [a|h]; [|destruct H].
  right. now exists a.
Qed.

Lemma In_show (streamlit_error : element -> exn) (x e : element) :
  In x (fst (show streamlit_error e)) -> x = e.
Proof.
  unfold show. destruct (accepted e); cbn [fst In]; intros H;
    [destruct H as [H|[]]; now subst | destruct H].
Qed.

Lemma In_inside {A} (x : element) (column : nat) (m : script A) :
  In x (fst (inside column m)) -> is_text_area x = false.
Proof.
  unfold inside. cbn [fst]. intros H. apply in_map_iff in H.
  destruct H as [y [<- _]]. reflexivity.
Qed.

Lemma fst_call {A} (r : result A) : fst (call r) = [].
Proof. now destruct r. Qed.

(** Following an element through the pieces of a script. *)
Ltac in_script H :=
  cbv beta in H;
  lazymatch type of H with
  | In _ (fst (and_then _ _)) =>
    apply In_and_then in H;
    let a := fresh "a" in
    destruct H as [H|[a H]]; [in_script H | in_script H]
  | In _ (fst (show _ _)) => apply In_show in H
  | In _ (fst (ret _)) => destruct H
  | In _ (fst st_stop) => destruct H
  | In _ (fst (call _)) => rewrite fst_call in H; destruct H
  | In _ (fst (inside _ _)) => apply In_inside in H
  | In _ (fst (if ?c then _ else _)) => destruct c; in_script H
  | _ => idtac
  end.

Lemma show_tweets_no_text_area (streamlit_error : element -> exn)
    (tweets : list str) :
  forall i x, In x (fst (show_tweets streamlit_error i tweets)) ->
              is_text_area x = false.
Proof.
  induction tweets as [|t rest IH]; intros i x H; [destruct H|].
  cbn [show_tweets] in H. in_script H; try (subst x; reflexivity);
    try exact H.
  now apply (IH (i + 1)).
Qed.

Section PageProperties.

Variable check_bracketed_netloc : str -> option str.
Variable nfkc_has_delimiter : str -> bool.
Variable ytt_fetch : str -> list str -> result (list FetchedTranscriptSnippet).
Variable depth_limit : nat.
Variable responses_create : str -> str -> result str.
Variable exception_str : exn -> str.
Variable streamlit_error : element -> exn.

Let extract := extract_video_id check_bracketed_netloc nfkc_has_delimiter.
Let fetch := fetch_transcript_text ytt_fetch.
Let summarize := generate_3_tweets depth_limit responses_create.
Let click :=
  on_click check_bracketed_netloc nfkc_has_delimiter ytt_fetch depth_limit
    responses_create exception_str streamlit_error.
Let run :=
  main check_bracketed_netloc nfkc_has_delimiter ytt_fetch depth_limit
    responses_create exception_str streamlit_error.
Let after_preview := preview_part depth_limit responses_create streamlit_error.
Let after_summary := tweets_part depth_limit responses_create streamlit_error.

Local Abbreviation display := (show streamlit_error).
Local Abbreviation display_tweets := (show_tweets streamlit_error).

(** The extractor raises [ValueError] only. *)
Lemma extract_video_id_raises_ValueError (url : str) (e : exn) :
  extract url = Raise e -> exists msg, e = ValueError msg.
Proof.
  unfold extract, extract_video_id, bind. cbv zeta.
  destruct (fullmatch ID_RE (strip url)); [discriminate|].
  destruct (urlparse _ _ (strip url)) as [u|e0] eqn:Hp.
  - destruct (existsb _ _ && fullmatch ID_RE _); [discriminate|].
    destruct (str_eqb (path u) _ && fullmatch ID_RE _); [discriminate|].
    destruct (search SHORTS_RE (path u)); [discriminate|].
    intros [= <-]. unfold EXTRACT_ERROR. eauto.
  - intros [= <-]. eapply urlparse_raises_ValueError. exact Hp.
Qed.

(** An error shown before [st.stop()]. *)
Lemma show_then_stop {A} (e : element) :
  (display e ;;; st_stop : script A)
  = if accepted e then ([e], inr Stop)
    else ([], inr (Uncaught (streamlit_error e))).
Proof.
  unfold show. destruct (accepted e); script_steps; reflexivity.
Qed.

(** The steps of the block under the button. *)
Lemma on_click_no_key (key : option str) (url model : str) :
  not_set key = true ->
  click key url model = ([st_error NO_KEY_MESSAGE], inr Stop).
Proof.
  intros H. unfold click, on_click. rewrite H. script_steps. reflexivity.
Qed.

Lemma on_click_key_set (key : option str) (url model : str) :
  not_set key = false ->
  click key url model
  = (video_id <~ try_except (extract url)
                   (fun e => display (st_error (exception_str e)) ;;; st_stop) ;;
     display (st_spinner (lit "Transkript çekiliyor...")) ;;;
     transcript <~ try_except (fetch video_id)
                     (fun e =>
                        display (st_error (TRANSCRIPT_ERROR_PREFIX ++ exception_str e)) ;;;
                        st_stop) ;;
     after_preview transcript model).
Proof.
  intros H. unfold click, on_click. rewrite H. unfold ret at 1.
  now rewrite and_then_shown, after_nil.
Qed.

Lemma on_click_extract_raises (key : option str) (url model : str) (e : exn) :
  not_set key = false ->
  extract url = Raise e ->
  click key url model
  = if accepted (st_error (exception_str e))
    then ([st_error (exception_str e)], inr Stop)
    else ([], inr (Uncaught (streamlit_error (st_error (exception_str e))))).
Proof.
  intros Hk He. rewrite (on_click_key_set key url model Hk), He.
  unfold try_except. rewrite show_then_stop.
  destruct (accepted _); reflexivity.
Qed.

Lemma on_click_fetch_raises (key : option str) (url model video_id : str)
    (e : exn) :
  not_set key = false ->
  extract url = Ok video_id ->
  fetch video_id = Raise e ->
  click key url model
  = if accepted (st_error (TRANSCRIPT_ERROR_PREFIX ++ exception_str e))
    then ([ st_spinner (lit "Transkript çekiliyor...");
            st_error (TRANSCRIPT_ERROR_PREFIX ++ exception_str e) ],
          inr Stop)
    else ([ st_spinner (lit "Transkript çekiliyor...") ],
          inr (Uncaught (streamlit_error
                           (st_error (TRANSCRIPT_ERROR_PREFIX
                                        ++ exception_str e))))).
Proof.
  intros Hk He Hf. rewrite (on_click_key_set key url model Hk), He.
  unfold try_except at 1. unfold ret at 1. rewrite and_then_shown, after_nil.
  rewrite Hf. unfold try_except. rewrite show_then_stop.
  destruct (accepted _); script_steps; reflexivity.
Qed.

Lemma on_click_fetched (key : option str) (url model video_id transcript : str) :
  not_set key = false ->
  extract url = Ok video_id ->
  fetch video_id = Ok transcript ->
  click key url model
  = after [st_spinner (lit "Transkript çekiliyor...")]
      (after_preview transcript model).
Proof.
  intros Hk He Hf. rewrite (on_click_key_set key url model Hk).
  rewrite He. unfold try_except at 1. script_steps. rewrite Hf.
  unfold try_except. script_steps. reflexivity.
Qed.

Lemma preview_part_shown (transcript model : str) :
  valid_text (transcript_preview transcript) ->
  after_preview transcript model
  = after [ st_subheader (lit "Transkript (önizleme)");
            st_text_area (lit " ") (transcript_preview transcript) 180;
            st_spinner (lit "Tweetler üretiliyor...") ]
      (after_summary transcript model).
Proof.
  intros Hv. unfold after_preview, preview_part.
  assert (A : accepted (st_text_area (lit " ")
                          (transcript_preview transcript) 180) = true).
  { rewrite accepted_st_text_area. now apply encodable_valid_text. }
  script_steps. reflexivity.
Qed.

Lemma preview_part_refused (transcript model : str) :
  ~ valid_text (transcript_preview transcript) ->
  after_preview transcript model
  = ([ st_subheader (lit "Transkript (önizleme)") ],
     inr (Uncaught (streamlit_error
                      (st_text_area (lit " ")
                         (transcript_preview transcript) 180)))).
Proof.
  intros Hv. unfold after_preview, preview_part.
  assert (A : accepted (st_text_area (lit " ")
                          (transcript_preview transcript) 180) = false).
  { rewrite accepted_st_text_area. now apply encodable_false. }
  rewrite (show_refused streamlit_error _ A).
  script_steps. reflexivity.
Qed.

Lemma on_click_transcript (key : option str) (url model video_id transcript : str) :
  not_set key = false ->
  extract url = Ok video_id ->
  fetch video_id = Ok transcript ->
  valid_text (transcript_preview transcript) ->
  click key url model
  = after (transcript_shown transcript) (after_summary transcript model).
Proof.
  intros Hk He Hf Hv.
  rewrite (on_click_fetched key url model video_id transcript Hk He Hf).
  rewrite (preview_part_shown transcript model Hv).
  rewrite after_after. reflexivity.
Qed.

Lemma tweets_part_raises (transcript model : str) (e : exn) :
  summarize transcript model = Raise e ->
  after_summary transcript model = ([], inr (Uncaught e)).
Proof.
  intros H. unfold after_summary, tweets_part. fold summarize. rewrite H.
  unfold call. script_steps. reflexivity.
Qed.

Lemma tweets_part_few (transcript model : str) (tweets : list str) :
  summarize transcript model = Ok tweets ->
  (List.length tweets < 3)%nat ->
  after_summary transcript model
  = ([ st_subheader (lit "Tweetler");
       st_warning FEW_TWEETS_WARNING;
       st_code (tweets_or_empty_notice tweets) (lit "text") ],
     inl tt).
Proof.
  intros H Hl. unfold after_summary, tweets_part. fold summarize. rewrite H.
  apply Nat.ltb_lt in Hl. unfold call. script_steps. rewrite Hl.
  script_steps. reflexivity.
Qed.

Lemma tweets_part_loop (transcript model : str) (tweets : list str) :
  summarize transcript model = Ok tweets ->
  (3 <= List.length tweets)%nat ->
  after_summary transcript model
  = after [st_subheader (lit "Tweetler")] (display_tweets 1 tweets).
Proof.
  intros H Hl. unfold after_summary, tweets_part. fold summarize. rewrite H.
  apply Nat.ltb_ge in Hl. unfold call. script_steps. rewrite Hl.
  reflexivity.
Qed.

Lemma tweets_of_output_length (output_text : str) (tweets : list str) :
  tweets_of_output depth_limit output_text = Ok tweets ->
  (List.length tweets <= 3)%nat.
Proof.
  unfold tweets_of_output, bind.
  destruct (iter (load_tweets depth_limit (strip output_text))) as [items|];
    [|discriminate].
  intros E.
  assert (Et : tweets = firstn 3 (flat_map keep_tweet items)) by congruence.
  rewrite Et, length_firstn. lia.
Qed.

Lemma generate_3_tweets_length (transcript model : str) (tweets : list str) :
  summarize transcript model = Ok tweets -> (List.length tweets <= 3)%nat.
Proof.
  unfold summarize, generate_3_tweets, bind.
  destruct (responses_create model (prompt transcript)); [|discriminate].
  apply tweets_of_output_length.
Qed.

(** One turn of the loop: the tweet is shown with its link, or the call
    that shows it raises and the link is not built. *)
Lemma show_tweets_cons_shown (i : N) (t link : str) (rest : list str) :
  x_intent_url t = Ok link ->
  display_tweets i (t :: rest)
  = after (tweet_block i t link) (display_tweets (i + 1) rest).
Proof.
  intros H. cbn [show_tweets]. rewrite H.
  assert (Aw : accepted (st_write t) = true).
  { rewrite accepted_st_write. apply encodable_valid_text.
    apply x_intent_url_valid_text. eauto. }
  pose proof (accepted_share_button t link H) as Ab.
  unfold call, inside.
  script_steps. cbn [fst snd map]. script_steps. reflexivity.
Qed.

Lemma show_tweets_cons_refused (i : N) (t : str) (rest : list str) :
  ~ valid_text t ->
  display_tweets i (t :: rest)
  = ([ st_columns [lit "0.88"; lit "0.12"] (lit "top");
       within 0 (st_markdown (tweet_heading i) false) ],
     inr (Uncaught (streamlit_error (st_write t)))).
Proof.
  intros H. cbn [show_tweets].
  assert (Aw : accepted (st_write t) = false).
  { rewrite accepted_st_write. now apply encodable_false. }
  rewrite (show_refused streamlit_error (st_write t) Aw).
  unfold inside. script_steps. cbn [fst snd map]. script_steps. reflexivity.
Qed.

(** The loop on tweets that can all be shown, and on tweets of which
    [t] is the first that cannot. *)
Lemma show_tweets_shown (tweets : list str) :
  forall i,
    Forall valid_text tweets ->
    exists links,
      Forall2 (fun t link => x_intent_url t = Ok link) tweets links
      /\ display_tweets i tweets = (tweet_blocks i tweets links, inl tt).
Proof.
  induction tweets as [|t rest IH]; intros i Hv.
  - exists []. split; [constructor | reflexivity].
  - inversion Hv as [|? ? Ht Hr]; subst.
    apply x_intent_url_valid_text in Ht. destruct Ht as [link Hl].
    destruct (IH (i + 1) Hr) as [links [Hf E]].
    exists (link :: links). split; [now constructor|].
    rewrite (show_tweets_cons_shown i t link rest Hl), E.
    reflexivity.
Qed.

Lemma show_tweets_refused (pre : list str) :
  forall i t post,
    Forall valid_text pre -> ~ valid_text t ->
    exists links,
      Forall2 (fun t link => x_intent_url t = Ok link) pre links
      /\ display_tweets i (pre ++ t :: post)
         = (tweet_blocks i pre links
              ++ [ st_columns [lit "0.88"; lit "0.12"] (lit "top");
                   within 0 (st_markdown
                               (tweet_heading (i + N.of_nat (List.length pre)))
                               false) ],
            inr (Uncaught (streamlit_error (st_write t)))).
Proof.
  induction pre as [|p pre IH]; intros i t post Hv Ht.
  - exists []. split; [constructor|]. cbn [app tweet_blocks List.length].
    rewrite (show_tweets_cons_refused i t post Ht).
    replace (i + N.of_nat 0) with i by lia. reflexivity.
  - inversion Hv as [|? ? Hp Hr]; subst.
    apply x_intent_url_valid_text in Hp. destruct Hp as [link Hl].
    destruct (IH (i + 1) t post Hr Ht) as [links [Hf E]].
    exists (link :: links). split; [now constructor|].
    cbn [app]. rewrite (show_tweets_cons_shown i p link _ Hl), E.
    unfold after. cbn [fst snd tweet_blocks List.length].
    replace (i + 1 + N.of_nat (List.length pre))
      with (i + N.of_nat (S (List.length pre))) by lia.
    now rewrite <- app_assoc.
Qed.

Lemma first_refused (tweets : list str) :
  Forall valid_text tweets
  \/ exists pre t post,
       tweets = pre ++ t :: post /\ Forall valid_text pre /\ ~ valid_text t.
Proof.
  induction tweets as [|t rest IH]; [left; constructor|].
  destruct (encodable t) eqn:E.
  - apply encodable_valid_text in E. destruct IH as [IH|[pre [x [post [-> [Hp Hx]]]]]].
    + left. now constructor.
    + right. exists (t :: pre), x, post. repeat split; try assumption.
      now constructor.
  - apply encodable_false in E. right. exists [], t, rest. repeat split.
    + constructor.
    + exact E.
Qed.

(** X24.  Without a click nothing runs below the button.  After a click
    without [OPENAI_API_KEY] (unset or empty) the page shows one error and
    stops, whatever the reference: the extractor, the provider and the
    service are not used. *)
Theorem main_without_key (key : option str) (url model : str) :
  run key url model false = (page_head, inl tt)
  /\ (not_set key = true ->
      run key url model true
      = (page_head ++ [st_error NO_KEY_MESSAGE], inr Stop)).
Proof.
  unfold run, main. rewrite show_all_page_head. split.
  - script_steps. now rewrite app_nil_r.
  - intros H. fold click. rewrite (on_click_no_key key url model H).
    script_steps. reflexivity.
Qed.

(** X25.  A reference the extractor refuses ends the run at once: the
    page shows the text of the extractor's exception, a [ValueError],
    and stops before the provider is asked.  Should the text hold a
    character that has no UTF-8 encoding, [st.error] itself raises: the
    run ends with that exception and nothing is shown. *)
Theorem on_click_bad_reference (key : option str) (url model : str) (e : exn) :
  not_set key = false ->
  extract url = Raise e ->
  (valid_text (exception_str e) ->
   click key url model = ([st_error (exception_str e)], inr Stop))
  /\ (~ valid_text (exception_str e) ->
      click key url model
      = ([], inr (Uncaught (streamlit_error (st_error (exception_str e))))))
  /\ exists msg, e = ValueError msg.
Proof.
  intros Hk He.
  rewrite (on_click_extract_raises key url model e Hk He).
  split; [|split].
  - intros Hv. now rewrite (accepted_st_error _ Hv).
  - intros Hv. destruct (accepted (st_error (exception_str e))) eqn:A;
      [|reflexivity].
    exfalso. apply Hv. apply encodable_valid_text.
    unfold accepted in A. cbn [texts forallb] in A.
    now rewrite andb_true_r in A.
  - now apply (extract_video_id_raises_ValueError url).
Qed.

(** X26.  When the provider raises, the page shows the text of its
    exception after [Transkript alınamadı: ] and stops: no preview is
    shown and the service is not called.  Should the text hold a
    character that has no UTF-8 encoding, [st.error] itself raises and
    the run ends with that exception. *)
Theorem on_click_no_transcript (key : option str) (url model video_id : str)
    (e : exn) :
  not_set key = false ->
  extract url = Ok video_id ->
  ytt_fetch video_id DEFAULT_LANGUAGES = Raise e ->
  (valid_text (exception_str e) ->
   click key url model
   = ([ st_spinner (lit "Transkript çekiliyor...");
        st_error (lit "Transkript alınamadı: " ++ exception_str e) ],
      inr Stop))
  /\ (~ valid_text (exception_str e) ->
      click key url model
      = ([ st_spinner (lit "Transkript çekiliyor...") ],
         inr (Uncaught
                (streamlit_error
                   (st_error (lit "Transkript alınamadı: "
                                ++ exception_str e)))))).
Proof.
  intros Hk He Hf.
  apply (fetch_transcript_text_Raise ytt_fetch) in Hf.
  rewrite (on_click_fetch_raises key url model video_id e Hk He Hf).
  assert (A : accepted (st_error (TRANSCRIPT_ERROR_PREFIX ++ exception_str e))
              = encodable (exception_str e)).
  { unfold accepted. cbn [texts forallb]. rewrite andb_true_r, encodable_app.
    replace (encodable TRANSCRIPT_ERROR_PREFIX) with true
      by (vm_compute; reflexivity).
    reflexivity. }
  rewrite A. split; intros Hv.
  - apply encodable_valid_text in Hv. now rewrite Hv.
  - apply encodable_false in Hv. now rewrite Hv.
Qed.

(** X27.  With fewer than three tweets the page shows the transcript
    preview, a warning and the tweets it has (or a notice that there are
    none), and the run ends normally: no share link is built.  The
    preview has to be one that Streamlit can show; the tweets need not,
    for they are shown as the text of the list. *)
Theorem on_click_few_tweets (key : option str)
    (url model video_id transcript : str) (tweets : list str) :
  not_set key = false ->
  extract url = Ok video_id ->
  fetch video_id = Ok transcript ->
  valid_text (transcript_preview transcript) ->
  summarize transcript model = Ok tweets ->
  (List.length tweets < 3)%nat ->
  click key url model
  = (transcript_shown transcript
       ++ [ st_subheader (lit "Tweetler");
            st_warning FEW_TWEETS_WARNING;
            st_code (match tweets with
                     | [] => inr (lit "Boş çıktı")
                     | _ => inl tweets
                     end) (lit "text") ],
     inl tt).
Proof.
  intros Hk He Hf Hv Hs Hl.
  rewrite (on_click_transcript key url model video_id transcript Hk He Hf Hv).
  rewrite (tweets_part_few transcript model tweets Hs Hl). reflexivity.
Qed.

(** X28.  When the summarizer returns three tweets of encodable text, the
    page shows, after the preview, the three tweets in order, numbered
    1, 2 and 3, each with the share link of its own text, and the run
    ends normally.  The preview has to be one that Streamlit can
    show. *)
Theorem on_click_three_tweets (key : option str)
    (url model video_id transcript : str) (tweets : list str) :
  not_set key = false ->
  extract url = Ok video_id ->
  fetch video_id = Ok transcript ->
  valid_text (transcript_preview transcript) ->
  summarize transcript model = Ok tweets ->
  (3 <= List.length tweets)%nat ->
  Forall valid_text tweets ->
  exists t1 t2 t3 l1 l2 l3,
    tweets = [t1; t2; t3]
    /\ x_intent_url t1 = Ok l1 /\ x_intent_url t2 = Ok l2
    /\ x_intent_url t3 = Ok l3
    /\ click key url model
       = (transcript_shown transcript
            ++ st_subheader (lit "Tweetler")
            :: tweet_block 1 t1 l1 ++ tweet_block 2 t2 l2
            ++ tweet_block 3 t3 l3,
          inl tt)
    /\ map tweet_heading [1; 2; 3]
       = [lit "**Tweet 1**"; lit "**Tweet 2**"; lit "**Tweet 3**"].
Proof.
  intros Hk He Hf Hp Hs Hl Hv.
  pose proof (generate_3_tweets_length _ _ _ Hs) as Hm.
  destruct tweets as [|t1 [|t2 [|t3 [|t4 r]]]]; simpl in Hl, Hm; try lia.
  destruct (show_tweets_shown [t1; t2; t3] 1 Hv) as [links [Hf2 E]].
  inversion Hf2 as [|? l1 ? links1 E1 Hf3]; subst.
  inversion Hf3 as [|? l2 ? links2 E2 Hf4]; subst.
  inversion Hf4 as [|? l3 ? links3 E3 Hf5]; subst.
  inversion Hf5; subst.
  exists t1, t2, t3, l1, l2, l3. repeat split; try assumption.
  rewrite (on_click_transcript key url model video_id transcript Hk He Hf Hp).
  rewrite (tweets_part_loop transcript model _ Hs) by (simpl; lia).
  rewrite E. unfold after. cbn [fst snd tweet_blocks].
  change (1 + 1) with 2. change (2 + 1) with 3.
  now rewrite app_nil_r.
Qed.

(** X29.  What ends a run with an exception that nothing catches.  It is
    the exception of the summarizer, or the exception of a call of
    Streamlit on a text it cannot encode: the message of the extractor's
    or of the provider's exception in [st.error], the preview in
    [st.text_area], or a tweet in [st.write], the first of the tweets
    that cannot be encoded.  The extractor and the provider themselves
    cannot crash a run.  When the summarizer raises, the preview is
    already shown and the run ends there; when the preview cannot be
    encoded, the run ends before the summarizer is called. *)
Theorem on_click_uncaught (key : option str) (url model : str) (e : exn) :
  (snd (click key url model) = inr (Uncaught e) ->
   (exists e0,
       extract url = Raise e0 /\ ~ valid_text (exception_str e0)
       /\ e = streamlit_error (st_error (exception_str e0)))
   \/ (exists video_id e0,
          extract url = Ok video_id /\ fetch video_id = Raise e0
          /\ ~ valid_text (exception_str e0)
          /\ e = streamlit_error
                   (st_error (TRANSCRIPT_ERROR_PREFIX ++ exception_str e0)))
   \/ (exists video_id transcript,
          extract url = Ok video_id /\ fetch video_id = Ok transcript
          /\ ((~ valid_text (transcript_preview transcript)
               /\ e = streamlit_error
                        (st_text_area (lit " ")
                           (transcript_preview transcript) 180))
              \/ (valid_text (transcript_preview transcript)
                  /\ (summarize transcript model = Raise e
                      \/ exists pre t post,
                           summarize transcript model = Ok (pre ++ t :: post)
                           /\ Forall valid_text pre /\ ~ valid_text t
                           /\ e = streamlit_error (st_write t))))))
  /\ (forall video_id transcript,
         not_set key = false ->
         extract url = Ok video_id ->
         fetch video_id = Ok transcript ->
         (valid_text (transcript_preview transcript) ->
          summarize transcript model = Raise e ->
          click key url model
          = (transcript_shown transcript, inr (Uncaught e)))
         /\ (~ valid_text (transcript_preview transcript) ->
             click key url model
             = ([ st_spinner (lit "Transkript çekiliyor...");
                  st_subheader (lit "Transkript (önizleme)") ],
                inr (Uncaught
                       (streamlit_error
                          (st_text_area (lit " ")
                             (transcript_preview transcript) 180)))))).
Proof.
  split.
  - destruct (not_set key) eqn:Hk.
    { rewrite (on_click_no_key key url model Hk). discriminate. }
    destruct (extract url) as [video_id|e0] eqn:He.
    2: { rewrite (on_click_extract_raises key url model e0 Hk He).
         destruct (accepted (st_error (exception_str e0))) eqn:A;
           [discriminate|].
         cbn [snd]. intros H. left. exists e0.
         split; [first [assumption | reflexivity]|]. split; [|congruence].
         intros V. apply accepted_st_error in V. congruence. }
    destruct (fetch video_id) as [transcript|e0] eqn:Hf.
    2: { rewrite (on_click_fetch_raises key url model video_id e0 Hk He Hf).
         destruct (accepted (st_error (TRANSCRIPT_ERROR_PREFIX
                                         ++ exception_str e0))) eqn:A;
           [discriminate|].
         cbn [snd]. intros H. right. left. exists video_id, e0.
         split; [first [assumption | reflexivity]|].
         split; [first [assumption | reflexivity]|]. split; [|congruence].
         intros V.
         assert (A' : accepted (st_error (TRANSCRIPT_ERROR_PREFIX
                                            ++ exception_str e0)) = true).
         { apply accepted_st_error. apply valid_text_app. split; [|exact V].
           apply encodable_valid_text. vm_compute. reflexivity. }
         congruence. }
    intros H. right. right. exists video_id, transcript.
    split; [first [assumption | reflexivity]|].
    split; [first [assumption | reflexivity]|].
    destruct (encodable (transcript_preview transcript)) eqn:Ep.
    + apply encodable_valid_text in Ep. right. split; [exact Ep|].
      rewrite (on_click_transcript key url model video_id transcript
                 Hk He Hf Ep) in H.
      destruct (summarize transcript model) as [tweets|e1] eqn:Hs.
      2: { rewrite (tweets_part_raises transcript model e1 Hs) in H.
           cbn [after fst snd] in H. left. congruence. }
      right.
      destruct (Nat.ltb_spec (List.length tweets) 3) as [Hl|Hl].
      { rewrite (tweets_part_few transcript model tweets Hs Hl) in H.
        discriminate. }
      rewrite (tweets_part_loop transcript model tweets Hs Hl) in H.
      destruct (first_refused tweets) as [Hv|[pre [t [post [-> [Hp Ht]]]]]].
      { destruct (show_tweets_shown tweets 1 Hv) as [links [_ E]].
        rewrite E in H. discriminate. }
      destruct (show_tweets_refused pre 1 t post Hp Ht) as [links [_ E]].
      rewrite E in H. cbn [after fst snd] in H.
      exists pre, t, post. repeat split; try assumption. congruence.
    + apply encodable_false in Ep. left. split; [exact Ep|].
      rewrite (on_click_fetched key url model video_id transcript Hk He Hf),
        (preview_part_refused transcript model Ep) in H.
      cbn [after fst snd] in H. congruence.
  - intros video_id transcript Hk He Hf. split.
    + intros Hv Hs.
      rewrite (on_click_transcript key url model video_id transcript
                 Hk He Hf Hv).
      rewrite (tweets_part_raises transcript model e Hs).
      unfold after. cbn [fst snd]. now rewrite app_nil_r.
    + intros Hv.
      rewrite (on_click_fetched key url model video_id transcript Hk He Hf),
        (preview_part_refused transcript model Hv).
      reflexivity.
Qed.

(** X30.  A tweet that cannot be encoded ends the run where it is to be
    shown: the tweets before it are shown, each with its link, then the
    columns and the heading of the tweet, and [st.write] raises.  Its
    link is not built: in a run [x_intent_url] is given only tweets that
    [st.write] has shown, and it never raises. *)
Theorem on_click_tweet_refused (key : option str)
    (url model video_id transcript : str) (pre : list str) (t : str)
    (post : list str) :
  not_set key = false ->
  extract url = Ok video_id ->
  fetch video_id = Ok transcript ->
  valid_text (transcript_preview transcript) ->
  summarize transcript model = Ok (pre ++ t :: post) ->
  (3 <= List.length (pre ++ t :: post))%nat ->
  Forall valid_text pre ->
  ~ valid_text t ->
  exists links,
    Forall2 (fun p link => x_intent_url p = Ok link) pre links
    /\ click key url model
       = (transcript_shown transcript
            ++ st_subheader (lit "Tweetler")
            :: tweet_blocks 1 pre links
            ++ [ st_columns [lit "0.88"; lit "0.12"] (lit "top");
                 within 0 (st_markdown
                             (tweet_heading (1 + N.of_nat (List.length pre)))
                             false) ],
          inr (Uncaught (streamlit_error (st_write t)))).
Proof.
  intros Hk He Hf Hp Hs Hl Hv Ht.
  destruct (show_tweets_refused pre 1 t post Hv Ht) as [links [Hf2 E]].
  exists links. split; [exact Hf2|].
  rewrite (on_click_transcript key url model video_id transcript Hk He Hf Hp).
  rewrite (tweets_part_loop transcript model _ Hs Hl), E.
  reflexivity.
Qed.

(** An element of the part of the page under the preview is no text
    area. *)
Lemma tweets_part_no_text_area (transcript model : str) (x : element) :
  In x (fst (after_summary transcript model)) -> is_text_area x = false.
Proof.
  unfold after_summary, tweets_part. intros H. in_script H;
    try (subst x; reflexivity).
  eapply show_tweets_no_text_area. exact H.
Qed.

(** The text areas of a run: the preview, and nothing else. *)
Lemma text_area_of_click (key : option str) (url model : str)
    (label value : str) (height : N) :
  In (st_text_area label value height) (fst (click key url model)) ->
  exists video_id transcript,
    extract url = Ok video_id /\ fetch video_id = Ok transcript
    /\ value = transcript_preview transcript
    /\ label = lit " " /\ height = 180.
Proof.
  destruct (not_set key) eqn:Hk.
  { rewrite (on_click_no_key key url model Hk). cbn [fst In].
    intros [H|[]]. discriminate H. }
  destruct (extract url) as [video_id|e0] eqn:He.
  2: { rewrite (on_click_extract_raises key url model e0 Hk He).
       destruct (accepted _); cbn [fst In]; intros H;
         [destruct H as [H|[]]; discriminate H | destruct H]. }
  destruct (fetch video_id) as [transcript|e0] eqn:Hf.
  2: { rewrite (on_click_fetch_raises key url model video_id e0 Hk He Hf).
       destruct (accepted _); cbn [fst In]; intros H;
         [destruct H as [H|[H|[]]]; discriminate H
         | destruct H as [H|[]]; discriminate H]. }
  rewrite (on_click_fetched key url model video_id transcript Hk He Hf).
  unfold after. cbn [fst app In]. intros [H|H]; [discriminate H|].
  unfold after_preview, preview_part in H. in_script H;
    try discriminate H.
  - injection H as -> -> ->. exists video_id, transcript. now repeat split.
  - apply tweets_part_no_text_area in H. discriminate H.
Qed.

(** C9.  The transcript preview shown on output.  The one text area of
    the page holds the preview of the transcript that was fetched: its
    first 2000 characters with the marker "..." after them when the
    transcript is longer, the transcript unchanged when it is not; and
    a run that fetches a transcript shows it, under the heading of the
    preview, provided the preview is a text that Streamlit can show. *)
Theorem transcript_preview_shown (key : option str) (url model : str)
    (clicked : bool) :
  (forall label value height,
      In (st_text_area label value height) (fst (run key url model clicked)) ->
      clicked = true
      /\ exists video_id transcript,
           extract url = Ok video_id /\ fetch video_id = Ok transcript
           /\ preview_of transcript value
           /\ label = lit " " /\ height = 180)
  /\ (forall video_id transcript,
         clicked = true ->
         not_set key = false ->
         extract url = Ok video_id ->
         fetch video_id = Ok transcript ->
         exists shown,
           preview_of transcript shown
           /\ (valid_text shown ->
               exists rest,
                 fst (run key url model clicked)
                 = page_head
                     ++ st_spinner (lit "Transkript çekiliyor...")
                     :: st_subheader (lit "Transkript (önizleme)")
                     :: st_text_area (lit " ") shown 180
                     :: rest)).
Proof.
  unfold run, main. rewrite show_all_page_head. fold click. split.
  - intros label value height H.
    rewrite fst_and_then in H. cbn [fst snd] in H. apply in_app_or in H.
    destruct H as [H|H].
    { exfalso. unfold page_head in H. cbn [In] in H.
      repeat (destruct H as [H|H]; [discriminate H|]). exact H. }
    destruct clicked; [|destruct H]. split; [reflexivity|].
    destruct (text_area_of_click key url model label value height H)
      as [video_id [transcript [He [Hf [-> [-> ->]]]]]].
    exists video_id, transcript. repeat split; try assumption;
      apply transcript_preview_cases.
  - intros video_id transcript -> Hk He Hf.
    exists (transcript_preview transcript).
    split; [apply transcript_preview_cases|]. intros Hv.
    rewrite fst_and_then. cbn [fst snd].
    rewrite (on_click_transcript key url model video_id transcript
               Hk He Hf Hv).
    unfold after. cbn [fst].
    exists (st_spinner (lit "Tweetler üretiliyor...")
              :: fst (after_summary transcript model)).
    reflexivity.
Qed.

End PageProperties.

(* ================================================================= *)
(** ** The further properties at work *)

Lemma extract_video_id_surrounding_whitespace_witness :
  extract_video_id accept_bracketed no_nfkc_delimiter
    ([0x20; 0x0A] ++ lit "https://youtu.be/dQw4w9WgXcQ" ++ [0x09])
  = extract_video_id accept_bracketed no_nfkc_delimiter
      (lit "https://youtu.be/dQw4w9WgXcQ").
Proof.
  apply (extract_video_id_surrounding_whitespace
           accept_bracketed no_nfkc_delimiter);
    repeat constructor.
Defined.

Lemma extract_video_id_idempotent_witness :
  extract_video_id accept_bracketed no_nfkc_delimiter (lit "dQw4w9WgXcQ")
  = Ok (lit "dQw4w9WgXcQ").
Proof.
  apply (extract_video_id_idempotent accept_bracketed no_nfkc_delimiter
           (lit "https://www.youtube.com/watch?v=dQw4w9WgXcQ&t=10s")).
  vm_compute. reflexivity.
Defined.

Lemma extract_video_id_single_segment_witness :
  extract_video_id accept_bracketed no_nfkc_delimiter
    (lit "https://" ++ lit "YOUTU.BE" ++ ch "/" :: lit "dQw4w9WgXcQ")
  = Raise EXTRACT_ERROR.
Proof.
  apply (proj2 (extract_video_id_single_segment
                  accept_bracketed no_nfkc_delimiter
                  (lit "YOUTU.BE") (lit "dQw4w9WgXcQ")
                  ltac:(apply forallb_Forall_true; vm_compute; reflexivity)
                  ltac:(apply forallb_Forall_true; vm_compute; reflexivity))).
  intros [[H|[H|[]]] _]; vm_compute in H; discriminate H.
Defined.

Lemma extract_video_id_watch_witness :
  extract_video_id accept_bracketed no_nfkc_delimiter
    (lit "https://" ++ lit "m.youtube.com" ++ lit "/watch?v="
       ++ lit "dQw4w9WgXcQ" ++ ch "&" :: lit "t=10s&list=PL1")
  = Ok (lit "dQw4w9WgXcQ").
Proof.
  apply (proj1 (extract_video_id_watch
                  accept_bracketed no_nfkc_delimiter
                  (lit "m.youtube.com") (lit "dQw4w9WgXcQ") (lit "t=10s&list=PL1")
                  ltac:(apply forallb_Forall_true; vm_compute; reflexivity)
                  ltac:(apply forallb_Forall_true; vm_compute; reflexivity)
                  ltac:(apply forallb_Forall_true; vm_compute; reflexivity))).
  apply fullmatch_ID_RE. vm_compute. reflexivity.
Defined.

Lemma extract_video_id_shorts_witness :
  extract_video_id accept_bracketed no_nfkc_delimiter
    (lit "https://" ++ lit "youtube.com"
       ++ (lit "/shorts/" ++ lit "dQw4w9WgXcQ" ++ lit "ZZZ/more")
       ++ ch "?" :: lit "feature=share")
  = Ok (lit "dQw4w9WgXcQ").
Proof.
  apply (extract_video_id_shorts accept_bracketed no_nfkc_delimiter
           (lit "youtube.com") (lit "dQw4w9WgXcQ") (lit "ZZZ/more")
           (lit "feature=share")).
  - apply forallb_Forall_true. vm_compute. reflexivity.
  - apply fullmatch_ID_RE. vm_compute. reflexivity.
  - apply forallb_Forall_true. vm_compute. reflexivity.
  - apply forallb_Forall_true. vm_compute. reflexivity.
Defined.

Lemma extract_video_id_short_link_witness :
  extract_video_id accept_bracketed no_nfkc_delimiter
    (lit "https://" ++ lit "www.youtu.be"
       ++ (ch "/" :: lit "dQw4w9WgXcQ" ++ lit "/anything")
       ++ ch "?" :: lit "t=42&v=AAAAAAAAAAA")
  = Ok (lit "dQw4w9WgXcQ").
Proof.
  apply (extract_video_id_short_link accept_bracketed no_nfkc_delimiter
           (lit "www.youtu.be") (lit "dQw4w9WgXcQ") (lit "/anything")
           (lit "t=42&v=AAAAAAAAAAA")).
  - right. left. reflexivity.
  - apply fullmatch_ID_RE. vm_compute. reflexivity.
  - apply forallb_Forall_true. vm_compute. reflexivity.
  - reflexivity.
  - apply forallb_Forall_true. vm_compute. reflexivity.
Defined.

Lemma extract_video_id_without_scheme_witness :
  extract_video_id accept_bracketed no_nfkc_delimiter
    (lit "youtu.be" ++ ch "/" :: lit "dQw4w9WgXcQ")
  = Raise EXTRACT_ERROR
  /\ extract_video_id accept_bracketed no_nfkc_delimiter
       (lit "youtu.be" ++ lit "/watch?v=" ++ lit "dQw4w9WgXcQ")
     = Raise EXTRACT_ERROR
  /\ extract_video_id accept_bracketed no_nfkc_delimiter
       (lit "youtu.be" ++ lit "/shorts/" ++ lit "dQw4w9WgXcQ")
     = Ok (lit "dQw4w9WgXcQ").
Proof.
  apply (extract_video_id_without_scheme accept_bracketed no_nfkc_delimiter
           (lit "youtu.be") (lit "dQw4w9WgXcQ")).
  - vm_compute. discriminate.
  - apply forallb_Forall_true. vm_compute. reflexivity.
  - apply fullmatch_ID_RE. vm_compute. reflexivity.
Defined.

Lemma extract_video_id_errors_witness :
  extract_video_id accept_bracketed no_nfkc_delimiter
    (lit "https://[" ++ lit "youtu.be")
  = Raise (ValueError (lit "Invalid IPv6 URL")).
Proof.
  apply (proj2 (extract_video_id_errors accept_bracketed no_nfkc_delimiter)).
  apply forallb_Forall_true. vm_compute. reflexivity.
Defined.

Lemma fetch_transcript_text_trimmed_witness :
  trimmed isspace (lit "Hello  there world").
Proof.
  apply (fetch_transcript_text_trimmed
           (providing [snippet (lit " Hello  there"); snippet (lit "world ")])
           (lit "dQw4w9WgXcQ")).
  vm_compute. reflexivity.
Defined.

Lemma fetch_transcript_text_empty_witness :
  fetch_transcript_text
    (providing [snippet (lit "  "); snippet (lit ""); snippet [0x0A]])
    (lit "dQw4w9WgXcQ")
  = Ok [].
Proof.
  apply (proj2 (fetch_transcript_text_empty
                  (providing [snippet (lit "  "); snippet (lit ""); snippet [0x0A]])
                  (lit "dQw4w9WgXcQ")
                  [snippet (lit "  "); snippet (lit ""); snippet [0x0A]]
                  eq_refl)).
  intros s [<-|[<-|[<-|[]]]]; repeat constructor.
Defined.

Lemma generate_3_tweets_result_witness :
  (List.length [lit "a"; lit "b c"; lit "d"] <= 3)%nat
  /\ Forall (fun t => t <> [] /\ trimmed isspace t) [lit "a"; lit "b c"; lit "d"].
Proof.
  apply (generate_3_tweets_result 100
           (answering (json_text "{'tweets':[' a ', 'b c', 1, 'd', 'e']}"))
           (lit "transcript") (lit "gpt-4.1-mini")).
  vm_compute. reflexivity.
Defined.

Lemma generate_3_tweets_raises_witness :
  generate_3_tweets 100 (refusing (ServiceError (lit "RateLimitError")))
    (lit "transcript") (lit "gpt-5")
  = Raise (ServiceError (lit "RateLimitError"))
  /\ (exists e,
         generate_3_tweets 100 (answering (json_text " {'tweets': null} "))
           (lit "transcript") (lit "gpt-5") = Raise e)
  /\ (exists d v,
         json_loads 100 (strip (json_text "{'tweets': true}")) = Ok (PyDict d)
         /\ dict_get d (lit "tweets") = Some v
         /\ not_iterable v = true)
  /\ generate_3_tweets 100
       (answering (json_text "{'tweets': 5, 'd': "
                     ++ repeat (ch "[") 100 ++ lit "1"))
       (lit "transcript") (lit "gpt-5")
     = Ok [].
Proof.
  split; [|split; [|split]].
  - apply (proj1 (generate_3_tweets_raises 100
                    (refusing (ServiceError (lit "RateLimitError")))
                    (lit "transcript") (lit "gpt-5"))).
    reflexivity.
  - apply (proj2 (proj1 (proj1 (proj2 (generate_3_tweets_raises 100
                    (answering (json_text " {'tweets': null} "))
                    (lit "transcript") (lit "gpt-5")))
                    (json_text " {'tweets': null} ") eq_refl))).
    exists [(lit "tweets", PyNone)], PyNone.
    split; [vm_compute; reflexivity|]. split; reflexivity.
  - apply (proj1 (proj1 (proj1 (proj2 (generate_3_tweets_raises 100
                    (answering (json_text "{'tweets': true}"))
                    (lit "transcript") (lit "gpt-5")))
                    (json_text "{'tweets': true}") eq_refl))).
    exists (TypeError (lit "'bool' object is not iterable")).
    vm_compute. reflexivity.
  - apply (proj2 (proj2 (generate_3_tweets_raises 100
                    (answering (json_text "{'tweets': 5, 'd': "
                                  ++ repeat (ch "[") 100 ++ lit "1"))
                    (lit "transcript") (lit "gpt-5")))
             (json_text "{'tweets': 5, 'd': " ++ repeat (ch "[") 100 ++ lit "1")
             (lit "1") eq_refl).
    vm_compute. reflexivity.
Defined.

Lemma generate_3_tweets_string_or_object_witness :
  generate_3_tweets 100 (answering (json_text "{'tweets': 'hi there'}"))
    (lit "transcript") (lit "gpt-5")
  = Ok (firstn 3 (visible_chars (lit "hi there")))
  /\ firstn 3 (visible_chars (lit "hi there")) = [lit "h"; lit "i"; lit "t"].
Proof.
  split; [|vm_compute; reflexivity].
  apply (proj1 (generate_3_tweets_string_or_object 100
                  (answering (json_text "{'tweets': 'hi there'}"))
                  (lit "transcript") (lit "gpt-5")
                  (json_text "{'tweets': 'hi there'}")
                  [(lit "tweets", PyStr (lit "hi there"))]
                  eq_refl
                  ltac:(vm_compute; reflexivity))).
  vm_compute. reflexivity.
Defined.

Lemma generate_3_tweets_surrounding_whitespace_witness :
  generate_3_tweets 100
    (answering ([0x0A; 0xA0] ++ json_text "{'tweets':['a']}" ++ [0x0C]))
    (lit "transcript") (lit "gpt-5")
  = generate_3_tweets 100 (answering (json_text "{'tweets':['a']}"))
      (lit "transcript") (lit "gpt-5").
Proof.
  apply generate_3_tweets_surrounding_whitespace; repeat constructor.
Defined.

Lemma generate_3_tweets_not_json_start_witness :
  generate_3_tweets 100
    (answering (lit "```json" ++ NEWLINE ++ json_text "{'tweets':['a','b','c']}"
                  ++ NEWLINE ++ lit "```"))
    (lit "transcript") (lit "gpt-4.1")
  = Ok [].
Proof.
  eapply (generate_3_tweets_not_json_start 100
            (answering (lit "```json" ++ NEWLINE
                          ++ json_text "{'tweets':['a','b','c']}"
                          ++ NEWLINE ++ lit "```"))).
  - reflexivity.
  - vm_compute. reflexivity.
  - vm_compute. reflexivity.
Defined.

Lemma x_intent_url_raises_witness :
  x_intent_url (lit "ab" ++ [0xDC00] ++ lit "c") = Raise (UnicodeEncodeError 2).
Proof.
  apply (proj2 (x_intent_url_raises (lit "ab" ++ [0xDC00] ++ lit "c")
                  (UnicodeEncodeError 2))).
  exists 2%nat, 0xDC00.
  split; [reflexivity|]. split; [reflexivity|]. split; [reflexivity|].
  unfold valid_text. apply forallb_Forall_true. vm_compute. reflexivity.
Defined.

Lemma x_intent_url_characters_witness :
  ~ In DQUOTE (lit "https://twitter.com/intent/tweet?text=%22%3Cb%3E%22%20%26")
  /\ Forall
       (fun d =>
          ~ In d (lit "https://twitter.com/intent/tweet?text=%22%3Cb%3E%22%20%26"))
       (lit "'<>& ").
Proof.
  apply (x_intent_url_characters (DQUOTE :: lit "<b>" ++ DQUOTE :: lit " &")).
  vm_compute. reflexivity.
Defined.

Lemma x_intent_url_unreserved_witness :
  x_intent_url (lit "a/b-c_d.e~f") = Ok (INTENT_PREFIX ++ lit "a/b-c_d.e~f").
Proof.
  apply (x_intent_url_unreserved (lit "a/b-c_d.e~f")).
  apply forallb_Forall_true. vm_compute. reflexivity.
Defined.

Lemma x_intent_url_injective_witness :
  lit "a b" = [ch "a"; 0x20; ch "b"].
Proof.
  apply (x_intent_url_injective (lit "a b") [ch "a"; 0x20; ch "b"]
           (lit "https://twitter.com/intent/tweet?text=a%20b"));
    vm_compute; reflexivity.
Defined.

Lemma x_intent_url_length_witness :
  (38 + List.length (lit "a b&c")
   <= List.length (lit "https://twitter.com/intent/tweet?text=a%20b%26c")
   <= 38 + 12 * List.length (lit "a b&c"))%nat.
Proof.
  apply (x_intent_url_length (lit "a b&c")). vm_compute. reflexivity.
Defined.

Lemma x_intent_url_text_parameter_witness :
  exists u,
    urlparse accept_bracketed no_nfkc_delimiter
      (lit "https://twitter.com/intent/tweet?text=a%20b%26c") = Ok u
    /\ dict_get (parse_qs (query u)) (lit "text") = Some [lit "a b&c"].
Proof.
  apply (x_intent_url_text_parameter accept_bracketed no_nfkc_delimiter
           (lit "a b&c")).
  vm_compute. reflexivity.
Defined.

Lemma main_without_key_witness :
  main accept_bracketed no_nfkc_delimiter (providing []) 100 (answering [])
    message_of encode_error
    (Some []) (lit "https://youtu.be/dQw4w9WgXcQ") (lit "gpt-5") true
  = (page_head ++ [st_error NO_KEY_MESSAGE], inr Stop).
Proof.
  apply (proj2 (main_without_key accept_bracketed no_nfkc_delimiter
                  (providing []) 100 (answering []) message_of encode_error
                  (Some []) (lit "https://youtu.be/dQw4w9WgXcQ") (lit "gpt-5"))).
  reflexivity.
Defined.

Lemma on_click_bad_reference_witness :
  on_click accept_bracketed no_nfkc_delimiter (providing []) 100 (answering [])
    message_of encode_error
    (Some (lit "sk-test")) (lit "not a url") (lit "gpt-5")
  = ([st_error (message_of EXTRACT_ERROR)], inr Stop)
  /\ on_click accept_bracketed no_nfkc_delimiter (providing []) 100
       (answering []) garbled_message_of encode_error
       (Some (lit "sk-test")) (lit "not a url") (lit "gpt-5")
     = ([], inr (Uncaught
                   (encode_error
                      (st_error (garbled_message_of EXTRACT_ERROR)))))
  /\ exists msg, EXTRACT_ERROR = ValueError msg.
Proof.
  destruct (on_click_bad_reference accept_bracketed no_nfkc_delimiter
              (providing []) 100 (answering []) message_of encode_error
              (Some (lit "sk-test")) (lit "not a url") (lit "gpt-5")
              EXTRACT_ERROR eq_refl ltac:(vm_compute; reflexivity))
    as [Shown [_ Class]].
  destruct (on_click_bad_reference accept_bracketed no_nfkc_delimiter
              (providing []) 100 (answering []) garbled_message_of encode_error
              (Some (lit "sk-test")) (lit "not a url") (lit "gpt-5")
              EXTRACT_ERROR eq_refl ltac:(vm_compute; reflexivity))
    as [_ [Refused _]].
  split; [|split; [|exact Class]].
  - apply Shown. apply forallb_Forall_true. vm_compute. reflexivity.
  - apply Refused. intros V. apply encodable_valid_text in V.
    vm_compute in V. discriminate V.
Defined.

Lemma on_click_no_transcript_witness :
  on_click accept_bracketed no_nfkc_delimiter
    (failing (ServiceError (lit "TranscriptsDisabled"))) 100 (answering [])
    message_of encode_error
    (Some (lit "sk-test")) (lit "https://youtu.be/dQw4w9WgXcQ") (lit "gpt-5")
  = ([ st_spinner (lit "Transkript çekiliyor...");
       st_error (lit "Transkript alınamadı: "
                   ++ message_of (ServiceError (lit "TranscriptsDisabled"))) ],
     inr Stop)
  /\ on_click accept_bracketed no_nfkc_delimiter
       (failing (ServiceError (lit "TranscriptsDisabled"))) 100 (answering [])
       garbled_message_of encode_error
       (Some (lit "sk-test")) (lit "https://youtu.be/dQw4w9WgXcQ") (lit "gpt-5")
     = ([ st_spinner (lit "Transkript çekiliyor...") ],
        inr (Uncaught
               (encode_error
                  (st_error
                     (lit "Transkript alınamadı: "
                        ++ garbled_message_of
                             (ServiceError (lit "TranscriptsDisabled"))))))).
Proof.
  split.
  - apply (proj1 (on_click_no_transcript accept_bracketed no_nfkc_delimiter
                    (failing (ServiceError (lit "TranscriptsDisabled"))) 100
                    (answering []) message_of encode_error
                    (Some (lit "sk-test")) (lit "https://youtu.be/dQw4w9WgXcQ")
                    (lit "gpt-5") (lit "dQw4w9WgXcQ")
                    (ServiceError (lit "TranscriptsDisabled"))
                    eq_refl ltac:(vm_compute; reflexivity) eq_refl)).
    apply forallb_Forall_true. vm_compute. reflexivity.
  - apply (proj2 (on_click_no_transcript accept_bracketed no_nfkc_delimiter
                    (failing (ServiceError (lit "TranscriptsDisabled"))) 100
                    (answering []) garbled_message_of encode_error
                    (Some (lit "sk-test")) (lit "https://youtu.be/dQw4w9WgXcQ")
                    (lit "gpt-5") (lit "dQw4w9WgXcQ")
                    (ServiceError (lit "TranscriptsDisabled"))
                    eq_refl ltac:(vm_compute; reflexivity) eq_refl)).
    intros V. apply encodable_valid_text in V. vm_compute in V.
    discriminate V.
Defined.

Lemma on_click_few_tweets_witness :
  on_click accept_bracketed no_nfkc_delimiter
    (providing [snippet (lit "Hello")]) 100
    (answering (lit "Sorry, I cannot help with that."))
    message_of encode_error
    (Some (lit "sk-test")) (lit "https://youtu.be/dQw4w9WgXcQ") (lit "gpt-5")
  = (transcript_shown (lit "Hello")
       ++ [ st_subheader (lit "Tweetler");
            st_warning FEW_TWEETS_WARNING;
            st_code (inr (lit "Boş çıktı")) (lit "text") ],
     inl tt).
Proof.
  apply (on_click_few_tweets accept_bracketed no_nfkc_delimiter
           (providing [snippet (lit "Hello")]) 100
           (answering (lit "Sorry, I cannot help with that."))
           message_of encode_error
           (Some (lit "sk-test")) (lit "https://youtu.be/dQw4w9WgXcQ")
           (lit "gpt-5") (lit "dQw4w9WgXcQ") (lit "Hello") []).
  - reflexivity.
  - vm_compute. reflexivity.
  - vm_compute. reflexivity.
  - apply forallb_Forall_true. vm_compute. reflexivity.
  - vm_compute. reflexivity.
  - simpl. lia.
Defined.

Lemma on_click_three_tweets_witness :
  exists t1 t2 t3 l1 l2 l3,
    [lit "x"; lit "y z"; lit "w"] = [t1; t2; t3]
    /\ x_intent_url t1 = Ok l1 /\ x_intent_url t2 = Ok l2
    /\ x_intent_url t3 = Ok l3
    /\ on_click accept_bracketed no_nfkc_delimiter
         (providing [snippet (lit "Hello")]) 100
         (answering (json_text "{'tweets':['x','y z','w']}"))
         message_of encode_error
         (Some (lit "sk-test")) (lit "https://youtu.be/dQw4w9WgXcQ")
         (lit "gpt-5")
       = (transcript_shown (lit "Hello")
            ++ st_subheader (lit "Tweetler")
            :: tweet_block 1 t1 l1 ++ tweet_block 2 t2 l2
            ++ tweet_block 3 t3 l3,
          inl tt)
    /\ map tweet_heading [1; 2; 3]
       = [lit "**Tweet 1**"; lit "**Tweet 2**"; lit "**Tweet 3**"].
Proof.
  apply (on_click_three_tweets accept_bracketed no_nfkc_delimiter
           (providing [snippet (lit "Hello")]) 100
           (answering (json_text "{'tweets':['x','y z','w']}"))
           message_of encode_error
           (Some (lit "sk-test")) (lit "https://youtu.be/dQw4w9WgXcQ")
           (lit "gpt-5") (lit "dQw4w9WgXcQ") (lit "Hello")
           [lit "x"; lit "y z"; lit "w"]).
  - reflexivity.
  - vm_compute. reflexivity.
  - vm_compute. reflexivity.
  - apply forallb_Forall_true. vm_compute. reflexivity.
  - vm_compute. reflexivity.
  - simpl. lia.
  - repeat (apply Forall_cons;
            [unfold valid_text; apply forallb_Forall_true; vm_compute; reflexivity|]).
    apply Forall_nil.
Defined.

Lemma on_click_uncaught_witness :
  on_click accept_bracketed no_nfkc_delimiter
    (providing [snippet (lit "Hello")]) 100
    (answering (json_text "{'tweets': 5}"))
    message_of encode_error
    (Some (lit "sk-test")) (lit "https://youtu.be/dQw4w9WgXcQ") (lit "gpt-5")
  = (transcript_shown (lit "Hello"),
     inr (Uncaught (TypeError (lit "'int' object is not iterable"))))
  /\ on_click accept_bracketed no_nfkc_delimiter
       (providing [snippet (lit "He" ++ [0xDC00] ++ lit "llo")]) 100
       (answering (json_text "{'tweets':['x','y','z']}"))
       message_of encode_error
       (Some (lit "sk-test")) (lit "https://youtu.be/dQw4w9WgXcQ") (lit "gpt-5")
     = ([ st_spinner (lit "Transkript çekiliyor...");
          st_subheader (lit "Transkript (önizleme)") ],
        inr (Uncaught
               (encode_error
                  (st_text_area (lit " ")
                     (transcript_preview (lit "He" ++ [0xDC00] ++ lit "llo"))
                     180))))
  /\ exists transcript,
       fetch_transcript_text
         (providing [snippet (lit "He" ++ [0xDC00] ++ lit "llo")])
         (lit "dQw4w9WgXcQ") = Ok transcript
       /\ ~ valid_text (transcript_preview transcript).
Proof.
  assert (Hb : ~ valid_text
                 (transcript_preview (lit "He" ++ [0xDC00] ++ lit "llo"))).
  { intros V. apply encodable_valid_text in V. vm_compute in V.
    discriminate V. }
  assert (R : on_click accept_bracketed no_nfkc_delimiter
                (providing [snippet (lit "He" ++ [0xDC00] ++ lit "llo")]) 100
                (answering (json_text "{'tweets':['x','y','z']}"))
                message_of encode_error
                (Some (lit "sk-test")) (lit "https://youtu.be/dQw4w9WgXcQ")
                (lit "gpt-5")
              = ([ st_spinner (lit "Transkript çekiliyor...");
                   st_subheader (lit "Transkript (önizleme)") ],
                 inr (Uncaught
                        (encode_error
                           (st_text_area (lit " ")
                              (transcript_preview
                                 (lit "He" ++ [0xDC00] ++ lit "llo"))
                              180))))).
  { apply (proj2 (proj2 (on_click_uncaught accept_bracketed no_nfkc_delimiter
                    (providing [snippet (lit "He" ++ [0xDC00] ++ lit "llo")])
                    100 (answering (json_text "{'tweets':['x','y','z']}"))
                    message_of encode_error (Some (lit "sk-test"))
                    (lit "https://youtu.be/dQw4w9WgXcQ") (lit "gpt-5")
                    (RecursionError))
                    (lit "dQw4w9WgXcQ") (lit "He" ++ [0xDC00] ++ lit "llo")
                    eq_refl
                    ltac:(vm_compute; reflexivity)
                    ltac:(vm_compute; reflexivity))).
    exact Hb. }
  split; [|split; [exact R|]].
  - apply (proj1 (proj2 (on_click_uncaught accept_bracketed no_nfkc_delimiter
                    (providing [snippet (lit "Hello")]) 100
                    (answering (json_text "{'tweets': 5}"))
                    message_of encode_error (Some (lit "sk-test"))
                    (lit "https://youtu.be/dQw4w9WgXcQ") (lit "gpt-5")
                    (TypeError (lit "'int' object is not iterable")))
                    (lit "dQw4w9WgXcQ") (lit "Hello")
                    eq_refl
                    ltac:(vm_compute; reflexivity)
                    ltac:(vm_compute; reflexivity))).
    + apply forallb_Forall_true. vm_compute. reflexivity.
    + vm_compute. reflexivity.
  - destruct (proj1 (on_click_uncaught accept_bracketed no_nfkc_delimiter
                (providing [snippet (lit "He" ++ [0xDC00] ++ lit "llo")])
                100 (answering (json_text "{'tweets':['x','y','z']}"))
                message_of encode_error (Some (lit "sk-test"))
                (lit "https://youtu.be/dQw4w9WgXcQ") (lit "gpt-5")
                (encode_error
                   (st_text_area (lit " ")
                      (transcript_preview (lit "He" ++ [0xDC00] ++ lit "llo"))
                      180)))
                ltac:(rewrite R; reflexivity))
      as [[e0 [He _]]|[[video_id [e0 [_ [Hf _]]]]
                      |[video_id [transcript [He [Hf Hc]]]]]].
    + vm_compute in He. discriminate He.
    + discriminate Hf.
    + assert (Ev : video_id = lit "dQw4w9WgXcQ").
      { vm_compute in He. injection He as He. symmetry. exact He. }
      subst video_id. exists transcript. split; [exact Hf|].
      assert (Et : transcript = lit "He" ++ [0xDC00] ++ lit "llo").
      { vm_compute in Hf. injection Hf as Hf. rewrite <- Hf.
        vm_compute. reflexivity. }
      rewrite Et. exact Hb.
Defined.

Lemma on_click_tweet_refused_witness :
  exists links,
    Forall2 (fun p link => x_intent_url p = Ok link) [lit "x"] links
    /\ on_click accept_bracketed no_nfkc_delimiter
         (providing [snippet (lit "Hello")]) 100
         (answering (json_text "{'tweets':['x','\ud83d','w']}"))
         message_of encode_error
         (Some (lit "sk-test")) (lit "https://youtu.be/dQw4w9WgXcQ")
         (lit "gpt-5")
       = (transcript_shown (lit "Hello")
            ++ st_subheader (lit "Tweetler")
            :: tweet_blocks 1 [lit "x"] links
            ++ [ st_columns [lit "0.88"; lit "0.12"] (lit "top");
                 within 0 (st_markdown
                             (tweet_heading
                                (1 + N.of_nat (List.length [lit "x"])))
                             false) ],
          inr (Uncaught (encode_error (st_write [0xD83D])))).
Proof.
  apply (on_click_tweet_refused accept_bracketed no_nfkc_delimiter
           (providing [snippet (lit "Hello")]) 100
           (answering (json_text "{'tweets':['x','\ud83d','w']}"))
           message_of encode_error
           (Some (lit "sk-test")) (lit "https://youtu.be/dQw4w9WgXcQ")
           (lit "gpt-5") (lit "dQw4w9WgXcQ") (lit "Hello")
           [lit "x"] [0xD83D] [lit "w"]).
  - reflexivity.
  - vm_compute. reflexivity.
  - vm_compute. reflexivity.
  - apply forallb_Forall_true. vm_compute. reflexivity.
  - vm_compute. reflexivity.
  - simpl. lia.
  - repeat constructor.
  - intros V. apply encodable_valid_text in V. vm_compute in V. discriminate V.
Defined.

Lemma transcript_preview_shown_witness :
  (exists rest,
      fst (main accept_bracketed no_nfkc_delimiter
             (providing [snippet (repeat (ch "a") 2001)]) 100
             (answering (lit "Sorry, I cannot help with that."))
             message_of encode_error
             (Some (lit "sk-test")) (lit "dQw4w9WgXcQ") (lit "gpt-5") true)
      = page_head
          ++ st_spinner (lit "Transkript çekiliyor...")
          :: st_subheader (lit "Transkript (önizleme)")
          :: st_text_area (lit " ") (repeat (ch "a") 2000 ++ lit "...") 180
          :: rest)
  /\ forall label value height,
       In (st_text_area label value height)
          (fst (main accept_bracketed no_nfkc_delimiter
                  (providing [snippet (repeat (ch "a") 2001)]) 100
                  (answering (lit "Sorry, I cannot help with that."))
                  message_of encode_error
                  (Some (lit "sk-test")) (lit "dQw4w9WgXcQ") (lit "gpt-5")
                  true)) ->
       value = repeat (ch "a") 2000 ++ lit "...".
Proof.
  assert (L : (PREVIEW_LIMIT < List.length (repeat (ch "a") 2001))%nat).
  { rewrite repeat_length. unfold PREVIEW_LIMIT. lia. }
  assert (F : firstn PREVIEW_LIMIT (repeat (ch "a") 2001) ++ TRUNCATION_MARKER
              = repeat (ch "a") 2000 ++ lit "...").
  { vm_compute. reflexivity. }
  split.
  - destruct (proj2 (transcript_preview_shown accept_bracketed
                       no_nfkc_delimiter
                       (providing [snippet (repeat (ch "a") 2001)]) 100
                       (answering (lit "Sorry, I cannot help with that."))
                       message_of encode_error
                       (Some (lit "sk-test")) (lit "dQw4w9WgXcQ") (lit "gpt-5")
                       true)
                (lit "dQw4w9WgXcQ") (repeat (ch "a") 2001)
                eq_refl eq_refl
                ltac:(vm_compute; reflexivity)
                ltac:(vm_compute; reflexivity))
      as [shown [[P _] Hs]].
    rewrite (P L), F in Hs. apply Hs.
    apply forallb_Forall_true. vm_compute. reflexivity.
  - intros label value height H.
    destruct (proj1 (transcript_preview_shown accept_bracketed
                       no_nfkc_delimiter
                       (providing [snippet (repeat (ch "a") 2001)]) 100
                       (answering (lit "Sorry, I cannot help with that."))
                       message_of encode_error
                       (Some (lit "sk-test")) (lit "dQw4w9WgXcQ") (lit "gpt-5")
                       true)
                label value height H)
      as [_ [video_id [transcript [He [Hf [[P _] _]]]]]].
    assert (Ev : video_id = lit "dQw4w9WgXcQ").
    { vm_compute in He. injection He as He. symmetry. exact He. }
    subst video_id.
    assert (Et : transcript = repeat (ch "a") 2001).
    { vm_compute in Hf. injection Hf as Hf. rewrite <- Hf.
      vm_compute. reflexivity. }
    subst transcript. rewrite (P L). exact F.
Defined.

Lemma extract_video_id_url_shapes_witness :
  extract_video_id accept_bracketed no_nfkc_delimiter
    (lit "https://" ++ lit "youtu.be" ++ lit "/" ++ lit "dQw4w9WgXcQ")
  = Ok (lit "dQw4w9WgXcQ")
  /\ extract_video_id accept_bracketed no_nfkc_delimiter
       (lit "https://" ++ lit "www.youtube.com" ++ lit "/watch?v="
          ++ lit "dQw4w9WgXcQ" ++ lit "&" ++ lit "t=10s")
     = Ok (lit "dQw4w9WgXcQ")
  /\ extract_video_id accept_bracketed no_nfkc_delimiter
       (lit "https://" ++ lit "www.youtube.com" ++ lit "/shorts/"
          ++ lit "dQw4w9WgXcQ")
     = Ok (lit "dQw4w9WgXcQ").
Proof.
  assert (Hid : valid_id (lit "dQw4w9WgXcQ"))
    by (apply fullmatch_ID_RE; vm_compute; reflexivity).
  destruct (proj1 (extract_video_id_url_shapes accept_bracketed
                     no_nfkc_delimiter)
              (lit "youtu.be") (lit "dQw4w9WgXcQ")
              ltac:(apply forallb_Forall_true; vm_compute; reflexivity) Hid)
    as [S _].
  destruct (proj1 (extract_video_id_url_shapes accept_bracketed
                     no_nfkc_delimiter)
              (lit "www.youtube.com") (lit "dQw4w9WgXcQ")
              ltac:(apply forallb_Forall_true; vm_compute; reflexivity) Hid)
    as [_ [_ [W Sh]]].
  split; [apply S; left; reflexivity|]. split; [|exact Sh].
  apply W. apply forallb_Forall_true. vm_compute. reflexivity.
Defined.
